(** * geant4-api: run accumulation, hit capture, geometry and analysis output

  A shallow embedding of the C++ application under
  [app/core/geant4_app] (the generic application in [src/], [include/]
  and the tracker example in [B2a/]).

  - [G4double] is IEEE binary64: Rocq's primitive [float], whose
    operations the kernel evaluates and [FloatAxioms] specifies.
  - [G4int] is a [Z].
  - Objects mutated in place ([Analysis], [RunAction], the sensitive
    detectors, [DetectorConstruction]) are records passed explicitly.
  - The Geant4 kernel is external to the repository.  The calls the
    application makes into it are kept as a trace ([G4AnalysisManager]),
    or modelled by what the kernel documents ([G4AccumulableManager],
    [G4Exception]). *)

From Stdlib Require Import ZArith List Bool Lia Permutation.
From Stdlib Require Import Floats.
From stdpp Require Import base gmap strings list fin_maps.

Import ListNotations.
Local Open Scope Z_scope.


(** ** Units ([G4SystemOfUnits.hh], CLHEP)

  The header is part of Geant4, not of the repository.  CLHEP takes the
  millimetre, the MeV and the radian as base units. *)
Module Units.
Definition mm : float := 1%float.
Definition cm : float := (10 * mm)%float.
Definition m : float := (1000 * mm)%float.
Definition MeV : float := 1%float.
Definition keV : float := (0x1.0624dd2f1a9fcp-10 (* 1.e-3 *) * MeV)%float.
Definition deg : float := 0x1.1df46a2529d39p-6%float.
End Units.

(** ** Conversions

    [G4int] to [G4double], as the compiler inserts it where an integer
    meets a double ([edep*edep/nofEvents], [copyNo * chamberSpacing]). *)
Definition G4double_of_G4int (n : Z) : float :=
  if n <? 0 then (- of_uint63 (Uint63.of_Z (- n)))%float
  else of_uint63 (Uint63.of_Z n).

(** ** [G4AnalysisManager] (external)

  The application only calls into the manager; what the manager does
  with the calls is Geant4's business.  The model keeps the calls, in
  the order they are made. *)
Module G4AnalysisManager.

Inductive call : Type :=
| SetVerboseLevel (level : Z)
| SetFileName (fileName : string)
| CreateH1 (name title : string) (nbins : Z) (xmin xmax : float) (unit : string)
| CreateH2 (name title : string)
           (nxbins : Z) (xmin xmax : float)
           (nybins : Z) (ymin ymax : float) (xunit yunit : string)
| CreateNtuple (name title : string)
| CreateNtupleIColumn (name : string)
| CreateNtupleDColumn (name : string)
| FinishNtuple
| OpenFile
| Write
| CloseFile
| FillH1 (id : Z) (value : float)
| FillH2 (id : Z) (xvalue yvalue : float)
| FillNtupleIColumn (id : Z) (value : Z)
| FillNtupleDColumn (id : Z) (value : float)
| AddNtupleRow.

(** The process-wide instance: the calls received so far, oldest first. *)
Definition t : Type := list call.

Definition is_OpenFile (c : call) : bool :=
  match c with OpenFile => true | _ => false end.
Definition is_Write (c : call) : bool :=
  match c with Write => true | _ => false end.
Definition is_CloseFile (c : call) : bool :=
  match c with CloseFile => true | _ => false end.
Definition is_Create (c : call) : bool :=
  match c with
  | CreateH1 _ _ _ _ _ _ | CreateH2 _ _ _ _ _ _ _ _ _ _
  | CreateNtuple _ _ | CreateNtupleIColumn _ | CreateNtupleDColumn _ => true
  | _ => false
  end.

Definition count (p : call -> bool) (mgr : t) : nat :=
  length (List.filter p mgr).

(** Files opened and not closed yet. *)
Fixpoint open_files (mgr : t) (n : nat) : nat :=
  match mgr with
  | [] => n
  | OpenFile :: rest => open_files rest (S n)
  | CloseFile :: rest => open_files rest (Nat.pred n)
  | _ :: rest => open_files rest n
  end.

End G4AnalysisManager.

(** ** [Analysis] ([Analysis.hh], [Analysis.cc])

  A singleton holding the output directory and the [fBooked] flag; its
  methods forward to the analysis manager. *)
Module Analysis.
Import G4AnalysisManager Units.

Record t : Type := mk {
  fOutputDir : string;
  fBooked : bool;
  manager : G4AnalysisManager.t
}.

(** [Analysis::Analysis()] *)
Definition new : t := {| fOutputDir := "."; fBooked := false; manager := [] |}.

Definition SetOutputDirectory (dir : string) (a : t) : t :=
  {| fOutputDir := dir; fBooked := fBooked a; manager := manager a |}.

Definition send (cs : list call) (a : t) : t :=
  {| fOutputDir := fOutputDir a; fBooked := fBooked a;
     manager := manager a ++ cs |}.

(** The calls [Book] makes, in order, for the file name [fileName]. *)
Definition booking (fileName : string) : list call :=
  [ SetVerboseLevel 1;
    SetFileName fileName;
    CreateH1 "Edep" "Energy deposit in detector" 100 0 (10 * MeV) "MeV";
    CreateH1 "PosZ" "Hit position Z" 100 (-500 * mm) (500 * mm) "mm";
    CreateH2 "PosXY" "Hit position XY"
             100 (-200 * mm) (200 * mm)
             100 (-200 * mm) (200 * mm) "mm" "mm";
    CreateNtuple "hits" "Hit data";
    CreateNtupleIColumn "eventID";
    CreateNtupleDColumn "edep";
    CreateNtupleDColumn "posX";
    CreateNtupleDColumn "posY";
    CreateNtupleDColumn "posZ";
    CreateNtupleDColumn "time";
    FinishNtuple;
    OpenFile ]%float.

(** [Analysis::Book()] *)
Definition Book (a : t) : t :=
  if fBooked a then a
  else
    let fileName := (fOutputDir a ++ "/output")%string in
    {| fOutputDir := fOutputDir a;
       fBooked := true;
       manager := manager a ++ booking fileName |}.

(** [Analysis::Save()] *)
Definition Save (a : t) : t :=
  {| fOutputDir := fOutputDir a;
     fBooked := false;
     manager := manager a ++ [Write; CloseFile] |}.

Definition FillH1 (id : Z) (value : float) : t -> t :=
  send [G4AnalysisManager.FillH1 id value].
Definition FillH2 (id : Z) (xvalue yvalue : float) : t -> t :=
  send [G4AnalysisManager.FillH2 id xvalue yvalue].
Definition FillNtupleIColumn (id : Z) (value : Z) : t -> t :=
  send [G4AnalysisManager.FillNtupleIColumn id value].
Definition FillNtupleDColumn (id : Z) (value : float) : t -> t :=
  send [G4AnalysisManager.FillNtupleDColumn id value].
(** The body of [FillNtupleSColumn] is empty. *)
Definition FillNtupleSColumn (id : Z) (value : string) (a : t) : t := a.
Definition AddNtupleRow : t -> t :=
  send [G4AnalysisManager.AddNtupleRow].

(** Every public method, as a command, so that sequences of calls can
    be quantified over. *)
Inductive command : Type :=
| CSetOutputDirectory (dir : string)
| CBook
| CSave
| CFillH1 (id : Z) (value : float)
| CFillH2 (id : Z) (xvalue yvalue : float)
| CFillNtupleIColumn (id : Z) (value : Z)
| CFillNtupleDColumn (id : Z) (value : float)
| CFillNtupleSColumn (id : Z) (value : string)
| CAddNtupleRow.

Definition run (c : command) : t -> t :=
  match c with
  | CSetOutputDirectory dir => SetOutputDirectory dir
  | CBook => Book
  | CSave => Save
  | CFillH1 id v => FillH1 id v
  | CFillH2 id x y => FillH2 id x y
  | CFillNtupleIColumn id v => FillNtupleIColumn id v
  | CFillNtupleDColumn id v => FillNtupleDColumn id v
  | CFillNtupleSColumn id v => FillNtupleSColumn id v
  | CAddNtupleRow => AddNtupleRow
  end.

Definition run_all (cs : list command) (a : t) : t :=
  fold_left (fun acc c => run c acc) cs a.

Definition is_CSave (c : command) : bool :=
  match c with CSave => true | _ => false end.

End Analysis.

(** ** [RunAction] ([RunAction.hh], [RunAction.cc])

  The two accumulables [fEdep] and [fEdep2] are registered with
  [G4AccumulableManager].  The manager is Geant4's: [Reset] puts every
  registered accumulable back to its initial value, and [Merge], called
  on a worker thread, adds that worker's accumulables into the master's
  (on the master thread, and in a sequential build, it changes nothing). *)
Module RunAction.
Local Open Scope float_scope.

Record t : Type := mk {
  fOutputDir : string;
  fEdep : float;
  fEdep2 : float
}.

(** [RunAction::RunAction(outputDir)] *)
Definition new (outputDir : string) : t :=
  {| fOutputDir := outputDir; fEdep := 0; fEdep2 := 0 |}.

(** [RunAction::AddEdep(edep)] *)
Definition AddEdep (edep : float) (r : t) : t :=
  {| fOutputDir := fOutputDir r;
     fEdep := fEdep r + edep;
     fEdep2 := fEdep2 r + edep * edep |}.

(** [G4AccumulableManager::Reset()] on the accumulables of [r]. *)
Definition Reset (r : t) : t :=
  {| fOutputDir := fOutputDir r; fEdep := 0; fEdep2 := 0 |}.

(** What [G4AccumulableManager::Merge()] does to the master's
    accumulables for one worker: [master += worker], field by field. *)
Definition mergeFrom (worker master : t) : t :=
  {| fOutputDir := fOutputDir master;
     fEdep := fEdep master + fEdep worker;
     fEdep2 := fEdep2 master + fEdep2 worker |}.

(** The three numbers of the end-of-run report. *)
Record report : Type := mk_report {
  totalEdep : float;
  meanEdep : float;
  rmsEdep : float
}.

(** The thread that runs a callback.  A worker carries its own
    [RunAction]; the master's lives in the process state. *)
Inductive thread : Type :=
| MasterThread
| WorkerThread (self : t).

Definition IsMaster (th : thread) : bool :=
  match th with MasterThread => true | WorkerThread _ => false end.

(** What the callbacks of one process share: the master's [RunAction],
    the [Analysis] singleton and the reports printed on [G4cout]. *)
Record process : Type := mk_process {
  master : t;
  analysis : Analysis.t;
  printed : list report
}.

Definition start (outputDir : string) : process :=
  {| master := new outputDir; analysis := Analysis.new; printed := [] |}.

Definition this (th : thread) (p : process) : t :=
  match th with MasterThread => master p | WorkerThread self => self end.

(** [accumulableManager->Merge()] run by thread [th]. *)
Definition Merge (th : thread) (p : process) : process :=
  match th with
  | MasterThread => p
  | WorkerThread self =>
      {| master := mergeFrom self (master p);
         analysis := analysis p; printed := printed p |}
  end.

(** [RunAction::BeginOfRunAction], on any thread: [self] is the
  thread's [RunAction], [a] the [Analysis] singleton. *)
Definition BeginOfRunAction (self : t) (a : Analysis.t) : t * Analysis.t :=
  let self := Reset self in
  (self, Analysis.Book (Analysis.SetOutputDirectory (fOutputDir self) a)).

(** The same on the master thread of process [p]. *)
Definition BeginOfRunAction_master (p : process) : process :=
  let '(self, a) := BeginOfRunAction (master p) (analysis p) in
  {| master := self; analysis := a; printed := printed p |}.

(** The statistics block of [EndOfRunAction], lines 50 to 54 and the
    expressions printed on lines 60 to 62. *)
Definition statistics (edep edep2 : float) (nofEvents : Z) : report :=
  let n := G4double_of_G4int nofEvents in
  let rms := edep2 - edep * edep / n in
  let rms := if 0 <? rms then sqrt rms else 0 in
  {| totalEdep := edep; meanEdep := edep / n; rmsEdep := rms / n |}.

(** [RunAction::EndOfRunAction], run by thread [th] for a run of
    [nofEvents] events ([run->GetNumberOfEvent()]). *)
Definition EndOfRunAction (th : thread) (nofEvents : Z) (p : process) : process :=
  if (nofEvents =? 0)%Z then p
  else
    let p := Merge th p in
    let self := this th p in
    let r := statistics (fEdep self) (fEdep2 self) nofEvents in
    {| master := master p;
       analysis := Analysis.Save (analysis p);
       printed := if IsMaster th then printed p ++ [r] else printed p |}.

End RunAction.

(** ** Steps ([G4Step], external)

    What the two sensitive detectors read from the step the kernel hands
    them: the track, the pre- and post-step points and the touchable. *)
Record G4ThreeVector : Type := mk_vec { vx : float; vy : float; vz : float }.

Record G4Step : Type := mk_step {
  TotalEnergyDeposit : float;
  TrackID : Z;
  ParentID : Z;
  ParticleName : string;
  PDGEncoding : Z;
  PrePosition : G4ThreeVector;
  PreMomentum : G4ThreeVector;
  PreKineticEnergy : float;
  PreGlobalTime : float;
  PreLocalTime : float;
  PreCopyNumber : Z;
  PostPosition : G4ThreeVector;
  PostGlobalTime : float;
  (** [GetProcessDefinedStep()] of the post-step point: the name of the
    process, or [None] for a null pointer. *)
  PostProcessDefinedStep : option string
}.

(** A step of an electron that deposits [edep], for the examples. *)
Definition electron_step (edep : float) : G4Step :=
  {| TotalEnergyDeposit := edep;
   TrackID := 1; ParentID := 0; ParticleName := "e-"; PDGEncoding := 11;
   PrePosition := {| vx := 0; vy := 0; vz := 0 |};
   PreMomentum := {| vx := 0; vy := 0; vz := 1 |};
   PreKineticEnergy := 3; PreGlobalTime := 0; PreLocalTime := 0;
   PreCopyNumber := 2;
   PostPosition := {| vx := 0; vy := 0; vz := 1 |};
   PostGlobalTime := 1;
   PostProcessDefinedStep := Some "eIoni" |}%float.

(** ** [SensitiveDetector] ([SensitiveDetector.hh], [SensitiveDetector.cc]) *)
Module SensitiveDetector.
Local Open Scope float_scope.

Record DetectorHit : Type := mk_hit {
  fEventID : Z;
  fTrackID : Z;
  fParentID : Z;
  fParticleName : string;
  fParticlePDG : Z;
  fPosition : G4ThreeVector;
  fMomentum : G4ThreeVector;
  fKineticEnergy : float;
  fEnergyDeposit : float;
  fGlobalTime : float;
  fLocalTime : float;
  fProcessName : string
}.

(** [G4THitsCollection<DetectorHit>]: the hits in insertion order. *)
Definition DetectorHitsCollection : Type := list DetectorHit.

Record t : Type := mk {
  SensitiveDetectorName : string;
  collectionName : string;
  (** [None] is the null pointer the constructor leaves. *)
  fHitsCollection : option DetectorHitsCollection;
  fHCID : Z
}.

(** [SensitiveDetector::SensitiveDetector(name, hcName)] *)
Definition new (name hcName : string) : t :=
  {| SensitiveDetectorName := name; collectionName := hcName;
   fHitsCollection := None; fHCID := -1 |}.

(** [SensitiveDetector::Initialize]; [collectionID] is what
    [G4SDManager::GetCollectionID] answers. *)
Definition Initialize (collectionID : Z) (sd : t) : t :=
  {| SensitiveDetectorName := SensitiveDetectorName sd;
   collectionName := collectionName sd;
   fHitsCollection := Some [];
   fHCID := if (fHCID sd <? 0)%Z then collectionID else fHCID sd |}.

(** The hit [ProcessHits] fills in, for the current event [eventID]. *)
Definition make_hit (eventID : Z) (step : G4Step) : DetectorHit :=
  {| fEventID := eventID;
   fTrackID := TrackID step;
   fParentID := ParentID step;
   fParticleName := ParticleName step;
   fParticlePDG := PDGEncoding step;
   fPosition := PrePosition step;
   fMomentum := PreMomentum step;
   fKineticEnergy := PreKineticEnergy step;
   fEnergyDeposit := TotalEnergyDeposit step;
   fGlobalTime := PreGlobalTime step;
   fLocalTime := PreLocalTime step;
   fProcessName :=
     match PostProcessDefinedStep step with
     | Some name => name
     | None => ""
     end |}.

(** [SensitiveDetector::ProcessHits].  The result is [None] where the
    code dereferences a null [fHitsCollection]. *)
Definition ProcessHits (eventID : Z) (step : G4Step) (sd : t) : option (bool * t) :=
  let edep := TotalEnergyDeposit step in
  if edep <=? 0 then Some (false, sd)
  else
  match fHitsCollection sd with
  | None => None
  | Some hc =>
      Some (true,
            {| SensitiveDetectorName := SensitiveDetectorName sd;
               collectionName := collectionName sd;
               fHitsCollection := Some (hc ++ [make_hit eventID step]);
               fHCID := fHCID sd |})
  end.

(** Number of hits in the collection ([entries()]); 0 before [Initialize]. *)
Definition entries (sd : t) : nat :=
  match fHitsCollection sd with Some hc => length hc | None => 0%nat end.

End SensitiveDetector.

(** ** [B2a::TrackerSD] ([TrackerSD.hh], [TrackerSD.cc], [TrackerHit.hh]) *)
Module TrackerSD.
Local Open Scope float_scope.

Record TrackerHit : Type := mk_hit {
  fTrackID : Z;
  fChamberNb : Z;
  fEdep : float;
  fPos : G4ThreeVector;
  fTime : float;
  fParticleName : string
}.

Definition TrackerHitsCollection : Type := list TrackerHit.

Record t : Type := mk {
  SensitiveDetectorName : string;
  collectionName : string;
  fHitsCollection : option TrackerHitsCollection
}.

(** [TrackerSD::TrackerSD(name, hitsCollectionName)] *)
Definition new (name hitsCollectionName : string) : t :=
  {| SensitiveDetectorName := name; collectionName := hitsCollectionName;
   fHitsCollection := None |}.

(** [TrackerSD::Initialize] *)
Definition Initialize (sd : t) : t :=
  {| SensitiveDetectorName := SensitiveDetectorName sd;
   collectionName := collectionName sd;
   fHitsCollection := Some [] |}.

Definition make_hit (aStep : G4Step) : TrackerHit :=
  {| fTrackID := TrackID aStep;
   fChamberNb := PreCopyNumber aStep;
   fEdep := TotalEnergyDeposit aStep;
   fPos := PostPosition aStep;
   fTime := PostGlobalTime aStep;
   fParticleName := ParticleName aStep |}.

(** [TrackerSD::ProcessHits] *)
Definition ProcessHits (aStep : G4Step) (sd : t) : option (bool * t) :=
  let edep := TotalEnergyDeposit aStep in
  if edep =? 0 then Some (false, sd)
  else
  match fHitsCollection sd with
  | None => None
  | Some hc =>
      Some (true,
            {| SensitiveDetectorName := SensitiveDetectorName sd;
               collectionName := collectionName sd;
               fHitsCollection := Some (hc ++ [make_hit aStep]) |})
  end.

Definition entries (sd : t) : nat :=
  match fHitsCollection sd with Some hc => length hc | None => 0%nat end.

(** The local [totalEdep] of [TrackerSD::EndOfEvent] after its loop:
    the deposits of the hits summed from [0.] in collection order, in
    internal units (MeV). *)
Definition totalEdep (sd : t) : float :=
  match fHitsCollection sd with
  | Some hc => fold_left (fun acc h => acc + fEdep h) hc 0
  | None => 0
  end.

(** What [TrackerSD::EndOfEvent] prints after [Total Edep:], line 79:
    [totalEdep/keV]. *)
Definition printed_totalEdep (sd : t) : float := totalEdep sd / Units.keV.

End TrackerSD.

(** ** How a call into the code ends *)
Inductive outcome (A : Type) : Type :=
| Returned (a : A)
  (** [G4Exception(origin, code, FatalException, description)]: the kernel
    prints the message and aborts the program. *)
| FatalException (originOfException exceptionCode description : string)
  (** A member call through a null pointer. *)
| NullDereference.
Arguments Returned {A} a.
Arguments FatalException {A} originOfException exceptionCode description.
Arguments NullDereference {A}.

(** ** [B2a::DetectorConstruction]
    ([B2a/include/DetectorConstruction.hh], [B2a/src/DetectorConstruction.cc])

    Every [new] of [DefineVolumes] allocates in a store of solids, logical
    volumes and placements; a pointer is the index of its object. *)
Module B2a.
Import Units.
Local Open Scope float_scope.

Inductive G4VSolid : Type :=
| G4Box (name : string) (pX pY pZ : float)
| G4Tubs (name : string) (pRMin pRMax pDz pSPhi pDPhi : float).

Inductive G4VisAttributes : Type :=
| Invisible
| Colour (red green blue : float).

Record G4LogicalVolume : Type := mk_lv {
  lv_solid : nat;
  lv_material : option string;
  lv_name : string;
  lv_vis : option G4VisAttributes;
  lv_limits : option nat
}.

Record G4PVPlacement : Type := mk_pv {
  pv_translation : G4ThreeVector;
  pv_logical : nat;
  pv_name : string;
  pv_mother : option nat;
  pv_copyNo : Z;
  pv_surfChk : bool
}.

Record store : Type := mk_store {
  solids : list G4VSolid;
  logicals : list G4LogicalVolume;
  placements : list G4PVPlacement;
  (** [G4UserLimits] objects: their maximum step. *)
  userLimits : list float;
  (** [G4GeometryManager::SetWorldMaximumExtent] *)
  worldMaximumExtent : option float
}.

Definition empty_store : store :=
  {| solids := []; logicals := []; placements := []; userLimits := [];
   worldMaximumExtent := None |}.

Record t : Type := mk {
  fNbOfChambers : Z;
  fLogicTarget : option nat;
  fLogicChamber : option nat;
  fTargetPV : option nat;
  fChamberPV : option nat;
  fTargetMaterial : option string;
  fChamberMaterial : option string;
  fStepLimit : option nat;
  fCheckOverlaps : bool
}.

(** The object after its constructor: the in-class initialisers, then
    [DefineMaterials]. *)
Definition new : t :=
  {| fNbOfChambers := 5;
   fLogicTarget := None; fLogicChamber := None;
   fTargetPV := None; fChamberPV := None;
   fTargetMaterial := Some "G4_Pb"; fChamberMaterial := Some "G4_Xe";
   fStepLimit := None;
   fCheckOverlaps := true |}.

Definition SetCheckOverlaps (checkOverlaps : bool) (d : t) : t :=
  {| fNbOfChambers := fNbOfChambers d;
   fLogicTarget := fLogicTarget d; fLogicChamber := fLogicChamber d;
   fTargetPV := fTargetPV d; fChamberPV := fChamberPV d;
   fTargetMaterial := fTargetMaterial d; fChamberMaterial := fChamberMaterial d;
   fStepLimit := fStepLimit d;
   fCheckOverlaps := checkOverlaps |}.

(** The object and the store, threaded through [DefineVolumes]. *)
Record state : Type := mk_state { self : t; heap : store }.

(** A computation that reads and writes the state and may abort; the
    state at the abort is kept. *)
Definition M (A : Type) : Type := state -> outcome A * state.

Definition ret {A} (a : A) : M A := fun s => (Returned a, s).

Definition bind {A B} (c : M A) (k : A -> M B) : M B :=
  fun s =>
  match c s with
  | (Returned a, s') => k a s'
  | (FatalException o c d, s') => (FatalException o c d, s')
  | (NullDereference, s') => (NullDereference, s')
  end.

Notation "x <- c ;; k" := (bind c (fun x => k))
  (at level 100, c at next level, right associativity).
Notation "c ;;; k" := (bind c (fun _ => k))
  (at level 100, right associativity).

Definition get_self : M t := fun s => (Returned (self s), s).

Definition modify_self (f : t -> t) : M unit :=
  fun s => (Returned tt, {| self := f (self s); heap := heap s |}).

Definition modify_heap (f : store -> store) : M unit :=
  fun s => (Returned tt, {| self := self s; heap := f (heap s) |}).

Definition G4Exception (origin code description : string) : M unit :=
  fun s => (FatalException origin code description, s).

Definition SetWorldMaximumExtent (worldExtent : float) : M unit :=
  modify_heap (fun h =>
  {| solids := solids h; logicals := logicals h; placements := placements h;
     userLimits := userLimits h; worldMaximumExtent := Some worldExtent |}).

Definition new_solid (sol : G4VSolid) : M nat :=
  fun s =>
  let h := heap s in
  (Returned (length (solids h)),
   {| self := self s;
      heap := {| solids := solids h ++ [sol]; logicals := logicals h;
                 placements := placements h; userLimits := userLimits h;
                 worldMaximumExtent := worldMaximumExtent h |} |}).

Definition new_G4LogicalVolume (sol : nat) (material : option string) (name : string)
  : M nat :=
  fun s =>
  let h := heap s in
  (Returned (length (logicals h)),
   {| self := self s;
      heap := {| solids := solids h;
                 logicals := logicals h ++
                   [{| lv_solid := sol; lv_material := material; lv_name := name;
                       lv_vis := None; lv_limits := None |}];
                 placements := placements h; userLimits := userLimits h;
                 worldMaximumExtent := worldMaximumExtent h |} |}).

Definition new_G4PVPlacement (tlate : G4ThreeVector) (logical : nat) (name : string)
  (mother : option nat) (copyNo : Z) (surfChk : bool) : M nat :=
  fun s =>
  let h := heap s in
  (Returned (length (placements h)),
   {| self := self s;
      heap := {| solids := solids h; logicals := logicals h;
                 placements := placements h ++
                   [{| pv_translation := tlate; pv_logical := logical;
                       pv_name := name; pv_mother := mother;
                       pv_copyNo := copyNo; pv_surfChk := surfChk |}];
                 userLimits := userLimits h;
                 worldMaximumExtent := worldMaximumExtent h |} |}).

Definition new_G4UserLimits (maxStep : float) : M nat :=
  fun s =>
  let h := heap s in
  (Returned (length (userLimits h)),
   {| self := self s;
      heap := {| solids := solids h; logicals := logicals h;
                 placements := placements h;
                 userLimits := userLimits h ++ [maxStep];
                 worldMaximumExtent := worldMaximumExtent h |} |}).

Definition update_lv (f : G4LogicalVolume -> G4LogicalVolume) (lv : nat) : M unit :=
  modify_heap (fun h =>
  {| solids := solids h; logicals := alter f lv (logicals h);
     placements := placements h; userLimits := userLimits h;
     worldMaximumExtent := worldMaximumExtent h |}).

(** [lv->SetVisAttributes(vis)]; [lv] may be null. *)
Definition SetVisAttributes (lv : option nat) (vis : G4VisAttributes) : M unit :=
  match lv with
  | None => fun s => (NullDereference, s)
  | Some i =>
    update_lv (fun l =>
      {| lv_solid := lv_solid l; lv_material := lv_material l;
         lv_name := lv_name l; lv_vis := Some vis; lv_limits := lv_limits l |}) i
  end.

(** [lv->SetUserLimits(limits)]; [lv] may be null. *)
Definition SetUserLimits (lv : option nat) (limits : nat) : M unit :=
  match lv with
  | None => fun s => (NullDereference, s)
  | Some i =>
    update_lv (fun l =>
      {| lv_solid := lv_solid l; lv_material := lv_material l;
         lv_name := lv_name l; lv_vis := lv_vis l; lv_limits := Some limits |}) i
  end.

Definition set_target (lv pv : nat) (d : t) : t :=
  {| fNbOfChambers := fNbOfChambers d;
   fLogicTarget := Some lv; fLogicChamber := fLogicChamber d;
   fTargetPV := Some pv; fChamberPV := fChamberPV d;
   fTargetMaterial := fTargetMaterial d; fChamberMaterial := fChamberMaterial d;
   fStepLimit := fStepLimit d; fCheckOverlaps := fCheckOverlaps d |}.

Definition set_chamber (lv pv : nat) (d : t) : t :=
  {| fNbOfChambers := fNbOfChambers d;
   fLogicTarget := fLogicTarget d; fLogicChamber := Some lv;
   fTargetPV := fTargetPV d; fChamberPV := Some pv;
   fTargetMaterial := fTargetMaterial d; fChamberMaterial := fChamberMaterial d;
   fStepLimit := fStepLimit d; fCheckOverlaps := fCheckOverlaps d |}.

Definition set_fStepLimit (limits : nat) (d : t) : t :=
  {| fNbOfChambers := fNbOfChambers d;
   fLogicTarget := fLogicTarget d; fLogicChamber := fLogicChamber d;
   fTargetPV := fTargetPV d; fChamberPV := fChamberPV d;
   fTargetMaterial := fTargetMaterial d; fChamberMaterial := fChamberMaterial d;
   fStepLimit := Some limits; fCheckOverlaps := fCheckOverlaps d |}.

Definition origin : G4ThreeVector := {| vx := 0; vy := 0; vz := 0 |}.

(** The body of the chamber loop for one [copyNo]. *)
Definition place_chamber (trackerLV : nat)
  (firstPosition chamberSpacing rmaxFirst rmaxIncr halfWidth : float)
  (copyNo : Z) : M unit :=
  d <- get_self ;;
  let Zposition := firstPosition + G4double_of_G4int copyNo * chamberSpacing in
  let rmax := rmaxFirst + G4double_of_G4int copyNo * rmaxIncr in
  chamberS <- new_solid (G4Tubs "Chamber_solid" 0 rmax halfWidth (0 * deg) (360 * deg)) ;;
  chamberLV <- new_G4LogicalVolume chamberS (fChamberMaterial d) "Chamber_LV" ;;
  chamberPV <- new_G4PVPlacement {| vx := 0; vy := 0; vz := Zposition |}
               chamberLV "Chamber_PV" (Some trackerLV) copyNo (fCheckOverlaps d) ;;
  modify_self (set_chamber chamberLV chamberPV).

(** [for (copyNo = from; copyNo < fNbOfChambers; copyNo++)], with
    [count] iterations left. *)
Fixpoint chamber_loop (body : Z -> M unit) (count : nat) (copyNo : Z) : M unit :=
  match count with
  | O => ret tt
  | S count' => body copyNo ;;; chamber_loop body count' (copyNo + 1)%Z
  end.

(** [DefineVolumes] with the two sizes the setup check compares left
    open; the source fixes them (see [DefineVolumes]). *)
Definition DefineVolumes_sized (chamberSpacing chamberWidth : float) : M nat :=
  d <- get_self ;;
  let air := Some "G4_AIR"%string in
  let targetLength := 5 * cm in
  let trackerLength := G4double_of_G4int (fNbOfChambers d + 1) * chamberSpacing in
  let worldLength := 0x1.3333333333333p+0 (* 1.2 *) * (2 * targetLength + trackerLength) in
  let targetRadius := 0.5 * targetLength in
  let trackerSize := 0.5 * trackerLength in
  SetWorldMaximumExtent worldLength ;;;
  worldS <- new_solid (G4Box "world" (worldLength / 2) (worldLength / 2) (worldLength / 2)) ;;
  worldLV <- new_G4LogicalVolume worldS air "World" ;;
  worldPV <- new_G4PVPlacement origin worldLV "World" None 0 (fCheckOverlaps d) ;;
  let positionTarget := {| vx := 0; vy := 0; vz := - (targetLength + trackerLength) / 2 |} in
  targetS <- new_solid (G4Tubs "target" 0 targetRadius (targetLength / 2) (0 * deg) (360 * deg)) ;;
  logicTarget <- new_G4LogicalVolume targetS (fTargetMaterial d) "Target" ;;
  targetPV <- new_G4PVPlacement positionTarget logicTarget "Target" (Some worldLV) 0
              (fCheckOverlaps d) ;;
  modify_self (set_target logicTarget targetPV) ;;;
  trackerS <- new_solid (G4Tubs "tracker" 0 trackerSize trackerSize (0 * deg) (360 * deg)) ;;
  trackerLV <- new_G4LogicalVolume trackerS air "Tracker" ;;
  _ <- new_G4PVPlacement origin trackerLV "Tracker" (Some worldLV) 0 (fCheckOverlaps d) ;;
  let firstPosition := - trackerSize + chamberSpacing in
  let firstLength := trackerLength / 10 in
  let lastLength := trackerLength in
  let halfWidth := 0.5 * chamberWidth in
  let rmaxFirst := 0.5 * firstLength in
  rmaxIncr <-
  (if (0 <? fNbOfChambers d)%Z then
     let rmaxIncr :=
       0.5 * (lastLength - firstLength) / G4double_of_G4int (fNbOfChambers d - 1) in
     (if chamberSpacing <? chamberWidth
      then G4Exception "DetectorConstruction::DefineVolumes()" "InvalidSetup" "Width>Spacing"
      else ret tt) ;;;
     ret rmaxIncr
   else ret 0) ;;
  chamber_loop
  (place_chamber trackerLV firstPosition chamberSpacing rmaxFirst rmaxIncr halfWidth)
  (Z.to_nat (fNbOfChambers d)) 0%Z ;;;
  SetVisAttributes (Some worldLV) Invisible ;;;
  let boxVisAtt := Colour 1 1 1 in
  let chamberVisAtt := Colour 1 1 0 in
  d <- get_self ;;
  SetVisAttributes (fLogicTarget d) boxVisAtt ;;;
  SetVisAttributes (Some trackerLV) boxVisAtt ;;;
  SetVisAttributes (fLogicChamber d) chamberVisAtt ;;;
  let maxStep := 0.5 * chamberWidth in
  stepLimit <- new_G4UserLimits maxStep ;;
  modify_self (set_fStepLimit stepLimit) ;;;
  SetUserLimits (fLogicChamber d) stepLimit ;;;
  ret worldPV.

(** [B2a::DetectorConstruction::DefineVolumes]: spacing and width are
    the local constants of lines 99 and 100. *)
Definition DefineVolumes : M nat := DefineVolumes_sized (80 * cm) (20 * cm).

(** [B2a::DetectorConstruction::Construct] *)
Definition Construct : M nat := DefineVolumes.

(** Volumes that exist in a store: logical volumes and placements. *)
Definition volume_count (h : store) : nat :=
  (length (logicals h) + length (placements h))%nat.

Definition logical_names (h : store) : list string := map lv_name (logicals h).

(** [lv->SetMaterial(material)] *)
Definition SetMaterial (lv : nat) (material : option string) : M unit :=
  update_lv (fun l =>
    {| lv_solid := lv_solid l; lv_material := material;
       lv_name := lv_name l; lv_vis := lv_vis l; lv_limits := lv_limits l |}) lv.

Definition set_fTargetMaterial (material : option string) (d : t) : t :=
  {| fNbOfChambers := fNbOfChambers d;
   fLogicTarget := fLogicTarget d; fLogicChamber := fLogicChamber d;
   fTargetPV := fTargetPV d; fChamberPV := fChamberPV d;
   fTargetMaterial := material; fChamberMaterial := fChamberMaterial d;
   fStepLimit := fStepLimit d; fCheckOverlaps := fCheckOverlaps d |}.

Definition set_fChamberMaterial (material : option string) (d : t) : t :=
  {| fNbOfChambers := fNbOfChambers d;
   fLogicTarget := fLogicTarget d; fLogicChamber := fLogicChamber d;
   fTargetPV := fTargetPV d; fChamberPV := fChamberPV d;
   fTargetMaterial := fTargetMaterial d; fChamberMaterial := material;
   fStepLimit := fStepLimit d; fCheckOverlaps := fCheckOverlaps d |}.

(** Two material pointers are the same: the NIST manager keeps one
    material per name, and a null pointer is [None]. *)
Definition same_material (a b : option string) : bool :=
  match a, b with
  | Some x, Some y => String.eqb x y
  | None, None => true
  | _, _ => false
  end.

(** [B2a::DetectorConstruction::SetTargetMaterial]; [pttoMaterial] is
    what [FindOrBuildMaterial(materialName)] answers, [None] for a
    name the manager does not know. *)
Definition SetTargetMaterial (pttoMaterial : option string) : M unit :=
  d <- get_self ;;
  if negb (same_material (fTargetMaterial d) pttoMaterial) then
    match pttoMaterial with
    | Some _ =>
        modify_self (set_fTargetMaterial pttoMaterial) ;;;
        match fLogicTarget d with
        | Some lv => SetMaterial lv pttoMaterial
        | None => ret tt
        end
    | None => ret tt
    end
  else ret tt.

(** [B2a::DetectorConstruction::SetChamberMaterial] *)
Definition SetChamberMaterial (pttoMaterial : option string) : M unit :=
  d <- get_self ;;
  if negb (same_material (fChamberMaterial d) pttoMaterial) then
    match pttoMaterial with
    | Some _ =>
        modify_self (set_fChamberMaterial pttoMaterial) ;;;
        match fLogicChamber d with
        | Some lv => SetMaterial lv pttoMaterial
        | None => ret tt
        end
    | None => ret tt
    end
  else ret tt.

(** [fStepLimit->SetMaxAllowedStep(maxStep)] *)
Definition SetMaxAllowedStep (limits : nat) (maxStep : float) : M unit :=
  modify_heap (fun h =>
  {| solids := solids h; logicals := logicals h; placements := placements h;
     userLimits := <[limits := maxStep]> (userLimits h);
     worldMaximumExtent := worldMaximumExtent h |}).

(** [B2a::DetectorConstruction::SetMaxStep] *)
Definition SetMaxStep (maxStep : float) : M unit :=
  d <- get_self ;;
  match fStepLimit d with
  | Some limits =>
      if 0 <? maxStep then SetMaxAllowedStep limits maxStep else ret tt
  | None => ret tt
  end.

(** Calls of [SetMaxStep] one after the other. *)
Fixpoint SetMaxSteps (maxSteps : list float) : M unit :=
  match maxSteps with
  | [] => ret tt
  | maxStep :: rest => SetMaxStep maxStep ;;; SetMaxSteps rest
  end.

(** The step the calls leave in force when [current] was in force
    before them: the last of them that is above 0, if any. *)
Definition step_in_force (maxSteps : list float) (current : float) : float :=
  fold_left (fun cur maxStep => if 0 <? maxStep then maxStep else cur)
    maxSteps current.

(** The logical volumes [DefineVolumes] adds to those of [h0] after
    the world, the target and the tracker: the chambers. *)
Definition chamber_volumes (h0 h : store) : list G4LogicalVolume :=
  drop (length (logicals h0) + 3) (logicals h).

(** The placements [DefineVolumes] adds after those of the world, the
    target and the tracker. *)
Definition chamber_placements (h0 h : store) : list G4PVPlacement :=
  drop (length (placements h0) + 3) (placements h).

(** What the chamber loop allocates for one [copyNo]: the solid, the
    logical volume on the solid [chamberS], and the placement of the
    logical volume [chamberLV] in the tracker. *)
Definition chamber_solid (rmaxFirst rmaxIncr halfWidth : float) (copyNo : Z) : G4VSolid :=
  G4Tubs "Chamber_solid" 0 (rmaxFirst + G4double_of_G4int copyNo * rmaxIncr)
    halfWidth (0 * deg) (360 * deg).

Definition chamber_lv (material : option string) (chamberS : nat) : G4LogicalVolume :=
  {| lv_solid := chamberS; lv_material := material; lv_name := "Chamber_LV";
     lv_vis := None; lv_limits := None |}.

Definition chamber_pv (trackerLV : nat) (firstPosition chamberSpacing : float)
  (surfChk : bool) (chamberLV : nat) (copyNo : Z) : G4PVPlacement :=
  {| pv_translation :=
       {| vx := 0; vy := 0;
          vz := firstPosition + G4double_of_G4int copyNo * chamberSpacing |};
     pv_logical := chamberLV; pv_name := "Chamber_PV";
     pv_mother := Some trackerLV; pv_copyNo := copyNo; pv_surfChk := surfChk |}.

End B2a.

(** ** [DetectorConstruction] ([DetectorConstruction.hh], [DetectorConstruction.cc])

    The generic application: a geometry read from a GDML file, or the
    default water phantom. *)
Module DetectorConstruction.

(** A logical volume: its address (what a [G4LogicalVolume*] compares
    by), its name, and the logical volumes of its daughters in
    [GetDaughter(i)] order. *)
#[local] Set Warnings "-register-all".
Inductive G4LogicalVolume : Type :=
| LV (address : positive) (name : string) (daughters : list G4LogicalVolume).

Definition GetAddress (lv : G4LogicalVolume) : positive :=
  match lv with LV a _ _ => a end.
Definition GetName (lv : G4LogicalVolume) : string :=
  match lv with LV _ n _ => n end.
Definition GetDaughters (lv : G4LogicalVolume) : list G4LogicalVolume :=
  match lv with LV _ _ ds => ds end.

Record G4GDMLAuxStructType : Type := mk_aux {
  aux_type : string;
  aux_value : string
}.

(** What [G4GDMLParser::Read] leaves in the parser: the world volume and
    the auxiliary lists, keyed by logical volume. *)
Record G4GDMLParser : Type := mk_parser {
  WorldVolume : G4LogicalVolume;
  auxMap : gmap positive (list G4GDMLAuxStructType)
}.

Definition GetVolumeAuxiliaryInformation (parser : G4GDMLParser) (lv : G4LogicalVolume)
  : option (list G4GDMLAuxStructType) :=
  auxMap parser !! GetAddress lv.

Record t : Type := mk {
  fGdmlFile : string;
  fParser : option G4GDMLParser;
  fWorldLogical : option G4LogicalVolume;
  (** [std::vector<G4String>] *)
  fSensitiveVolumes : list string;
  (** [std::map<G4String, G4LogicalVolume*>] *)
  fLogicalVolumes : gmap string positive
}.

(** [DetectorConstruction::DetectorConstruction(gdmlFile)]; the default
    constructor is the case of the empty file name. *)
Definition new (gdmlFile : string) : t :=
  {| fGdmlFile := gdmlFile; fParser := None; fWorldLogical := None;
   fSensitiveVolumes := []; fLogicalVolumes := ∅ |}.

(** The two statements under [if (aux.type == "SensDet")]. *)
Definition mark_sensitive (lv : G4LogicalVolume) (d : t) : t :=
  {| fGdmlFile := fGdmlFile d; fParser := fParser d;
   fWorldLogical := fWorldLogical d;
   fSensitiveVolumes := fSensitiveVolumes d ++ [GetName lv];
   fLogicalVolumes := <[GetName lv := GetAddress lv]> (fLogicalVolumes d) |}.

(** The first half of [FindSensitiveVolumes]: the loop over the
    auxiliary list of [lv]. *)
Definition check_aux (lv : G4LogicalVolume) (d : t) : t :=
  match fParser d with
  | Some parser =>
    match GetVolumeAuxiliaryInformation parser lv with
    | Some auxList =>
        fold_left
          (fun acc aux =>
             if String.eqb (aux_type aux) "SensDet" then mark_sensitive lv acc
             else acc)
          auxList d
    | None => d
    end
  | None => d
  end.

(** [DetectorConstruction::FindSensitiveVolumes] *)
Fixpoint FindSensitiveVolumes (lv : G4LogicalVolume) (d : t) {struct lv} : t :=
  match lv with
  | LV _ _ daughters =>
    fold_left (fun acc pv => FindSensitiveVolumes pv acc) daughters (check_aux lv d)
  end.

(** [DetectorConstruction::LoadGDML]; [parsed] is what reading
    [fGdmlFile] produces. *)
Definition LoadGDML (parsed : G4GDMLParser) (d : t) : t :=
  let d :=
  {| fGdmlFile := fGdmlFile d; fParser := Some parsed;
     fWorldLogical := Some (WorldVolume parsed);
     fSensitiveVolumes := fSensitiveVolumes d;
     fLogicalVolumes := fLogicalVolumes d |} in
  FindSensitiveVolumes (WorldVolume parsed) d.

(** [DetectorConstruction::ConstructDefaultGeometry]; the two [new
    G4LogicalVolume] give the addresses [world] and [phantom]. *)
Definition ConstructDefaultGeometry (world phantom : positive) (d : t) : t :=
  let phantomLogical := LV phantom "Phantom" [] in
  {| fGdmlFile := fGdmlFile d; fParser := fParser d;
   fWorldLogical := Some (LV world "World" [phantomLogical]);
   fSensitiveVolumes := fSensitiveVolumes d ++ ["Phantom"];
   fLogicalVolumes := <["Phantom" := phantom]> (fLogicalVolumes d) |}.

(** The sensitive detectors [ConstructSDandField] registers: the name
    of each, and the logical volume it is attached to, if any. *)
Definition ConstructSDandField (d : t) : list (string * option positive) :=
  map (fun name => ((name ++ "_SD")%string, fLogicalVolumes d !! name))
    (fSensitiveVolumes d).

(** The names and addresses [FindSensitiveVolumes] marks under [lv],
    in the order it marks them. *)
Definition marks_at (parser : option G4GDMLParser) (lv : G4LogicalVolume)
  : list (string * positive) :=
  match parser with
  | Some p =>
    match GetVolumeAuxiliaryInformation p lv with
    | Some auxList =>
        flat_map
          (fun aux =>
             if String.eqb (aux_type aux) "SensDet"
             then [(GetName lv, GetAddress lv)] else [])
          auxList
    | None => []
    end
  | None => []
  end.

Fixpoint marks (parser : option G4GDMLParser) (lv : G4LogicalVolume) {struct lv}
  : list (string * positive) :=
  match lv with
  | LV _ _ daughters => marks_at parser lv ++ flat_map (marks parser) daughters
  end.

(** Marking a list of volumes, one after the other. *)
Definition mark_all (ms : list (string * positive)) (d : t) : t :=
  {| fGdmlFile := fGdmlFile d; fParser := fParser d;
   fWorldLogical := fWorldLogical d;
   fSensitiveVolumes := fSensitiveVolumes d ++ map fst ms;
   fLogicalVolumes :=
     fold_left (fun m kv => <[fst kv := snd kv]> m) ms (fLogicalVolumes d) |}.

(** [DetectorConstruction::Construct]: [parsed] is what reading the
    file gives, [world] and [phantom] the addresses the default geometry
    allocates. *)
Definition Construct (parsed : G4GDMLParser) (world phantom : positive) (d : t) : t :=
  if negb (String.eqb (fGdmlFile d) "") then LoadGDML parsed d
  else ConstructDefaultGeometry world phantom d.

(** The volumes of the tree under [lv], [lv] first and then the trees
    of its daughters in [GetDaughter(i)] order. *)
Fixpoint subvolumes (lv : G4LogicalVolume) {struct lv} : list G4LogicalVolume :=
  match lv with
  | LV _ _ daughters => lv :: flat_map subvolumes daughters
  end.

(** The number of auxiliary entries of type [SensDet] the parser has
    for [lv]. *)
Definition SensDet_entries (parser : G4GDMLParser) (lv : G4LogicalVolume) : nat :=
  match GetVolumeAuxiliaryInformation parser lv with
  | Some auxList =>
      length (List.filter (fun aux => String.eqb (aux_type aux) "SensDet") auxList)
  | None => 0%nat
  end.

(** What one volume contributes to the traversal: its name and address
    once per [SensDet] entry. *)
Definition volume_marks (parser : G4GDMLParser) (lv : G4LogicalVolume)
  : list (string * positive) :=
  repeat (GetName lv, GetAddress lv) (SensDet_entries parser lv).

(** The volumes of [vols] that have the name [name] and at least one
    [SensDet] entry. *)
Definition tagged_as (parser : G4GDMLParser) (name : string)
  (vols : list G4LogicalVolume) : list G4LogicalVolume :=
  List.filter
    (fun lv => String.eqb (GetName lv) name
               && negb (Nat.eqb (SensDet_entries parser lv) 0))
    vols.

End DetectorConstruction.

(** ** [EventAction] ([EventAction.cc]) *)
Module EventAction.
Import Units.
Local Open Scope float_scope.

(** [EventAction::EndOfEventAction] for the event [eventID] whose steps
    deposited [fEdep] in total: the deposit goes to the run action, to
    histogram 0 and to a row of the ntuple. *)
Definition EndOfEventAction (eventID : Z) (fEdep : float)
  (runAction : RunAction.t) (a : Analysis.t) : RunAction.t * Analysis.t :=
  (RunAction.AddEdep fEdep runAction,
 Analysis.AddNtupleRow
   (Analysis.FillNtupleDColumn 1 (fEdep / MeV)
      (Analysis.FillNtupleIColumn 0 eventID
         (Analysis.FillH1 0 (fEdep / MeV) a)))).

End EventAction.

(** ** Runs

    The callbacks in the order the run manager makes them.  A run is
    given by the total deposit of each of its events. *)
Module Run.
Import RunAction.
Local Open Scope float_scope.

(** Feeding the deposits of a sequence of events to one [RunAction]. *)
Definition accumulate (deposits : list float) (r : RunAction.t) : RunAction.t :=
  fold_left (fun acc edep => AddEdep edep acc) deposits r.

(** The events of one thread: [EndOfEventAction] for each, with event
    numbers counted from [eventID]. *)
Fixpoint process_events (deposits : list float) (eventID : Z)
  (self : RunAction.t) (a : Analysis.t) : RunAction.t * Analysis.t :=
  match deposits with
  | [] => (self, a)
  | edep :: rest =>
    let '(self, a) := EventAction.EndOfEventAction eventID edep self a in
    process_events rest (eventID + 1)%Z self a
  end.

Definition nofEvents (deposits : list float) : Z := Z.of_nat (length deposits).

(** The calls the analysis manager receives for these events. *)
Fixpoint event_calls (deposits : list float) (eventID : Z)
  : list G4AnalysisManager.call :=
  match deposits with
  | [] => []
  | edep :: rest =>
    [ G4AnalysisManager.FillH1 0 (edep / Units.MeV);
      G4AnalysisManager.FillNtupleIColumn 0 eventID;
      G4AnalysisManager.FillNtupleDColumn 1 (edep / Units.MeV);
      G4AnalysisManager.AddNtupleRow ]
    ++ event_calls rest (eventID + 1)%Z
  end.

(** A sequential run: everything happens on the master thread. *)
Definition sequential (deposits : list float) (p : process) : process :=
  let p := BeginOfRunAction_master p in
  let '(self, a) := process_events deposits 0 (master p) (analysis p) in
  EndOfRunAction MasterThread (nofEvents deposits)
  {| master := self; analysis := a; printed := printed p |}.

(** One worker thread, from the start of the run to the end of its
    [EndOfRunAction]. *)
Definition worker (deposits : list float) (p : process) : process :=
  let '(self, a) := BeginOfRunAction (new (fOutputDir (master p))) (analysis p) in
  let '(self, a) := process_events deposits 0 self a in
  EndOfRunAction (WorkerThread self) (nofEvents deposits)
  {| master := master p; analysis := a; printed := printed p |}.

(** A multi-threaded run.  [shards] gives the events of each worker,
    in the order in which the workers reach the end of the run and
    merge; the master ends the run after the last of them, with the
    number of events of the whole run. *)
Definition multithreaded (shards : list (list float)) (p : process) : process :=
  let p := BeginOfRunAction_master p in
  let p := fold_left (fun acc shard => worker shard acc) shards p in
  EndOfRunAction MasterThread (nofEvents (concat shards)) p.

(** The callbacks that touch the accumulables, for histories of calls. *)
Inductive callback : Type :=
| OnBeginOfRunAction
| OnAddEdep (edep : float)
| OnEndOfRunAction (nofEvents : Z).

Definition exec (c : callback) (p : process) : process :=
  match c with
  | OnBeginOfRunAction => BeginOfRunAction_master p
  | OnAddEdep edep =>
    {| master := AddEdep edep (master p);
       analysis := analysis p; printed := printed p |}
  | OnEndOfRunAction n => EndOfRunAction MasterThread n p
  end.

Definition exec_all (cs : list callback) (p : process) : process :=
  fold_left (fun acc c => exec c acc) cs p.

(** Two processes end the run with the same sums and the same reports. *)
Definition same_results (a b : process) : Prop :=
  fEdep (master a) = fEdep (master b)
  /\ fEdep2 (master a) = fEdep2 (master b)
  /\ printed a = printed b.

End Run.

(** ** The accumulator of the specification

    The state machine as section 4.5 of the specification words it, to
    compare the code with: [None] stands for [InvalidStateError]. *)
Module RunAccumulatorSpec.

Inductive phase : Type := Idle | Accumulating | Merged.

Inductive operation : Type := reset | update | mergeFrom | derive.

Definition step (ph : phase) (op : operation) : option phase :=
  match op, ph with
  | reset, (Idle | Merged) => Some Accumulating
  | update, Accumulating => Some Accumulating
  | mergeFrom, (Accumulating | Merged) => Some Merged
  | derive, Merged => Some Merged
  | _, _ => None
  end.

Fixpoint steps (ph : phase) (ops : list operation) : option phase :=
  match ops with
  | [] => Some ph
  | op :: rest =>
    match step ph op with
    | Some ph' => steps ph' rest
    | None => None
    end
  end.

(** The operations of the specification a callback of the code stands
    for: [EndOfRunAction] merges and derives. *)
Definition operations_of (c : Run.callback) : list operation :=
  match c with
  | Run.OnBeginOfRunAction => [reset]
  | Run.OnAddEdep _ => [update]
  | Run.OnEndOfRunAction _ => [mergeFrom; derive]
  end.

(** The formulas of section 3 for the run statistics, with [max] as
    [std::max]. *)
Definition fmax (a b : float) : float := if (a <? b)%float then b else a.

Definition RunStatistics (sumEdep sumEdepSquared : float) (eventCount : Z)
  : RunAction.report :=
  let n := G4double_of_G4int eventCount in
  {| RunAction.totalEdep := sumEdep;
   RunAction.meanEdep := (sumEdep / n)%float;
   RunAction.rmsEdep :=
     (sqrt (fmax 0 (sumEdepSquared - sumEdep * sumEdep / n)) / n)%float |}.

End RunAccumulatorSpec.

(** ** Exact values of doubles

    A finite double is an integer number of units of [2^emin], the
    spacing of the subnormals.  Comparing the value of a sum with the
    sum of the values tells whether an addition rounded. *)
Module Exact.
Local Open Scope float_scope.

Definition scaled (x : spec_float) : option Z :=
  match x with
  | S754_zero _ => Some 0%Z
  | S754_finite s m e => Some (cond_Zopp s (Zpos m) * 2 ^ (e - emin))%Z
  | S754_infinity _ | S754_nan => None
  end.

Definition value (x : float) : option Z := scaled (Prim2SF x).

(** The value, 0 for infinities and NaN. *)
Definition val (x : float) : Z := default 0%Z (value x).

(** The sum of the values of a list of doubles, in exact arithmetic. *)
Definition sum_values (l : list float) : Z := fold_right Z.add 0%Z (map val l).

(** [x + y] is finite and did not round. *)
Definition exact_add (x y : float) : bool :=
  match value x, value y, value (x + y) with
  | Some a, Some b, Some c => (c =? a + b)%Z
  | _, _, _ => false
  end.

(** No addition rounds when [l] is summed onto [s] from left to right. *)
Fixpoint exact_sum (s : float) (l : list float) : bool :=
  match l with
  | [] => true
  | x :: l' => exact_add s x && exact_sum (s + x) l'
  end.

(** The double is not the negative zero. *)
Definition not_negzero (x : float) : Prop := Prim2SF x <> S754_zero true.

(** The sum of a list of doubles, from [0.] and left to right. *)
Definition fsum (l : list float) : float := fold_left PrimFloat.add l 0.

Definition square (x : float) : float := x * x.

(** No addition rounds when one accumulator is fed [deposits]. *)
Definition exact_accumulate (deposits : list float) : bool :=
  exact_sum 0 deposits && exact_sum 0 (map square deposits).

(** The sums a worker merges: none when it saw no event, because
    [EndOfRunAction] returns before the merge. *)
Definition merged_sums (f : list float -> float) (shards : list (list float))
  : list float :=
  map f (filter (fun shard => shard <> []) shards).

(** No addition rounds in a multi-threaded run: neither in the workers
    nor in the merges. *)
Definition exact_multithreaded (shards : list (list float)) : bool :=
  forallb exact_accumulate shards
  && exact_sum 0 (merged_sums fsum shards)
  && exact_sum 0 (merged_sums (fun shard => fsum (map square shard)) shards).

(** A step [2^g] of a binary grid, in units of [2^emin]. *)
Definition grid (g : Z) : Z := 2 ^ (g + 1074).

(** The double is a non-negative multiple of [2^g]. *)
Definition on_grid (g : Z) (x : float) : bool :=
  match value x with
  | Some v => (0 <=? v)%Z && (v mod grid g =? 0)%Z
  | None => false
  end.

(** The doubles of [l] total less than [2^53] steps of the grid. *)
Definition below_2_53 (g : Z) (l : list float) : bool :=
  (sum_values l <? 2 ^ 53 * grid g)%Z.

End Exact.

(** ** Successive runs and what reaches the output

    The run manager may be asked for several runs in one process
    ([/run/beamOn] more than once); each is a sequential run on the
    state the previous one left. *)
Module Session.
Import G4AnalysisManager.

(** The runs of a session, oldest first, each given by the deposits of
    its events. *)
Definition runs (session : list (list float)) (p : RunAction.process)
  : RunAction.process :=
  fold_left (fun acc deposits => Run.sequential deposits acc) session p.

(** The runs of a session that had at least one event. *)
Definition runs_with_events (session : list (list float)) : list (list float) :=
  filter (fun deposits => deposits <> []) session.

Definition is_AddNtupleRow (c : call) : bool :=
  match c with AddNtupleRow => true | _ => false end.

(** The call is a fill of histogram 0, [Edep]. *)
Definition is_FillH1_Edep (c : call) : bool :=
  match c with FillH1 id _ => (id =? 0)%Z | _ => false end.

(** A fill of anything but histogram 0 and the ntuple columns 0 and 1:
    the histograms [PosZ] and [PosXY] and the columns [posX], [posY],
    [posZ] and [time] that [Book] creates. *)
Definition fills_position_or_time (c : call) : bool :=
  match c with
  | FillH1 id _ => negb (id =? 0)%Z
  | FillH2 _ _ _ => true
  | FillNtupleIColumn id _ => negb (id =? 0)%Z
  | FillNtupleDColumn id _ => negb (id =? 1)%Z
  | _ => false
  end.

(** The call does not name a file other than [fileName]. *)
Definition names_no_other_file (fileName : string) (c : call) : bool :=
  match c with
  | SetFileName f => String.eqb f fileName
  | _ => true
  end.

(** The calls one sequential run adds to those the manager has. *)
Definition run_calls (deposits : list float) (p : RunAction.process) : list call :=
  (if Analysis.fBooked (RunAction.analysis p) then []
   else Analysis.booking (RunAction.fOutputDir (RunAction.master p) ++ "/output")%string)
  ++ Run.event_calls deposits 0
  ++ match deposits with [] => [] | _ :: _ => [Write; CloseFile] end.

End Session.

(** ** The hits of one event

    [Initialize] at the start of the event, then [ProcessHits] for each
    step the kernel delivers to the detector, in order. *)
Module Event.

Fixpoint SensitiveDetector_steps (eventID : Z) (steps : list G4Step)
  (sd : SensitiveDetector.t) : option SensitiveDetector.t :=
  match steps with
  | [] => Some sd
  | step :: rest =>
      match SensitiveDetector.ProcessHits eventID step sd with
      | Some (_, sd') => SensitiveDetector_steps eventID rest sd'
      | None => None
      end
  end.

(** One event of the generic detector: [collectionID] is what the
    detector manager answers for the collection, [eventID] the number
    of the current event. *)
Definition SensitiveDetector_event (collectionID eventID : Z) (steps : list G4Step)
  (sd : SensitiveDetector.t) : option SensitiveDetector.t :=
  SensitiveDetector_steps eventID steps (SensitiveDetector.Initialize collectionID sd).

(** Events one after the other, each with its answer of the detector
    manager, its number and its steps. *)
Fixpoint SensitiveDetector_events (events : list (Z * Z * list G4Step))
  (sd : SensitiveDetector.t) : option SensitiveDetector.t :=
  match events with
  | [] => Some sd
  | (collectionID, eventID, steps) :: rest =>
      match SensitiveDetector_event collectionID eventID steps sd with
      | Some sd' => SensitiveDetector_events rest sd'
      | None => None
      end
  end.

Fixpoint TrackerSD_steps (steps : list G4Step) (sd : TrackerSD.t)
  : option TrackerSD.t :=
  match steps with
  | [] => Some sd
  | step :: rest =>
      match TrackerSD.ProcessHits step sd with
      | Some (_, sd') => TrackerSD_steps rest sd'
      | None => None
      end
  end.

Definition TrackerSD_event (steps : list G4Step) (sd : TrackerSD.t)
  : option TrackerSD.t :=
  TrackerSD_steps steps (TrackerSD.Initialize sd).

(** The steps [SensitiveDetector::ProcessHits] keeps: those whose
    deposit fails the test [edep <= 0]. *)
Definition kept_by_SensitiveDetector (step : G4Step) : bool :=
  negb (TotalEnergyDeposit step <=? 0)%float.

(** The steps [TrackerSD::ProcessHits] keeps: those whose deposit fails
    the test [edep == 0.]. *)
Definition kept_by_TrackerSD (step : G4Step) : bool :=
  negb (TotalEnergyDeposit step =? 0)%float.

End Event.

(** ** The command line ([main.cc])

    [main] reads its options in one loop over [argv]; the thread count
    goes through [std::stoi], which is the C++ library's. *)
Module Main.
Import Stdlib.Strings.Ascii.
Local Open Scope string_scope.

Record options : Type := mk_options {
  macroFile : string;
  gdmlFile : string;
  physicsName : string;
  outputDir : string;
  nThreads : Z;
  useVis : bool;
  interactive : bool
}.

(** The initial values of lines 40 to 46. *)
Definition defaults : options :=
  {| macroFile := ""; gdmlFile := ""; physicsName := "FTFP_BERT";
     outputDir := "."; nThreads := 1; useVis := false; interactive := false |}.

Definition set_macroFile (v : string) (o : options) : options :=
  {| macroFile := v; gdmlFile := gdmlFile o; physicsName := physicsName o;
     outputDir := outputDir o; nThreads := nThreads o; useVis := useVis o;
     interactive := interactive o |}.
Definition set_gdmlFile (v : string) (o : options) : options :=
  {| macroFile := macroFile o; gdmlFile := v; physicsName := physicsName o;
     outputDir := outputDir o; nThreads := nThreads o; useVis := useVis o;
     interactive := interactive o |}.
Definition set_physicsName (v : string) (o : options) : options :=
  {| macroFile := macroFile o; gdmlFile := gdmlFile o; physicsName := v;
     outputDir := outputDir o; nThreads := nThreads o; useVis := useVis o;
     interactive := interactive o |}.
Definition set_outputDir (v : string) (o : options) : options :=
  {| macroFile := macroFile o; gdmlFile := gdmlFile o; physicsName := physicsName o;
     outputDir := v; nThreads := nThreads o; useVis := useVis o;
     interactive := interactive o |}.
Definition set_nThreads (v : Z) (o : options) : options :=
  {| macroFile := macroFile o; gdmlFile := gdmlFile o; physicsName := physicsName o;
     outputDir := outputDir o; nThreads := v; useVis := useVis o;
     interactive := interactive o |}.
Definition set_useVis (o : options) : options :=
  {| macroFile := macroFile o; gdmlFile := gdmlFile o; physicsName := physicsName o;
     outputDir := outputDir o; nThreads := nThreads o; useVis := true;
     interactive := interactive o |}.
Definition set_interactive (o : options) : options :=
  {| macroFile := macroFile o; gdmlFile := gdmlFile o; physicsName := physicsName o;
     outputDir := outputDir o; nThreads := nThreads o; useVis := useVis o;
     interactive := true |}.

(** *** [std::stoi] (external)

    [std::stoi(str)] converts with [strtol] in base 10: white space is
    skipped, then an optional sign and the longest run of decimal
    digits are read and the rest of the string is ignored.  It throws
    [std::invalid_argument] when there is no digit to read and
    [std::out_of_range] when the value is not an [int]. *)
Inductive stoi_result : Type :=
| Converted (n : Z)
| invalid_argument
| out_of_range.

Definition isspace (c : ascii) : bool :=
  let n := nat_of_ascii c in
  Nat.eqb n 32 || (Nat.leb 9 n && Nat.leb n 13).

Fixpoint skip_space (s : string) : string :=
  match s with
  | String c s' => if isspace c then skip_space s' else s
  | EmptyString => s
  end.

Definition digit_value (c : ascii) : option Z :=
  let n := Z.of_nat (nat_of_ascii c) in
  if ((48 <=? n) && (n <=? 57))%Z then Some (n - 48)%Z else None.

(** The value of the leading digits of [s], continuing from [acc];
    [None] while no digit has been read. *)
Fixpoint digits (s : string) (acc : option Z) : option Z :=
  match s with
  | String c s' =>
      match digit_value c with
      | Some d => digits s' (Some (10 * default 0 acc + d)%Z)
      | None => acc
      end
  | EmptyString => acc
  end.

Definition stoi (str : string) : stoi_result :=
  let s := skip_space str in
  let '(negative, s) :=
    match s with
    | String "-"%char s' => (true, s')
    | String "+"%char s' => (false, s')
    | _ => (false, s)
    end in
  match digits s None with
  | None => invalid_argument
  | Some v =>
      let n := (if negative then - v else v)%Z in
      if ((- 2 ^ 31 <=? n) && (n <? 2 ^ 31))%Z then Converted n else out_of_range
  end.

(** *** The argument loop *)

(** How the loop ends: [return 0] after the usage text, the end of
    [argv], or an exception of [std::stoi] that nothing catches. *)
Inductive parse_result : Type :=
| PrintUsage
| Parsed (o : options)
| Uncaught (exception : stoi_result).

Definition is_option (arg short long : string) : bool :=
  String.eqb arg short || String.eqb arg long.

(** [arg[0] != '-']; [arg[0]] of the empty string is the null
    character. *)
Definition not_dashed (arg : string) : bool :=
  match arg with
  | String c _ => negb (Ascii.eqb c "-")
  | EmptyString => true
  end.

(** The loop of lines 48 to 76 over the arguments after [argv[0]]. *)
Fixpoint parse (args : list string) (o : options) {struct args} : parse_result :=
  match args with
  | [] => Parsed o
  | arg :: rest =>
      if is_option arg "-h" "--help" then PrintUsage
      else if is_option arg "-g" "--gdml" then
        match rest with
        | value :: rest' => parse rest' (set_gdmlFile value o)
        | [] => parse rest o
        end
      else if is_option arg "-p" "--physics" then
        match rest with
        | value :: rest' => parse rest' (set_physicsName value o)
        | [] => parse rest o
        end
      else if is_option arg "-t" "--threads" then
        match rest with
        | value :: rest' =>
            match stoi value with
            | Converted n => parse rest' (set_nThreads n o)
            | exception => Uncaught exception
            end
        | [] => parse rest o
        end
      else if is_option arg "-o" "--output" then
        match rest with
        | value :: rest' => parse rest' (set_outputDir value o)
        | [] => parse rest o
        end
      else if is_option arg "-v" "--vis" then parse rest (set_useVis o)
      else if is_option arg "-i" "--interactive" then parse rest (set_interactive o)
      else if not_dashed arg then parse rest (set_macroFile arg o)
      else parse rest o
  end.

(** The physics lists [main] can build. *)
Inductive physics_list : Type := FTFP_BERT | QGSP_BERT | QGSP_BIC | Shielding.

(** Lines 101 to 113. *)
Definition select_physics (name : string) : physics_list :=
  if String.eqb name "QGSP_BERT" then QGSP_BERT
  else if String.eqb name "QGSP_BIC" then QGSP_BIC
  else if String.eqb name "Shielding" then Shielding
  else FTFP_BERT.

(** Line 84: the number of threads the run manager is given, if any. *)
Definition SetNumberOfThreads (o : options) : option Z :=
  if (1 <? nThreads o)%Z then Some (nThreads o) else None.

(** A command line that names every option once, the macro last;
    [threads] is the text of the thread count. *)
Definition command_line (o : options) (threads : string) : list string :=
  ["-g"; gdmlFile o; "-p"; physicsName o; "-t"; threads; "-o"; outputDir o]
  ++ (if useVis o then ["-v"] else [])
  ++ (if interactive o then ["-i"] else [])
  ++ [macroFile o].

(** The argument is one of the two spellings that print the usage or
    of the two that read a thread count. *)
Definition help_or_threads (arg : string) : bool :=
  is_option arg "-h" "--help" || is_option arg "-t" "--threads".

End Main.

(** ** Signs of doubles *)
Module Sign.

(** The double is [+0.], a positive finite number or [+inf]: neither
    NaN, nor negative, nor the negative zero. *)
Definition positive_or_zero (x : spec_float) : bool :=
  match x with
  | S754_zero false | S754_infinity false | S754_finite false _ _ => true
  | _ => false
  end.

(** The double is a positive finite number. *)
Definition positive_finite (x : spec_float) : bool :=
  match x with
  | S754_finite false _ _ => true
  | _ => false
  end.

(** The double is NaN. *)
Definition is_NaN (x : float) : bool :=
  match Prim2SF x with
  | S754_nan => true
  | _ => false
  end.

End Sign.

(** * Properties *)

(** ** Analysis output *)
Section AnalysisFacts.
Import Analysis.

Lemma Book_booked (a : Analysis.t) : fBooked a = true -> Book a = a.
Proof. intros H. unfold Book. now rewrite H. Qed.

Lemma fBooked_Book (a : Analysis.t) : fBooked (Book a) = true.
Proof. unfold Book. destruct (fBooked a) eqn:E; [exact E | reflexivity]. Qed.

Lemma fBooked_run (c : command) (a : Analysis.t) :
  is_CSave c = false -> fBooked a = true -> fBooked (run c a) = true.
Proof.
  destruct c; simpl; intros Hc Ha; try discriminate; try exact Ha.
  apply fBooked_Book.
Qed.

Lemma fBooked_run_all (cs : list command) (a : Analysis.t) :
  forallb (fun c => negb (is_CSave c)) cs = true ->
  fBooked a = true -> fBooked (run_all cs a) = true.
Proof.
  revert a. induction cs as [|c cs IH]; intros a Hcs Ha; simpl in *.
  - exact Ha.
  - apply andb_prop in Hcs as [Hc Hcs]. apply IH; [exact Hcs|].
    apply fBooked_run; [|exact Ha]. now destruct (is_CSave c).
Qed.

End AnalysisFacts.

(** C10.  Once [Book] has run, and for as long as [Save] is not called,
    the flag [fBooked] stays set whatever else is called, and a further
    [Book] changes nothing: the state of the analysis, and with it the
    calls received by the analysis manager (no second [OpenFile], no
    second [CreateH1], [CreateH2] or [CreateNtuple]), is the same after
    it as before.  [Save] is what clears the flag. *)
Theorem Book_idempotent_until_Save :
  forall (a : Analysis.t) (cs : list Analysis.command),
    forallb (fun c => negb (Analysis.is_CSave c)) cs = true ->
    let booked := Analysis.run_all cs (Analysis.Book a) in
    Analysis.fBooked booked = true
    /\ Analysis.Book booked = booked
    /\ Analysis.manager (Analysis.Book booked) = Analysis.manager booked
    /\ Analysis.fBooked (Analysis.Save booked) = false.
Proof.
  intros a cs Hcs booked.
  assert (Hb : Analysis.fBooked booked = true).
  { apply fBooked_run_all; [exact Hcs | apply fBooked_Book]. }
  repeat split.
  - exact Hb.
  - now apply Book_booked.
  - now rewrite Book_booked.
Qed.

Lemma Book_idempotent_until_Save_witness :
  let booked :=
    Analysis.run_all
      [Analysis.CFillH1 0 1%float; Analysis.CSetOutputDirectory "out";
       Analysis.CBook; Analysis.CAddNtupleRow]
      (Analysis.Book Analysis.new) in
  Analysis.fBooked booked = true
  /\ Analysis.Book booked = booked
  /\ Analysis.manager (Analysis.Book booked) = Analysis.manager booked
  /\ Analysis.fBooked (Analysis.Save booked) = false.
Proof.
  apply (Book_idempotent_until_Save Analysis.new
           [Analysis.CFillH1 0 1%float; Analysis.CSetOutputDirectory "out";
            Analysis.CBook; Analysis.CAddNtupleRow]).
  reflexivity.
Defined.

(** ** The run action *)
Section RunFacts.
Import RunAction Run.

Lemma process_events_spec (deposits : list float) :
  forall (eventID : Z) (self : RunAction.t) (a : Analysis.t),
    process_events deposits eventID self a
    = (accumulate deposits self, Analysis.send (event_calls deposits eventID) a).
Proof.
  induction deposits as [|edep rest IH]; intros eventID self a; simpl.
  - unfold Analysis.send. rewrite app_nil_r. now destruct a.
  - rewrite IH. f_equal.
    unfold Analysis.AddNtupleRow, Analysis.FillNtupleDColumn,
      Analysis.FillNtupleIColumn, Analysis.FillH1, Analysis.send; simpl.
    now rewrite <- !app_assoc.
Qed.

Lemma fEdep_accumulate (deposits : list float) (r : RunAction.t) :
  fEdep (accumulate deposits r) = fold_left PrimFloat.add deposits (fEdep r).
Proof.
  revert r. induction deposits as [|e l IH]; intros r; simpl; [reflexivity|].
  unfold accumulate in IH. now rewrite IH.
Qed.

Lemma fEdep2_accumulate (deposits : list float) (r : RunAction.t) :
  fEdep2 (accumulate deposits r)
  = fold_left PrimFloat.add (map Exact.square deposits) (fEdep2 r).
Proof.
  revert r. induction deposits as [|e l IH]; intros r; simpl; [reflexivity|].
  unfold accumulate in IH. now rewrite IH.
Qed.

Lemma fOutputDir_accumulate (deposits : list float) (r : RunAction.t) :
  fOutputDir (accumulate deposits r) = fOutputDir r.
Proof.
  revert r. induction deposits as [|e l IH]; intros r; simpl; [reflexivity|].
  unfold accumulate in IH. now rewrite IH.
Qed.

End RunFacts.

Section ManagerFacts.
Import G4AnalysisManager.

Lemma count_app (p : call -> bool) (l1 l2 : list call) :
  count p (l1 ++ l2) = (count p l1 + count p l2)%nat.
Proof. unfold count. now rewrite List.filter_app, length_app. Qed.

Lemma open_files_app (l1 l2 : list call) :
  forall n, open_files (l1 ++ l2) n = open_files l2 (open_files l1 n).
Proof.
  induction l1 as [|c l1 IH]; intros n; simpl; [reflexivity|].
  destruct c; apply IH.
Qed.

Lemma count_event_calls (p : call -> bool) (deposits : list float) :
  (forall id v, p (FillH1 id v) = false) ->
  (forall id v, p (FillNtupleIColumn id v) = false) ->
  (forall id v, p (FillNtupleDColumn id v) = false) ->
  p AddNtupleRow = false ->
  forall eventID, count p (Run.event_calls deposits eventID) = 0%nat.
Proof.
  intros H1 H2 H3 H4.
  induction deposits as [|e l IH]; intros eventID; [reflexivity|].
  cbn [Run.event_calls]. rewrite count_app, IH.
  unfold count. cbn [List.filter app]. now rewrite H1, H2, H3, H4.
Qed.

Lemma open_files_event_calls (deposits : list float) :
  forall eventID n, open_files (Run.event_calls deposits eventID) n = n.
Proof.
  induction deposits as [|e l IH]; intros eventID n; [reflexivity|].
  cbn [Run.event_calls]. rewrite open_files_app. apply IH.
Qed.

End ManagerFacts.

(** C4, as claimed, fails: a run without events ends with no report at
    all, so with none whose mean and rms are the sentinel 0. *)
Lemma empty_run_reports_nothing :
  let p := Run.sequential [] (RunAction.start ".") in
  ~ exists r : RunAction.report,
      In r (RunAction.printed p)
      /\ RunAction.meanEdep r = 0%float /\ RunAction.rmsEdep r = 0%float.
Proof. intros p [r [Hin _]]. exact Hin. Qed.

(** C4, amended.  When the run has no event, [EndOfRunAction] returns
    on its first test, on whichever thread: nothing is divided, the sums
    are left as they are, and no statistics are reported (no mean, no
    rms, no sentinel). *)
Theorem EndOfRunAction_without_events :
  forall (th : RunAction.thread) (p : RunAction.process),
    RunAction.master (RunAction.EndOfRunAction th 0 p) = RunAction.master p
    /\ RunAction.printed (RunAction.EndOfRunAction th 0 p) = RunAction.printed p.
Proof. intros th p. split; reflexivity. Qed.

(** C6, as claimed, fails: after a complete run (reset, one event,
    merge and statistics) the accumulator of the specification rejects a
    further update, and the code accepts it and changes both sums. *)
Lemma AddEdep_after_EndOfRunAction_accepted :
  let history :=
    [Run.OnBeginOfRunAction; Run.OnAddEdep 1%float; Run.OnEndOfRunAction 1] in
  let late := Run.OnAddEdep 2%float in
  let p := Run.exec_all history (RunAction.start ".") in
  RunAccumulatorSpec.steps RunAccumulatorSpec.Idle
    (flat_map RunAccumulatorSpec.operations_of (history ++ [late])) = None
  /\ RunAccumulatorSpec.steps RunAccumulatorSpec.Idle
       (flat_map RunAccumulatorSpec.operations_of history)
     = Some RunAccumulatorSpec.Merged
  /\ RunAction.fEdep (RunAction.master p) = 1%float
  /\ RunAction.fEdep2 (RunAction.master p) = 1%float
  /\ RunAction.fEdep (RunAction.master (Run.exec late p)) = 3%float
  /\ RunAction.fEdep2 (RunAction.master (Run.exec late p)) = 5%float.
Proof. vm_compute. repeat split; reflexivity. Qed.

(** C6, amended.  [RunAction] keeps no record of the phase of the run
    and has no [InvalidStateError]: after any history of callbacks
    [AddEdep] is accepted and adds the deposit and its square to the
    sums, and [EndOfRunAction] reports the statistics of the sums as
    they are whenever the run has events. *)
Theorem RunAction_accepts_every_call :
  forall (history : list Run.callback) (p : RunAction.process)
         (edep : float) (nofEvents : Z),
    let q := Run.exec_all history p in
    RunAction.fEdep (RunAction.master (Run.exec (Run.OnAddEdep edep) q))
    = (RunAction.fEdep (RunAction.master q) + edep)%float
    /\ RunAction.fEdep2 (RunAction.master (Run.exec (Run.OnAddEdep edep) q))
       = (RunAction.fEdep2 (RunAction.master q) + edep * edep)%float
    /\ RunAction.printed (Run.exec (Run.OnEndOfRunAction nofEvents) q)
       = if (nofEvents =? 0)%Z then RunAction.printed q
         else RunAction.printed q
              ++ [RunAction.statistics (RunAction.fEdep (RunAction.master q))
                    (RunAction.fEdep2 (RunAction.master q)) nofEvents].
Proof.
  intros history p edep nofEvents q. repeat split.
  cbn [Run.exec]. unfold RunAction.EndOfRunAction.
  destruct (nofEvents =? 0)%Z; reflexivity.
Qed.

Lemma statistics_RunStatistics (edep edep2 : float) (nofEvents : Z) :
  RunAction.statistics edep edep2 nofEvents
  = RunAccumulatorSpec.RunStatistics edep edep2 nofEvents.
Proof.
  unfold RunAction.statistics, RunAccumulatorSpec.RunStatistics,
    RunAccumulatorSpec.fmax.
  f_equal. f_equal.
  destruct (0 <? _)%float; reflexivity.
Qed.

(** C2.  At the end of a run of [N > 0] events the master reports,
    once, the total [sumEdep], the mean [sumEdep / N] and the rms
    [sqrt (max (0, sumEdepSquared - sumEdep^2 / N)) / N], computed in
    double precision from the sums as they are after the merge. *)
Theorem EndOfRunAction_statistics :
  forall (p : RunAction.process) (N : Z),
    0 < N ->
    let sumEdep := RunAction.fEdep (RunAction.master p) in
    let sumEdepSquared := RunAction.fEdep2 (RunAction.master p) in
    let n := G4double_of_G4int N in
    exists r : RunAction.report,
      RunAction.printed (RunAction.EndOfRunAction RunAction.MasterThread N p)
      = RunAction.printed p ++ [r]
      /\ r = RunAccumulatorSpec.RunStatistics sumEdep sumEdepSquared N
      /\ RunAction.totalEdep r = sumEdep
      /\ RunAction.meanEdep r = (sumEdep / n)%float
      /\ RunAction.rmsEdep r
         = (sqrt (RunAccumulatorSpec.fmax 0
                    (sumEdepSquared - sumEdep * sumEdep / n)) / n)%float.
Proof.
  intros p N HN sumEdep sumEdepSquared n.
  exists (RunAccumulatorSpec.RunStatistics sumEdep sumEdepSquared N).
  split; [|repeat split].
  unfold RunAction.EndOfRunAction.
  destruct (Z.eqb_spec N 0) as [->|_]; [lia|].
  cbn [RunAction.Merge RunAction.this RunAction.IsMaster RunAction.printed].
  now rewrite statistics_RunStatistics.
Qed.

Lemma EndOfRunAction_statistics_witness :
  let p :=
    {| RunAction.master :=
         Run.accumulate [1; 0; 2]%float (RunAction.new ".");
       RunAction.analysis := Analysis.new;
       RunAction.printed := [] |} in
  0 < 3
  /\ exists r : RunAction.report,
       RunAction.printed (RunAction.EndOfRunAction RunAction.MasterThread 3 p) = [r]
       /\ RunAction.totalEdep r = 3%float
       /\ RunAction.meanEdep r = 1%float
       /\ RunAction.rmsEdep r = (sqrt 2 / 3)%float.
Proof.
  intros p. split; [lia|].
  destruct (EndOfRunAction_statistics p 3 ltac:(lia)) as (r & H1 & _ & H3 & H4 & H5).
  exists r. repeat split; assumption.
Defined.

(** ** Hit capture *)
Section FloatOrder.
Local Open Scope float_scope.

Lemma Prim2SF_zero : Prim2SF 0 = S754_zero false.
Proof. reflexivity. Qed.

Lemma ltb_zero_not_leb (x : float) : (0 <? x) = true -> (x <=? 0) = false.
Proof.
  rewrite ltb_spec, leb_spec, Prim2SF_zero. unfold SFltb, SFleb.
  destruct (Prim2SF x) as [s|s| |s m e]; simpl; try discriminate;
    destruct s; simpl; try discriminate; reflexivity.
Qed.

End FloatOrder.

(** C3, as claimed, fails for the tracker of the B2a example: a step
    whose deposit is negative, so not above 0, adds a hit. *)
Lemma TrackerSD_records_negative_deposit :
  let step := electron_step (-1)%float in
  let sd := TrackerSD.Initialize (TrackerSD.new "/TrackerChamberSD" "TrackerHitsCollection") in
  (TotalEnergyDeposit step <=? 0)%float = true
  /\ TrackerSD.entries sd = 0%nat
  /\ exists sd', TrackerSD.ProcessHits step sd = Some (true, sd')
                 /\ TrackerSD.entries sd' = 1%nat.
Proof.
  split; [reflexivity|]. split; [reflexivity|].
  eexists. split; reflexivity.
Qed.

(** C3, amended.  With the hits collection of the event in place:
    [SensitiveDetector::ProcessHits] adds no hit for a step whose deposit
    is not above 0 ([edep <= 0]) and exactly one, at the end of the
    collection, for a step whose deposit is above 0;
    [TrackerSD::ProcessHits] adds no hit for a step whose deposit equals
    0 and exactly one for every other step, a negative deposit
    included. *)
Theorem ProcessHits_appends :
  forall (eventID : Z) (step : G4Step)
         (sd : SensitiveDetector.t) (hc : SensitiveDetector.DetectorHitsCollection)
         (tsd : TrackerSD.t) (thc : TrackerSD.TrackerHitsCollection),
    SensitiveDetector.fHitsCollection sd = Some hc ->
    TrackerSD.fHitsCollection tsd = Some thc ->
    let edep := TotalEnergyDeposit step in
    ((edep <=? 0)%float = true ->
       SensitiveDetector.ProcessHits eventID step sd = Some (false, sd))
    /\ ((0 <? edep)%float = true ->
        exists sd',
          SensitiveDetector.ProcessHits eventID step sd = Some (true, sd')
          /\ SensitiveDetector.fHitsCollection sd'
             = Some (hc ++ [SensitiveDetector.make_hit eventID step])
          /\ SensitiveDetector.entries sd' = S (SensitiveDetector.entries sd))
    /\ ((edep =? 0)%float = true ->
        TrackerSD.ProcessHits step tsd = Some (false, tsd))
    /\ ((edep =? 0)%float = false ->
        exists tsd',
          TrackerSD.ProcessHits step tsd = Some (true, tsd')
          /\ TrackerSD.fHitsCollection tsd' = Some (thc ++ [TrackerSD.make_hit step])
          /\ TrackerSD.entries tsd' = S (TrackerSD.entries tsd)).
Proof.
  intros eventID step sd hc tsd thc Hhc Hthc edep. subst edep.
  repeat split.
  - intros H. unfold SensitiveDetector.ProcessHits. now rewrite H.
  - intros H. apply ltb_zero_not_leb in H.
    unfold SensitiveDetector.ProcessHits. rewrite H, Hhc.
    eexists. split; [reflexivity|].
    unfold SensitiveDetector.entries. cbn. rewrite Hhc. split; [reflexivity|].
    rewrite length_app. cbn. lia.
  - intros H. unfold TrackerSD.ProcessHits. now rewrite H.
  - intros H. unfold TrackerSD.ProcessHits. rewrite H, Hthc.
    eexists. split; [reflexivity|].
    unfold TrackerSD.entries. cbn. rewrite Hthc. split; [reflexivity|].
    rewrite length_app. cbn. lia.
Qed.

Lemma ProcessHits_appends_witness :
  let sd := SensitiveDetector.Initialize 0 (SensitiveDetector.new "Phantom_SD" "Phantom_HC") in
  let tsd := TrackerSD.Initialize (TrackerSD.new "/TrackerChamberSD" "TrackerHitsCollection") in
  SensitiveDetector.ProcessHits 7 (electron_step 0) sd = Some (false, sd)
  /\ (exists sd',
        SensitiveDetector.ProcessHits 7 (electron_step 1) sd = Some (true, sd')
        /\ SensitiveDetector.entries sd' = 1%nat)
  /\ TrackerSD.ProcessHits (electron_step 0) tsd = Some (false, tsd)
  /\ (exists tsd',
        TrackerSD.ProcessHits (electron_step 1) tsd = Some (true, tsd')
        /\ TrackerSD.entries tsd' = 1%nat).
Proof.
  intros sd tsd.
  pose proof (ProcessHits_appends 7 (electron_step 0) sd [] tsd []
                eq_refl eq_refl) as (Hle & _ & Heq & _).
  pose proof (ProcessHits_appends 7 (electron_step 1) sd [] tsd []
                eq_refl eq_refl) as (_ & Hlt & _ & Hne).
  split; [exact (Hle eq_refl)|].
  split.
  { destruct (Hlt eq_refl) as (sd' & H1 & _ & H3). exists sd'. split; assumption. }
  split; [exact (Heq eq_refl)|].
  destruct (Hne eq_refl) as (tsd' & H1 & _ & H3). exists tsd'. split; assumption.
Defined.

(** ** Geometry of the B2a example *)
Section B2aFacts.
Import B2a.
Local Open Scope float_scope.

Lemma place_chamber_returns
  (trackerLV : nat) (firstPosition chamberSpacing rmaxFirst rmaxIncr halfWidth : float)
  (copyNo : Z) (s : state) :
  exists s',
    place_chamber trackerLV firstPosition chamberSpacing rmaxFirst rmaxIncr halfWidth
      copyNo s = (Returned tt, s').
Proof.
  cbv [place_chamber bind get_self new_solid new_G4LogicalVolume
       new_G4PVPlacement modify_self].
  eexists. reflexivity.
Qed.

Lemma chamber_loop_returns (body : Z -> M unit) :
  (forall copyNo s, exists s', body copyNo s = (Returned tt, s')) ->
  forall count copyNo s, exists s', chamber_loop body count copyNo s = (Returned tt, s').
Proof.
  intros Hbody. induction count as [|count IH]; intros copyNo s; simpl.
  - eexists. reflexivity.
  - unfold bind. destruct (Hbody copyNo s) as [s1 ->]. apply IH.
Qed.

Lemma bind_Returned {A B} (c : M A) (k : A -> M B) (s s' : state) (a : A) :
  c s = (Returned a, s') -> bind c k s = k a s'.
Proof. intros H. unfold bind. now rewrite H. Qed.

Lemma DefineVolumes_sized_fatal (chamberSpacing chamberWidth : float) (s : state) :
  forall o c d,
    fst (DefineVolumes_sized chamberSpacing chamberWidth s) = FatalException o c d ->
    (chamberSpacing <? chamberWidth) = true /\ (0 < fNbOfChambers (self s))%Z.
Proof.
  intros o c d. unfold DefineVolumes_sized.
  unfold bind at 1. cbn [get_self self].
  destruct (Z.ltb_spec 0 (fNbOfChambers (self s))) as [Hnb|Hnb];
    destruct (chamberSpacing <? chamberWidth) eqn:Hcmp;
    try (intros _; split; [reflexivity | exact Hnb]).
  all: cbn -[chamber_loop place_chamber PrimFloat.add PrimFloat.mul PrimFloat.div
             PrimFloat.sub PrimFloat.opp G4double_of_G4int Z.to_nat].
  all: match goal with
       | |- context [bind (chamber_loop ?body ?n ?k) ?rest ?st] =>
           destruct (chamber_loop_returns body
                       ltac:(intros; apply place_chamber_returns) n k st) as [s1 Hs1];
           rewrite (bind_Returned _ rest _ _ _ Hs1)
       end.
  all: cbn -[PrimFloat.add PrimFloat.mul PrimFloat.div PrimFloat.sub PrimFloat.opp
             G4double_of_G4int].
  all: destruct (fLogicTarget (self s1)); cbn; try discriminate.
  all: destruct (fLogicChamber (self s1)); cbn; discriminate.
Qed.

Lemma DefineVolumes_unfold :
  DefineVolumes = DefineVolumes_sized (80 * Units.cm) (20 * Units.cm).
Proof. unfold DefineVolumes. exact eq_refl. Qed.

Lemma source_sizes_valid : (80 * Units.cm <? 20 * Units.cm) = false.
Proof. vm_compute. reflexivity. Qed.

End B2aFacts.

(** The setup check of lines 174 to 181 compares two local constants
    of [DefineVolumes], the spacing of 80 cm and the width of 20 cm: it
    never fires, and [DefineVolumes] raises no fatal exception in any
    state. *)
Lemma DefineVolumes_never_raises :
  forall (s : B2a.state) (o c d : string),
    fst (B2a.DefineVolumes s) <> FatalException o c d.
Proof.
  intros s o c descr H. rewrite DefineVolumes_unfold in H.
  apply DefineVolumes_sized_fatal in H as [H _].
  rewrite source_sizes_valid in H. discriminate.
Qed.

(** ** Discovery of the sensitive volumes *)
Section DiscoveryFacts.
Import DetectorConstruction.

(** Induction on a volume, with the daughters as hypotheses. *)
Lemma G4LogicalVolume_daughters_ind (P : G4LogicalVolume -> Prop) :
  (forall a n ds, Forall P ds -> P (LV a n ds)) -> forall lv, P lv.
Proof.
  intros step. fix IH 1. intros [a n ds]. apply step.
  induction ds as [|d ds IHds]; constructor; [apply IH | exact IHds].
Qed.

Lemma mark_all_nil (d : t) : mark_all [] d = d.
Proof. destruct d. unfold mark_all. cbn. now rewrite app_nil_r. Qed.

Lemma mark_all_app (ms1 ms2 : list (string * positive)) (d : t) :
  mark_all (ms1 ++ ms2) d = mark_all ms2 (mark_all ms1 d).
Proof.
  unfold mark_all. cbn. now rewrite map_app, fold_left_app, app_assoc.
Qed.

Lemma fParser_mark_all (ms : list (string * positive)) (d : t) :
  fParser (mark_all ms d) = fParser d.
Proof. reflexivity. Qed.

Lemma mark_sensitive_mark_all (lv : G4LogicalVolume) (d : t) :
  mark_sensitive lv d = mark_all [(GetName lv, GetAddress lv)] d.
Proof. reflexivity. Qed.

Lemma aux_loop_mark_all (lv : G4LogicalVolume) (auxList : list G4GDMLAuxStructType) :
  forall d,
    fold_left
      (fun acc aux =>
         if String.eqb (aux_type aux) "SensDet" then mark_sensitive lv acc else acc)
      auxList d
    = mark_all
        (flat_map
           (fun aux =>
              if String.eqb (aux_type aux) "SensDet"
              then [(GetName lv, GetAddress lv)] else [])
           auxList) d.
Proof.
  induction auxList as [|aux rest IH]; intros d; cbn [fold_left flat_map].
  - now rewrite mark_all_nil.
  - rewrite IH, mark_all_app. destruct (String.eqb (aux_type aux) "SensDet").
    + now rewrite mark_sensitive_mark_all.
    + now rewrite mark_all_nil.
Qed.

Lemma check_aux_mark_all (lv : G4LogicalVolume) (d : t) :
  check_aux lv d = mark_all (marks_at (fParser d) lv) d.
Proof.
  unfold check_aux, marks_at. destruct (fParser d) as [parser|].
  - destruct (GetVolumeAuxiliaryInformation parser lv) as [auxList|].
    + apply aux_loop_mark_all.
    + now rewrite mark_all_nil.
  - now rewrite mark_all_nil.
Qed.

(** One traversal marks the volumes of [marks], in that order. *)
Lemma FindSensitiveVolumes_mark_all (lv : G4LogicalVolume) :
  forall d, FindSensitiveVolumes lv d = mark_all (marks (fParser d) lv) d.
Proof.
  induction lv as [a n ds IH] using G4LogicalVolume_daughters_ind.
  intros d. cbn [FindSensitiveVolumes marks].
  rewrite mark_all_app, <- check_aux_mark_all.
  assert (Hp : fParser (check_aux (LV a n ds) d) = fParser d).
  { now rewrite check_aux_mark_all. }
  revert Hp. generalize (check_aux (LV a n ds) d) as d'.
  induction IH as [|pv rest Hpv _ IHrest]; intros d' Hp; cbn [fold_left flat_map].
  - now rewrite mark_all_nil.
  - rewrite mark_all_app.
    replace (mark_all (marks (fParser d) pv) d') with (FindSensitiveVolumes pv d')
      by now rewrite Hpv, Hp.
    apply IHrest. now rewrite Hpv, fParser_mark_all.
Qed.

Lemma fold_insert_union (ms : list (string * positive)) :
  forall m : gmap string positive,
    fold_left (fun m kv => <[fst kv := snd kv]> m) ms m
    = fold_left (fun m kv => <[fst kv := snd kv]> m) ms ∅ ∪ m.
Proof.
  induction ms as [|[k v] ms IH]; intros m; cbn [fold_left fst snd].
  - now rewrite (left_id_L ∅ (∪)).
  - rewrite IH, (IH (<[k:=v]> ∅)), <- (assoc_L (∪)).
    f_equal. now rewrite insert_empty, <- insert_union_singleton_l.
Qed.

(** Inserting the same bindings a second time changes nothing. *)
Lemma fold_insert_twice (ms : list (string * positive)) (m : gmap string positive) :
  let ins := fold_left (fun m kv => <[fst kv := snd kv]> m) ms in
  ins (ins m) = ins m.
Proof.
  cbn. rewrite (fold_insert_union ms (fold_left _ ms m)), (fold_insert_union ms m).
  now rewrite (assoc_L (∪)), (idemp_L (∪)).
Qed.

End DiscoveryFacts.

(** C8, as claimed, fails: a world with one volume tagged [SensDet],
    traversed a second time, has that volume twice in the list of
    sensitive volumes, and [ConstructSDandField] then registers two
    detectors of the same name. *)
Lemma second_traversal_repeats_names :
  let detector := DetectorConstruction.LV 2 "Detector" [] in
  let world := DetectorConstruction.LV 1 "World" [detector] in
  let parsed :=
    {| DetectorConstruction.WorldVolume := world;
       DetectorConstruction.auxMap :=
         {[ 2%positive :=
              [ {| DetectorConstruction.aux_type := "SensDet";
                   DetectorConstruction.aux_value := "Tracker" |} ] ]} |} in
  let first :=
    DetectorConstruction.LoadGDML parsed (DetectorConstruction.new "detector.gdml") in
  let second := DetectorConstruction.FindSensitiveVolumes world first in
  DetectorConstruction.fSensitiveVolumes first = ["Detector"]
  /\ DetectorConstruction.fSensitiveVolumes second = ["Detector"; "Detector"]
  /\ DetectorConstruction.fSensitiveVolumes second
     <> DetectorConstruction.fSensitiveVolumes first
  /\ map fst (DetectorConstruction.ConstructSDandField second)
     = ["Detector_SD"; "Detector_SD"].
Proof.
  cbv zeta.
  unfold DetectorConstruction.LoadGDML, DetectorConstruction.ConstructSDandField.
  rewrite !FindSensitiveVolumes_mark_all.
  cbn. repeat split; try reflexivity. discriminate.
Qed.

(** C8, amended.  A traversal appends to the list of sensitive volumes
    the name of every volume it finds tagged, and binds each name to its
    volume in the map.  Run a second time on the same tree it leaves the
    map as the first left it, and appends the same names to the list
    once more: the list after the second traversal equals the list after
    the first only when no volume is tagged. *)
Theorem FindSensitiveVolumes_twice :
  forall (lv : DetectorConstruction.G4LogicalVolume) (d : DetectorConstruction.t),
    let found := DetectorConstruction.marks (DetectorConstruction.fParser d) lv in
    let first := DetectorConstruction.FindSensitiveVolumes lv d in
    let second := DetectorConstruction.FindSensitiveVolumes lv first in
    DetectorConstruction.fSensitiveVolumes first
    = DetectorConstruction.fSensitiveVolumes d ++ map fst found
    /\ DetectorConstruction.fSensitiveVolumes second
       = DetectorConstruction.fSensitiveVolumes first ++ map fst found
    /\ DetectorConstruction.fLogicalVolumes second
       = DetectorConstruction.fLogicalVolumes first
    /\ (DetectorConstruction.fSensitiveVolumes second
        = DetectorConstruction.fSensitiveVolumes first <-> found = []).
Proof.
  intros lv d found first second. subst second first.
  rewrite !FindSensitiveVolumes_mark_all, fParser_mark_all. fold found.
  cbn [DetectorConstruction.mark_all DetectorConstruction.fSensitiveVolumes
       DetectorConstruction.fLogicalVolumes].
  split; [reflexivity|]. split; [reflexivity|]. split.
  - apply fold_insert_twice.
  - split.
    + intros H.
      assert (Hl : length (map fst found) = 0%nat).
      { apply (f_equal (@length string)) in H. rewrite !length_app in H. lia. }
      rewrite length_map in Hl. now destruct found.
    + intros ->. cbn. now rewrite app_nil_r.
Qed.

(** ** Doubles that add without rounding *)
Section ExactFacts.
Import Exact.

Lemma digits2_pos_log2 (m : positive) :
  Zpos (digits2_pos m) = Z.log2 (Zpos m) + 1.
Proof.
  assert (Hsize : forall p, digits2_pos p = Pos.size p).
  { induction p as [p IH|p IH|]; cbn; now rewrite ?IH. }
  destruct m as [p|p|]; cbn [digits2_pos Z.log2]; rewrite ?Hsize; lia.
Qed.

Lemma emin_value : emin = -1074.
Proof. reflexivity. Qed.

Lemma valid_binary_exponent (s : bool) (m : positive) (e : Z) :
  valid_binary (S754_finite s m e) = true ->
  e = Z.max (Z.log2 (Zpos m) + 1 + e - 53) (-1074).
Proof.
  cbn [SpecFloat.valid_binary]. unfold bounded, canonical_mantissa, fexp.
  intros H. apply andb_prop in H as [H _]. apply Z.eqb_eq in H.
  rewrite digits2_pos_log2 in H. rewrite <- H at 1. reflexivity.
Qed.

Lemma valid_binary_emin (s : bool) (m : positive) (e : Z) :
  valid_binary (S754_finite s m e) = true -> -1074 <= e.
Proof. intros H. apply valid_binary_exponent in H. lia. Qed.

Lemma scaled_finite (s : bool) (m : positive) (e : Z) :
  scaled (S754_finite s m e) = Some (cond_Zopp s (Zpos m) * 2 ^ (e + 1074)).
Proof.
  cbn [scaled]. rewrite emin_value.
  now replace (e - -1074) with (e + 1074) by lia.
Qed.

Lemma scaled_finite_nonzero (s : bool) (m : positive) (e : Z) :
  -1074 <= e -> cond_Zopp s (Zpos m) * 2 ^ (e + 1074) <> 0.
Proof.
  intros He. assert (0 < 2 ^ (e + 1074)) by (apply Z.pow_pos_nonneg; lia).
  destruct s; cbn [cond_Zopp]; nia.
Qed.

(** Two valid doubles of the same value are the same double, the two
    zeros apart. *)
Lemma scaled_inj (X Y : spec_float) (v : Z) :
  valid_binary X = true -> valid_binary Y = true ->
  scaled X = Some v -> scaled Y = Some v ->
  X <> S754_zero true -> Y <> S754_zero true ->
  X = Y.
Proof.
  intros VX VY HX HY NX NY.
  destruct X as [sx|sx| |sx mx ex], Y as [sy|sy| |sy my ey]; try discriminate.
  - destruct sx, sy; congruence.
  - rewrite scaled_finite in HY. cbn in HX.
    apply valid_binary_emin in VY.
    pose proof (scaled_finite_nonzero sy my ey VY). congruence.
  - rewrite scaled_finite in HX. cbn in HY.
    apply valid_binary_emin in VX.
    pose proof (scaled_finite_nonzero sx mx ex VX). congruence.
  - rewrite scaled_finite in HX, HY.
    pose proof (valid_binary_exponent _ _ _ VX) as EX.
    pose proof (valid_binary_exponent _ _ _ VY) as EY.
    assert (Hx : 0 <= ex + 1074) by lia. assert (Hy : 0 <= ey + 1074) by lia.
    assert (Px : 0 < 2 ^ (ex + 1074)) by (apply Z.pow_pos_nonneg; lia).
    assert (Py : 0 < 2 ^ (ey + 1074)) by (apply Z.pow_pos_nonneg; lia).
    assert (Hs : sx = sy).
    { injection HX as HX. injection HY as HY.
      destruct sx, sy; cbn [cond_Zopp] in HX, HY; try reflexivity; exfalso; nia. }
    subst sy.
    assert (Hm : Zpos mx * 2 ^ (ex + 1074) = Zpos my * 2 ^ (ey + 1074)).
    { injection HX as HX. injection HY as HY.
      destruct sx; cbn [cond_Zopp] in HX, HY; lia. }
    assert (Hl : Z.log2 (Zpos mx) + ex = Z.log2 (Zpos my) + ey).
    { apply (f_equal Z.log2) in Hm.
      rewrite !Z.log2_mul_pow2 in Hm by lia. lia. }
    assert (He : ex = ey) by lia. subst ey.
    assert (mx = my) by nia. now subst my.
Qed.

Lemma Pos_iter_xO (m d : positive) :
  Zpos (Pos.iter xO m d) = Zpos m * 2 ^ Zpos d.
Proof.
  induction d as [|d IH] using Pos.peano_ind.
  - cbn [Pos.iter]. lia.
  - rewrite Pos.iter_succ, Pos2Z.inj_xO, IH, Pos2Z.inj_succ, Z.pow_succ_r; lia.
Qed.

(** Aligning a mantissa on a smaller exponent keeps the value. *)
Lemma shl_align_scaled (m : positive) (e e' : Z) :
  -1074 <= e' -> e' <= e ->
  Zpos (fst (shl_align m e e')) * 2 ^ (e' + 1074) = Zpos m * 2 ^ (e + 1074).
Proof.
  intros Hmin Hle. unfold shl_align.
  destruct (e' - e) as [|d|d] eqn:Hd.
  - cbn [fst]. replace e' with e by lia. reflexivity.
  - lia.
  - cbn [fst]. rewrite Pos_iter_xO.
    replace (e + 1074) with (Zpos d + (e' + 1074)) by lia.
    rewrite (Z.pow_add_r 2 (Zpos d) (e' + 1074)) by lia. ring.
Qed.

(** The sum of two doubles is the negative zero only when both are,
    unless the addition rounded. *)
Lemma SFadd_negzero (X Y : spec_float) (a b : Z) :
  valid_binary X = true -> valid_binary Y = true ->
  scaled X = Some a -> scaled Y = Some b ->
  SF64add X Y = S754_zero true ->
  a + b = 0 ->
  X = S754_zero true.
Proof.
  intros VX VY HX HY Hadd Hsum. unfold SF64add, SFadd in Hadd.
  destruct X as [sx|sx| |sx mx ex], Y as [sy|sy| |sy my ey];
    try discriminate; cbv beta iota in Hadd.
  - destruct sx, sy; try discriminate; reflexivity.
  - exfalso.
    rewrite scaled_finite in HX, HY.
    injection HX as <-. injection HY as <-.
    pose proof (valid_binary_emin _ _ _ VX). pose proof (valid_binary_emin _ _ _ VY).
    set (ez := Z.min ex ey) in *.
    assert (Hex : -1074 <= ez <= ex) by (subst ez; lia).
    assert (Hey : -1074 <= ez <= ey) by (subst ez; lia).
    pose proof (shl_align_scaled mx ex ez (proj1 Hex) (proj2 Hex)) as Ax.
    pose proof (shl_align_scaled my ey ez (proj1 Hey) (proj2 Hey)) as Ay.
    assert (Pz : 0 < 2 ^ (ez + 1074)) by (apply Z.pow_pos_nonneg; lia).
    set (M := cond_Zopp sx (Zpos (fst (shl_align mx ex ez)))
              + cond_Zopp sy (Zpos (fst (shl_align my ey ez)))) in *.
    assert (HM : M = 0).
    { subst M. destruct sx, sy; cbn [cond_Zopp] in *; nia. }
    rewrite HM in Hadd. cbn [binary_normalize] in Hadd. discriminate.
Qed.

End ExactFacts.

Section ExactSums.
Import Exact.
Local Open Scope float_scope.

Lemma value_zero : value 0 = Some 0%Z.
Proof. reflexivity. Qed.

Lemma not_negzero_zero : not_negzero 0.
Proof. unfold not_negzero. rewrite Prim2SF_zero. discriminate. Qed.

Lemma exact_add_spec (x y : float) :
  exact_add x y = true ->
  exists a b : Z,
    value x = Some a /\ value y = Some b /\ value (x + y) = Some (a + b)%Z.
Proof.
  unfold exact_add.
  destruct (value x) as [a|], (value y) as [b|], (value (x + y)) as [c|];
    try discriminate.
  intros H. apply Z.eqb_eq in H. subst c. now exists a, b.
Qed.

Lemma exact_add_not_negzero (x y : float) :
  exact_add x y = true -> not_negzero x -> not_negzero (x + y).
Proof.
  intros H Nx Hz. apply Nx.
  destruct (exact_add_spec x y H) as (a & b & Ha & Hb & Hab).
  unfold value in Hab. rewrite Hz in Hab. cbn [scaled] in Hab.
  rewrite add_spec in Hz.
  apply (SFadd_negzero (Prim2SF x) (Prim2SF y) a b);
    auto using Prim2SF_valid.
  now injection Hab.
Qed.

(** Two doubles of the same value are equal, the negative zero apart. *)
Lemma value_inj (x y : float) (v : Z) :
  value x = Some v -> value y = Some v ->
  not_negzero x -> not_negzero y -> x = y.
Proof.
  intros Hx Hy Nx Ny. apply Prim2SF_inj.
  apply (scaled_inj _ _ v); auto using Prim2SF_valid.
Qed.

Lemma exact_sum_value (l : list float) :
  forall (s : float) (a : Z),
    exact_sum s l = true -> value s = Some a ->
    value (fold_left PrimFloat.add l s) = Some (a + sum_values l)%Z.
Proof.
  induction l as [|x l IH]; intros s a H Hs; cbn [fold_left].
  - unfold sum_values. cbn. now rewrite Z.add_0_r.
  - cbn [exact_sum] in H. apply andb_prop in H as [Hadd Hrest].
    destruct (exact_add_spec s x Hadd) as (a' & b & Ha & Hb & Hab).
    rewrite Hs in Ha. injection Ha as <-.
    rewrite (IH (s + x) (a + b)%Z Hrest Hab).
    assert (Hx : val x = b) by (unfold val; now rewrite Hb).
    unfold sum_values. cbn [map fold_right]. rewrite Hx.
    f_equal. lia.
Qed.

Lemma exact_sum_not_negzero (l : list float) :
  forall s : float,
    exact_sum s l = true -> not_negzero s ->
    not_negzero (fold_left PrimFloat.add l s).
Proof.
  induction l as [|x l IH]; intros s H Ns; cbn [fold_left]; [exact Ns|].
  cbn [exact_sum] in H. apply andb_prop in H as [Hadd Hrest].
  apply IH; [exact Hrest|]. now apply exact_add_not_negzero.
Qed.

Lemma fsum_value (l : list float) :
  exact_sum 0 l = true -> value (fsum l) = Some (sum_values l).
Proof. intros H. exact (exact_sum_value l 0 0%Z H value_zero). Qed.

Lemma sum_values_app (l1 l2 : list float) :
  sum_values (l1 ++ l2) = (sum_values l1 + sum_values l2)%Z.
Proof.
  unfold sum_values. induction l1 as [|x l1 IH]; cbn [app map fold_right].
  - reflexivity.
  - rewrite IH. lia.
Qed.

Lemma sum_values_Permutation (l1 l2 : list float) :
  Permutation l1 l2 -> sum_values l1 = sum_values l2.
Proof.
  unfold sum_values.
  induction 1 as [|x l l' _ IH|x y l|l l' l'' _ IH1 _ IH2]; cbn [map fold_right].
  - reflexivity.
  - now rewrite IH.
  - lia.
  - now rewrite IH1.
Qed.

(** Sums that did not round and have the same exact value are the same
    double. *)
Lemma exact_sums_agree (l1 l2 : list float) :
  exact_sum 0 l1 = true -> exact_sum 0 l2 = true ->
  sum_values l1 = sum_values l2 ->
  fsum l1 = fsum l2.
Proof.
  intros H1 H2 Hv. apply (value_inj _ _ (sum_values l1)).
  - now apply fsum_value.
  - rewrite Hv. now apply fsum_value.
  - apply exact_sum_not_negzero; [exact H1 | exact not_negzero_zero].
  - apply exact_sum_not_negzero; [exact H2 | exact not_negzero_zero].
Qed.

End ExactSums.


Section Rounding.
Import Exact.

Lemma fexp_eq (x : Z) : fexp prec emax x = Z.max (x - 53) (-1074).
Proof. reflexivity. Qed.

Lemma Zpos_double_inv (p q : positive) : Zpos p = Zpos q * 2 -> p = (q~0)%positive.
Proof. lia. Qed.

Lemma pow2_xO (n : positive) : 2 ^ Zpos n~0 = 2 ^ Zpos n * 2 ^ Zpos n.
Proof.
  replace (Zpos n~0) with (Zpos n + Zpos n) by lia.
  apply Z.pow_add_r; lia.
Qed.

Lemma pow2_xI (n : positive) : 2 ^ Zpos n~1 = 2 * (2 ^ Zpos n * 2 ^ Zpos n).
Proof.
  replace (Zpos n~1) with (1 + (Zpos n + Zpos n)) by lia.
  rewrite (Z.pow_add_r 2 1), (Z.pow_add_r 2 (Zpos n)), Z.pow_1_r by lia.
  reflexivity.
Qed.

(** Shifting out zeros loses nothing. *)
Lemma iter_shr_exact (n : positive) :
  forall p q : positive,
    Zpos p = Zpos q * 2 ^ Zpos n ->
    SpecFloat.iter_pos shr_1 n {| shr_m := Zpos p; shr_r := false; shr_s := false |}
    = {| shr_m := Zpos q; shr_r := false; shr_s := false |}.
Proof.
  induction n as [n IH|n IH|]; intros p q H; cbn [SpecFloat.iter_pos].
  - rewrite pow2_xI in H.
    assert (Hp : Zpos p = Zpos (Pos.iter xO (Pos.iter xO q n) n) * 2).
    { rewrite !Pos_iter_xO, H. ring. }
    apply Zpos_double_inv in Hp. subst p. cbn [shr_1 orb].
    rewrite (IH _ (Pos.iter xO q n)) by (rewrite Pos_iter_xO; reflexivity).
    apply IH. now rewrite Pos_iter_xO.
  - rewrite pow2_xO in H. rewrite (IH p (Pos.iter xO q n)).
    + apply IH. now rewrite Pos_iter_xO.
    + rewrite Pos_iter_xO, H. ring.
  - rewrite Z.pow_1_r in H. apply Zpos_double_inv in H. now subst p.
Qed.

(** No shift when the exponent is already the canonical one. *)
Lemma shr_fexp_canonical (m : positive) (e : Z) :
  Z.max (Z.log2 (Zpos m) + 1 + e - 53) (-1074) = e ->
  shr_fexp prec emax (Zpos m) e loc_Exact
  = ({| shr_m := Zpos m; shr_r := false; shr_s := false |}, e).
Proof.
  intros H. unfold shr_fexp. cbn [Zdigits2].
  rewrite digits2_pos_log2, fexp_eq, H, Z.sub_diag. reflexivity.
Qed.

(** A shift by [n] that only drops zeros. *)
Lemma shr_fexp_shift (m q n : positive) (e : Z) :
  Z.max (Z.log2 (Zpos m) + 1 + e - 53) (-1074) = e + Zpos n ->
  Zpos m = Zpos q * 2 ^ Zpos n ->
  shr_fexp prec emax (Zpos m) e loc_Exact
  = ({| shr_m := Zpos q; shr_r := false; shr_s := false |}, e + Zpos n).
Proof.
  intros H Hq. unfold shr_fexp. cbn [Zdigits2].
  rewrite digits2_pos_log2, fexp_eq, H.
  replace (e + Zpos n - e) with (Zpos n) by lia.
  cbn [shr shr_record_of_loc]. now rewrite (iter_shr_exact n m q Hq).
Qed.

Lemma binary_round_aux_canonical (s : bool) (m : positive) (e : Z) :
  Z.max (Z.log2 (Zpos m) + 1 + e - 53) (-1074) = e ->
  e <= 971 ->
  binary_round_aux prec emax s (Zpos m) e loc_Exact = S754_finite s m e.
Proof.
  intros H He. unfold binary_round_aux.
  rewrite (shr_fexp_canonical m e H).
  cbn [shr_m loc_of_shr_record round_nearest_even].
  rewrite (shr_fexp_canonical m e H). cbn [shr_m].
  change (emax - prec) with 971.
  destruct (Z.leb_spec e 971); [reflexivity | lia].
Qed.

Lemma binary_round_aux_shift (s : bool) (m q n : positive) (e : Z) :
  Z.max (Z.log2 (Zpos m) + 1 + e - 53) (-1074) = e + Zpos n ->
  Zpos m = Zpos q * 2 ^ Zpos n ->
  e + Zpos n <= 971 ->
  binary_round_aux prec emax s (Zpos m) e loc_Exact = S754_finite s q (e + Zpos n).
Proof.
  intros H Hq He. unfold binary_round_aux.
  rewrite (shr_fexp_shift m q n e H Hq).
  cbn [shr_m loc_of_shr_record round_nearest_even].
  assert (Hc : Z.max (Z.log2 (Zpos q) + 1 + (e + Zpos n) - 53) (-1074) = e + Zpos n).
  { apply (f_equal Z.log2) in Hq. rewrite Z.log2_mul_pow2 in Hq by lia. lia. }
  rewrite (shr_fexp_canonical q (e + Zpos n) Hc). cbn [shr_m].
  change (emax - prec) with 971.
  destruct (Z.leb_spec (e + Zpos n) 971); [reflexivity | lia].
Qed.

(** Rounding a number that lies on a grid [2^g] and has fewer than 53
    bits in units of the grid returns that number. *)
Lemma binary_round_exact (s : bool) (m : positive) (e K g : Z) :
  -1074 <= e -> -1074 <= g <= 971 -> 0 < K < 2 ^ 53 ->
  Zpos m * 2 ^ (e + 1074) = K * 2 ^ (g + 1074) ->
  scaled (binary_round prec emax s m e)
  = Some (cond_Zopp s (Zpos m * 2 ^ (e + 1074))).
Proof.
  intros He Hg HK Heq.
  assert (Hlog : Z.log2 (Zpos m) + e = Z.log2 K + g).
  { apply (f_equal Z.log2) in Heq. rewrite !Z.log2_mul_pow2 in Heq by lia. lia. }
  assert (HlK : Z.log2 K < 53) by (apply Z.log2_lt_pow2; lia).
  assert (H0K : 0 <= Z.log2 K) by apply Z.log2_nonneg.
  set (t := Z.max (Z.log2 (Zpos m) + 1 + e - 53) (-1074)).
  assert (Ht : -1074 <= t <= g) by (subst t; lia).
  unfold binary_round. rewrite digits2_pos_log2, fexp_eq. fold t.
  unfold shl_align. destruct (t - e) as [|n|n] eqn:Hn.
  - assert (e = t) by lia.
    rewrite binary_round_aux_canonical by lia.
    rewrite scaled_finite. destruct s; cbn [cond_Zopp]; f_equal; lia.
  - assert (Hm : Zpos m = K * 2 ^ (g - t) * 2 ^ Zpos n).
    { assert (P : 0 < 2 ^ (e + 1074)) by (apply Z.pow_pos_nonneg; lia).
      replace (g + 1074) with (g - t + (Zpos n + (e + 1074))) in Heq by lia.
      rewrite (Z.pow_add_r 2 (g - t) (Zpos n + (e + 1074))),
        (Z.pow_add_r 2 (Zpos n) (e + 1074)) in Heq by lia.
      nia. }
    assert (Pq : 0 < K * 2 ^ (g - t)).
    { assert (0 < 2 ^ (g - t)) by (apply Z.pow_pos_nonneg; lia). nia. }
    destruct (K * 2 ^ (g - t)) as [|q|q] eqn:Hq; try lia.
    replace t with (e + Zpos n) by lia.
    rewrite (binary_round_aux_shift s m q n e) by (try assumption; lia).
    rewrite scaled_finite, Hm.
    replace (e + Zpos n + 1074) with (e + 1074 + Zpos n) by lia.
    rewrite (Z.pow_add_r 2 (e + 1074)) by lia.
    destruct s; cbn [cond_Zopp]; f_equal; ring.
  - cbn [fst snd].
    assert (Hz : Zpos (Pos.iter xO m n) = Zpos m * 2 ^ Zpos n) by apply Pos_iter_xO.
    rewrite binary_round_aux_canonical.
    + rewrite scaled_finite, Hz.
      replace (e + 1074) with (Zpos n + (t + 1074)) by lia.
      rewrite (Z.pow_add_r 2 (Zpos n)) by lia.
      destruct s; cbn [cond_Zopp]; f_equal; ring.
    + rewrite Hz, Z.log2_mul_pow2 by lia. subst t. lia.
    + lia.
Qed.

(** Two non-negative doubles on a grid, whose sum has fewer than 53
    bits in units of the grid, add without rounding. *)
Lemma SFadd_grid (X Y : spec_float) (a b g : Z) :
  valid_binary X = true -> valid_binary Y = true ->
  -1074 <= g <= 971 -> 0 <= a -> 0 <= b -> a + b < 2 ^ 53 ->
  scaled X = Some (a * grid g) -> scaled Y = Some (b * grid g) ->
  scaled (SF64add X Y) = Some ((a + b) * grid g).
Proof.
  intros VX VY Hg Ha Hb Hab HX HY.
  assert (PG : 0 < grid g) by (apply Z.pow_pos_nonneg; lia).
  unfold SF64add, SFadd.
  destruct X as [sx|sx| |sx mx ex], Y as [sy|sy| |sy my ey]; try discriminate.
  - cbn [scaled] in HX, HY. injection HX as HX. injection HY as HY.
    assert (a = 0) by nia. assert (b = 0) by nia. subst a b.
    destruct sx, sy; reflexivity.
  - cbn [scaled] in HX. injection HX as HX.
    assert (a = 0) by nia. subst a. exact HY.
  - cbn [scaled] in HY. injection HY as HY.
    assert (b = 0) by nia. subst b. now rewrite Z.add_0_r.
  - rewrite scaled_finite in HX, HY. injection HX as HX. injection HY as HY.
    pose proof (valid_binary_emin _ _ _ VX). pose proof (valid_binary_emin _ _ _ VY).
    assert (Px : 0 < 2 ^ (ex + 1074)) by (apply Z.pow_pos_nonneg; lia).
    assert (Py : 0 < 2 ^ (ey + 1074)) by (apply Z.pow_pos_nonneg; lia).
    assert (sx = false) by (destruct sx; [cbn [cond_Zopp] in HX; nia | reflexivity]).
    assert (sy = false) by (destruct sy; [cbn [cond_Zopp] in HY; nia | reflexivity]).
    subst sx sy. cbn [cond_Zopp] in *.
    set (ez := Z.min ex ey).
    assert (Hex : -1074 <= ez <= ex) by (subst ez; lia).
    assert (Hey : -1074 <= ez <= ey) by (subst ez; lia).
    pose proof (shl_align_scaled mx ex ez (proj1 Hex) (proj2 Hex)) as Ax.
    pose proof (shl_align_scaled my ey ez (proj1 Hey) (proj2 Hey)) as Ay.
    rewrite <- Pos2Z.inj_add. unfold binary_normalize.
    rewrite (binary_round_exact false _ ez (a + b) g); try lia.
    + cbn [cond_Zopp]. f_equal. rewrite Pos2Z.inj_add. lia.
    + nia.
    + rewrite Pos2Z.inj_add. unfold grid in *. lia.
Qed.

End Rounding.

Section GridSums.
Import Exact.
Local Open Scope float_scope.

Lemma grid_pos (g : Z) : -1074 <= g -> (0 < grid g)%Z.
Proof. intros H. apply Z.pow_pos_nonneg; lia. Qed.

Lemma on_grid_spec (g : Z) (x : float) :
  (-1074 <= g)%Z -> on_grid g x = true ->
  exists k : Z, (0 <= k)%Z /\ value x = Some (k * grid g)%Z.
Proof.
  intros Hg. unfold on_grid. destruct (value x) as [v|]; [|discriminate].
  intros H. apply andb_prop in H as [H0 Hmod].
  apply Z.leb_le in H0. apply Z.eqb_eq in Hmod.
  pose proof (grid_pos g Hg) as PG.
  exists (v / grid g)%Z. split; [apply Z.div_pos; lia|].
  f_equal. rewrite Z.mul_comm. apply Z_div_exact_full_2; lia.
Qed.

Lemma on_grid_intro (g : Z) (x : float) (k : Z) :
  (-1074 <= g)%Z -> (0 <= k)%Z -> value x = Some (k * grid g)%Z ->
  on_grid g x = true.
Proof.
  intros Hg Hk H. unfold on_grid. rewrite H.
  pose proof (grid_pos g Hg) as PG.
  apply andb_true_intro. split; [apply Z.leb_le; nia|].
  apply Z.eqb_eq, Z_mod_mult.
Qed.

Lemma exact_add_grid (x y : float) (a b g : Z) :
  (-1074 <= g <= 971)%Z -> (0 <= a)%Z -> (0 <= b)%Z -> (a + b < 2 ^ 53)%Z ->
  value x = Some (a * grid g)%Z -> value y = Some (b * grid g)%Z ->
  value (x + y) = Some ((a + b) * grid g)%Z /\ exact_add x y = true.
Proof.
  intros Hg Ha Hb Hab Hx Hy.
  assert (H : value (x + y) = Some ((a + b) * grid g)%Z).
  { unfold value. rewrite add_spec.
    apply SFadd_grid; auto using Prim2SF_valid. }
  split; [exact H|].
  unfold exact_add. rewrite Hx, Hy, H. apply Z.eqb_eq. ring.
Qed.

Lemma on_grid_sum_values (g : Z) (l : list float) :
  (-1074 <= g)%Z -> forallb (on_grid g) l = true ->
  exists k : Z, (0 <= k)%Z /\ sum_values l = (k * grid g)%Z.
Proof.
  intros Hg. induction l as [|x l IH]; intros H.
  - exists 0%Z. split; [lia | reflexivity].
  - cbn [forallb] in H. apply andb_prop in H as [Hx Hl].
    destruct (IH Hl) as (k & Hk & Hsum).
    destruct (on_grid_spec g x Hg Hx) as (kx & Hkx & Hvx).
    exists (kx + k)%Z. split; [lia|].
    assert (Hval : val x = (kx * grid g)%Z) by (unfold val; now rewrite Hvx).
    unfold sum_values in *. cbn [map fold_right]. rewrite Hsum, Hval. ring.
Qed.

(** Doubles on a grid that total less than [2^53] steps sum without
    rounding, from any start on the grid that leaves the total below. *)
Lemma grid_exact_sum (g : Z) (l : list float) :
  (-1074 <= g <= 971)%Z ->
  forall (s : float) (a : Z),
    (0 <= a)%Z -> value s = Some (a * grid g)%Z ->
    forallb (on_grid g) l = true ->
    (a * grid g + sum_values l < 2 ^ 53 * grid g)%Z ->
    exact_sum s l = true.
Proof.
  intros Hg. pose proof (grid_pos g (proj1 Hg)) as PG.
  induction l as [|x l IH]; intros s a Ha Hs Hl Hlt; [reflexivity|].
  cbn [forallb] in Hl. apply andb_prop in Hl as [Hx Hl].
  destruct (on_grid_spec g x (proj1 Hg) Hx) as (k & Hk & Hvx).
  destruct (on_grid_sum_values g l (proj1 Hg) Hl) as (kl & Hkl & Hsum).
  assert (Hcons : sum_values (x :: l) = (k * grid g + sum_values l)%Z).
  { unfold sum_values. cbn [map fold_right]. unfold val. now rewrite Hvx. }
  rewrite Hcons, Hsum in Hlt.
  assert (Hak : (a + k < 2 ^ 53)%Z) by nia.
  destruct (exact_add_grid s x a k g Hg Ha Hk Hak Hs Hvx) as [Hv Hadd].
  cbn [exact_sum]. rewrite Hadd. cbn [andb].
  apply (IH (s + x) (a + k)%Z); [lia | exact Hv | exact Hl |].
  rewrite Hsum. nia.
Qed.

Lemma grid_exact_sum_zero (g : Z) (l : list float) :
  (-1074 <= g <= 971)%Z ->
  forallb (on_grid g) l = true -> below_2_53 g l = true ->
  exact_sum 0 l = true.
Proof.
  intros Hg Hl Hb. apply Z.ltb_lt in Hb.
  apply (grid_exact_sum g l Hg 0 0%Z); [lia | reflexivity | exact Hl | lia].
Qed.

Lemma forallb_Permutation {A} (f : A -> bool) (l1 l2 : list A) :
  Permutation l1 l2 -> forallb f l1 = true -> forallb f l2 = true.
Proof.
  intros Hp H. apply forallb_forall. intros x Hx.
  apply (proj1 (forallb_forall f l1) H).
  now apply (Permutation_in x (Permutation_sym Hp)).
Qed.

Lemma below_Permutation (g : Z) (l1 l2 : list float) :
  Permutation l1 l2 -> below_2_53 g l1 = true -> below_2_53 g l2 = true.
Proof.
  intros Hp. unfold below_2_53. now rewrite (sum_values_Permutation l1 l2 Hp).
Qed.

End GridSums.



(** ** Merging the workers *)
Section MergeFacts.
Import RunAction Run Exact.
Local Open Scope float_scope.

Lemma worker_spec (shard : list float) (q : process) :
  master (worker shard q)
  = match shard with
    | [] => master q
    | _ :: _ =>
        mergeFrom (accumulate shard (Reset (new (fOutputDir (master q))))) (master q)
    end
  /\ printed (worker shard q) = printed q.
Proof.
  unfold worker. cbn [BeginOfRunAction]. rewrite process_events_spec.
  destruct shard as [|e l]; [split; reflexivity|].
  assert (HN : (nofEvents (e :: l) =? 0)%Z = false).
  { unfold nofEvents. cbn [length]. apply Z.eqb_neq. lia. }
  unfold EndOfRunAction. rewrite HN. split; reflexivity.
Qed.

Lemma merged_sums_cons (f : list float -> float) (shard : list float)
  (shards : list (list float)) :
  merged_sums f (shard :: shards)
  = match shard with
    | [] => merged_sums f shards
    | _ :: _ => f shard :: merged_sums f shards
    end.
Proof.
  unfold merged_sums. rewrite filter_cons.
  destruct shard; destruct (decide _) as [H|H]; try reflexivity.
  - now contradiction H.
  - exfalso. apply H. discriminate.
Qed.

Lemma workers_spec (shards : list (list float)) :
  forall q : process,
    let q' := fold_left (fun acc shard => worker shard acc) shards q in
    fEdep (master q')
    = fold_left PrimFloat.add (merged_sums fsum shards) (fEdep (master q))
    /\ fEdep2 (master q')
       = fold_left PrimFloat.add
           (merged_sums (fun shard => fsum (map square shard)) shards)
           (fEdep2 (master q))
    /\ printed q' = printed q.
Proof.
  induction shards as [|shard shards IH]; intros q; cbn [fold_left].
  - repeat split.
  - destruct (IH (worker shard q)) as (H1 & H2 & H3).
    destruct (worker_spec shard q) as (Hm & Hp).
    cbv zeta. rewrite H1, H2, H3, Hp, Hm, !merged_sums_cons.
    destruct shard as [|e l]; [repeat split|].
    cbn [mergeFrom fEdep fEdep2 fold_left].
    rewrite fEdep_accumulate, fEdep2_accumulate.
    repeat split.
Qed.

Lemma EndOfRunAction_master (n : Z) (p : process) :
  master (EndOfRunAction MasterThread n p) = master p
  /\ printed (EndOfRunAction MasterThread n p)
     = if (n =? 0)%Z then printed p
       else printed p ++ [statistics (fEdep (master p)) (fEdep2 (master p)) n].
Proof. unfold EndOfRunAction. destruct (n =? 0)%Z; split; reflexivity. Qed.

Lemma multithreaded_spec (shards : list (list float)) (p : process) :
  let mt := multithreaded shards p in
  fEdep (master mt) = fsum (merged_sums fsum shards)
  /\ fEdep2 (master mt)
     = fsum (merged_sums (fun shard => fsum (map square shard)) shards)
  /\ printed mt
     = if (nofEvents (concat shards) =? 0)%Z then printed p
       else printed p
            ++ [statistics (fEdep (master mt)) (fEdep2 (master mt))
                  (nofEvents (concat shards))].
Proof.
  cbv zeta. unfold multithreaded.
  set (q := fold_left _ shards _).
  destruct (EndOfRunAction_master (nofEvents (concat shards)) q) as (Hm & Hp).
  destruct (workers_spec shards (BeginOfRunAction_master p)) as (H1 & H2 & H3).
  fold q in H1, H2, H3. rewrite Hm, Hp, H1, H2, H3. repeat split.
Qed.

Lemma sequential_spec (deposits : list float) (p : process) :
  let one := sequential deposits p in
  fEdep (master one) = fsum deposits
  /\ fEdep2 (master one) = fsum (map square deposits)
  /\ printed one
     = if (nofEvents deposits =? 0)%Z then printed p
       else printed p
            ++ [statistics (fEdep (master one)) (fEdep2 (master one))
                  (nofEvents deposits)].
Proof.
  cbv zeta. unfold sequential. rewrite process_events_spec.
  match goal with
  | |- context [EndOfRunAction MasterThread ?n ?q] =>
      destruct (EndOfRunAction_master n q) as (Hm & Hp); rewrite Hm, Hp
  end.
  cbn [master printed BeginOfRunAction_master BeginOfRunAction].
  rewrite fEdep_accumulate, fEdep2_accumulate. repeat split.
Qed.

Lemma merged_sum_values (shards : list (list float)) :
  forallb (exact_sum 0) shards = true ->
  sum_values (merged_sums fsum shards) = sum_values (concat shards).
Proof.
  induction shards as [|shard shards IH]; intros H; [reflexivity|].
  cbn [forallb] in H. apply andb_prop in H as [Hs H].
  assert (Hv : val (fsum shard) = sum_values shard).
  { unfold val. now rewrite (fsum_value _ Hs). }
  rewrite merged_sums_cons. cbn [concat]. rewrite sum_values_app, <- (IH H).
  destruct shard as [|e l]; [reflexivity|].
  change (sum_values (fsum (e :: l) :: merged_sums fsum shards))
    with (val (fsum (e :: l)) + sum_values (merged_sums fsum shards))%Z.
  now rewrite Hv.
Qed.

Lemma merged_sums_square (shards : list (list float)) :
  merged_sums (fun shard => fsum (map square shard)) shards
  = merged_sums fsum (map (map square) shards).
Proof.
  induction shards as [|shard shards IH]; [reflexivity|].
  cbn [map]. rewrite !merged_sums_cons, IH. now destruct shard.
Qed.

Lemma forallb_exact_accumulate (shards : list (list float)) :
  forallb exact_accumulate shards = true ->
  forallb (exact_sum 0) shards = true
  /\ forallb (exact_sum 0) (map (map square) shards) = true.
Proof.
  induction shards as [|shard shards IH]; intros H; [split; reflexivity|].
  cbn [forallb map] in *. apply andb_prop in H as [Hs H].
  unfold exact_accumulate in Hs. apply andb_prop in Hs as [Hs1 Hs2].
  destruct (IH H) as [IH1 IH2]. now rewrite Hs1, Hs2, IH1, IH2.
Qed.

Lemma exact_accumulate_forallb (shards : list (list float)) :
  forallb (exact_sum 0) shards = true ->
  forallb (exact_sum 0) (map (map square) shards) = true ->
  forallb exact_accumulate shards = true.
Proof.
  induction shards as [|shard shards IH]; intros H1 H2; [reflexivity|].
  cbn [forallb map] in *.
  apply andb_prop in H1 as [Hs1 H1]. apply andb_prop in H2 as [Hs2 H2].
  rewrite (IH H1 H2). unfold exact_accumulate. now rewrite Hs1, Hs2.
Qed.

Lemma merged_values (shards : list (list float)) :
  forallb exact_accumulate shards = true ->
  sum_values (merged_sums fsum shards) = sum_values (concat shards)
  /\ sum_values (merged_sums (fun shard => fsum (map square shard)) shards)
     = sum_values (map square (concat shards)).
Proof.
  intros H. destruct (forallb_exact_accumulate shards H) as [H1 H2]. split.
  - now apply merged_sum_values.
  - rewrite merged_sums_square, concat_map. now apply merged_sum_values.
Qed.

Lemma Permutation_concat (l1 l2 : list (list float)) :
  Permutation l1 l2 -> Permutation (concat l1) (concat l2).
Proof.
  induction 1 as [|x l l' _ IH|x y l|l l' l'' _ IH1 _ IH2]; cbn [concat].
  - apply Permutation_refl.
  - now apply Permutation_app_head.
  - rewrite !app_assoc. apply Permutation_app_tail, Permutation_app_comm.
  - now apply (perm_trans IH1).
Qed.

(** A multi-threaded run and a sequential run of the same events agree
    when neither rounds. *)
Lemma multithreaded_sequential (p : process) (shards : list (list float))
  (all : list float) :
  Permutation all (concat shards) ->
  exact_multithreaded shards = true ->
  exact_accumulate all = true ->
  fEdep (master (multithreaded shards p)) = fEdep (master (sequential all p))
  /\ fEdep2 (master (multithreaded shards p)) = fEdep2 (master (sequential all p))
  /\ nofEvents (concat shards) = nofEvents all
  /\ printed (multithreaded shards p) = printed (sequential all p).
Proof.
  intros Hperm Hmt Hone.
  unfold exact_multithreaded in Hmt.
  apply andb_prop in Hmt as [Hmt Hm2]. apply andb_prop in Hmt as [Hw Hm1].
  unfold exact_accumulate in Hone. apply andb_prop in Hone as [Ho1 Ho2].
  destruct (merged_values shards Hw) as [V1 V2].
  destruct (multithreaded_spec shards p) as (M1 & M2 & M3).
  destruct (sequential_spec all p) as (S1 & S2 & S3).
  assert (E1 : fEdep (master (multithreaded shards p))
               = fEdep (master (sequential all p))).
  { rewrite M1, S1. apply exact_sums_agree; [exact Hm1 | exact Ho1 |].
    rewrite V1. symmetry. now apply sum_values_Permutation. }
  assert (E2 : fEdep2 (master (multithreaded shards p))
               = fEdep2 (master (sequential all p))).
  { rewrite M2, S2. apply exact_sums_agree; [exact Hm2 | exact Ho2 |].
    rewrite V2. symmetry. now apply sum_values_Permutation, Permutation_map. }
  assert (EN : nofEvents (concat shards) = nofEvents all).
  { unfold nofEvents. f_equal. symmetry. now apply Permutation_length. }
  repeat split; try assumption.
  rewrite M3, S3, E1, E2, EN. reflexivity.
Qed.

(** The events of every worker are on the grid and total less than
    [2^53] steps: neither the workers nor the merges round. *)
Lemma grid_shards (g : Z) (shards : list (list float)) :
  (-1074 <= g <= 971)%Z ->
  forallb (on_grid g) (concat shards) = true ->
  below_2_53 g (concat shards) = true ->
  forallb (exact_sum 0) shards = true
  /\ exact_sum 0 (merged_sums fsum shards) = true.
Proof.
  intros Hg Hgrid Hbelow.
  pose proof (grid_pos g (proj1 Hg)) as PG.
  assert (Hw : forallb (exact_sum 0) shards = true
               /\ forallb (on_grid g) (merged_sums fsum shards) = true).
  { revert Hgrid Hbelow. unfold below_2_53.
    induction shards as [|shard shards IH]; intros Hgrid Hbelow; [split; reflexivity|].
    cbn [concat] in Hgrid, Hbelow. rewrite forallb_app in Hgrid.
    apply andb_prop in Hgrid as [Hs Hrest].
    rewrite sum_values_app in Hbelow. apply Z.ltb_lt in Hbelow.
    destruct (on_grid_sum_values g shard (proj1 Hg) Hs) as (k & Hk & Hsum).
    destruct (on_grid_sum_values g _ (proj1 Hg) Hrest) as (k' & Hk' & Hsum').
    assert (Hex : exact_sum 0 shard = true).
    { apply (grid_exact_sum_zero g); [exact Hg | exact Hs |].
      apply Z.ltb_lt. nia. }
    destruct IH as [IH1 IH2]; [exact Hrest | apply Z.ltb_lt; nia |].
    cbn [forallb]. rewrite Hex, IH1, merged_sums_cons.
    split; [reflexivity|].
    destruct shard as [|e l]; [exact IH2|].
    cbn [forallb]. rewrite IH2, andb_true_r.
    apply (on_grid_intro g _ k); [lia | exact Hk |].
    now rewrite (fsum_value _ Hex), Hsum. }
  destruct Hw as [Hw Hm]. split; [exact Hw|].
  apply (grid_exact_sum_zero g); [exact Hg | exact Hm |].
  unfold below_2_53. now rewrite (merged_sum_values shards Hw).
Qed.

Lemma grid_exact_multithreaded (g h : Z) (shards : list (list float)) :
  (-1074 <= g <= 971)%Z -> (-1074 <= h <= 971)%Z ->
  forallb (on_grid g) (concat shards) = true ->
  below_2_53 g (concat shards) = true ->
  forallb (on_grid h) (map square (concat shards)) = true ->
  below_2_53 h (map square (concat shards)) = true ->
  exact_multithreaded shards = true.
Proof.
  intros Hg Hh G1 B1 G2 B2.
  destruct (grid_shards g shards Hg G1 B1) as [W1 M1].
  rewrite concat_map in G2, B2.
  destruct (grid_shards h (map (map square) shards) Hh G2 B2) as [W2 M2].
  unfold exact_multithreaded.
  now rewrite (exact_accumulate_forallb shards W1 W2), M1, merged_sums_square, M2.
Qed.

End MergeFacts.

(** C1, as claimed, fails.  The deposits 0.1, 0.2 and 0.3 MeV, the
    first on one worker and the other two on a second, merge into a
    total of 0.6 where one accumulator fed the three leaves
    0.6000000000000001, and the end-of-run reports differ.  Three
    workers with one of the deposits each merge into different totals
    in the two opposite orders. *)
Lemma merge_differs_from_single_accumulator :
  let p := RunAction.start "." in
  let all := [1 / 10; 2 / 10; 3 / 10]%float in
  let shards := [[1 / 10]; [2 / 10; 3 / 10]]%float in
  let ordered := [[1 / 10]; [2 / 10]; [3 / 10]]%float in
  let reversed := [[3 / 10]; [2 / 10]; [1 / 10]]%float in
  concat shards = all
  /\ RunAction.fEdep (RunAction.master (Run.multithreaded shards p))
     = 0x1.3333333333333p-1%float
  /\ RunAction.fEdep (RunAction.master (Run.sequential all p))
     = 0x1.3333333333334p-1%float
  /\ RunAction.printed (Run.multithreaded shards p)
     <> RunAction.printed (Run.sequential all p)
  /\ Permutation reversed ordered
  /\ RunAction.fEdep (RunAction.master (Run.multithreaded ordered p))
     <> RunAction.fEdep (RunAction.master (Run.multithreaded reversed p)).
Proof.
  intros p all shards ordered reversed.
  split; [reflexivity|]. split; [vm_compute; reflexivity|].
  split; [vm_compute; reflexivity|]. split.
  { intros H.
    apply (f_equal (map (fun r => Prim2SF (RunAction.totalEdep r)))) in H.
    vm_compute in H. discriminate. }
  split; [exact (Permutation_rev reversed)|].
  intros H. apply (f_equal Prim2SF) in H. vm_compute in H. discriminate.
Qed.

(** C1, amended.  [Merge] adds the sums of each worker that saw an
    event into the master's, in double precision and in the order in
    which the workers end the run.  When the deposits of the run are
    non-negative multiples of one power of two [2^g] and total less
    than [2^53] of these steps, and likewise their squares as doubles
    for a power [2^h], no addition rounds, whatever the split into
    workers and the order of the merges: the merged [fEdep] and
    [fEdep2], the number of events and the reported total, mean and rms
    are then those of one accumulator fed all the events, and [fEdep]
    is the arithmetic sum of the deposits.  With rounding, they can
    differ. *)
Theorem merge_exact_agrees_with_single_accumulator :
  forall (p : RunAction.process) (g h : Z)
         (shards shards' : list (list float)) (all : list float),
    -1074 <= g <= 971 ->
    -1074 <= h <= 971 ->
    Permutation shards' shards ->
    Permutation all (concat shards) ->
    forallb (Exact.on_grid g) all = true ->
    Exact.below_2_53 g all = true ->
    forallb (Exact.on_grid h) (map Exact.square all) = true ->
    Exact.below_2_53 h (map Exact.square all) = true ->
    let one := Run.sequential all p in
    Run.same_results (Run.multithreaded shards p) one
    /\ Run.same_results (Run.multithreaded shards' p) one
    /\ Run.nofEvents (concat shards) = Run.nofEvents all
    /\ Run.nofEvents (concat shards') = Run.nofEvents all
    /\ Exact.value (RunAction.fEdep (RunAction.master one))
       = Some (Exact.sum_values all)
    /\ Exact.exact_multithreaded shards = true
    /\ Exact.exact_multithreaded shards' = true
    /\ Exact.exact_accumulate all = true.
Proof.
  intros p g h shards shards' all Hg Hh Hperm Hall G1 B1 G2 B2 one.
  assert (Hall' : Permutation all (concat shards')).
  { apply (perm_trans Hall), Permutation_sym, Permutation_concat, Hperm. }
  assert (Hone : Exact.exact_accumulate all = true).
  { unfold Exact.exact_accumulate.
    now rewrite (grid_exact_sum_zero g all Hg G1 B1),
      (grid_exact_sum_zero h _ Hh G2 B2). }
  assert (Hshards : forall l, Permutation all (concat l) ->
                              Exact.exact_multithreaded l = true).
  { intros l Hl. apply (grid_exact_multithreaded g h); try assumption.
    - now apply (forallb_Permutation _ all).
    - now apply (below_Permutation g all).
    - apply (forallb_Permutation _ (map Exact.square all)); [|exact G2].
      now apply Permutation_map.
    - apply (below_Permutation h (map Exact.square all)); [|exact B2].
      now apply Permutation_map. }
  pose proof (Hshards shards Hall) as Hmt.
  pose proof (Hshards shards' Hall') as Hmt'.
  destruct (multithreaded_sequential p shards all Hall Hmt Hone)
    as (A1 & A2 & A3 & A4).
  destruct (multithreaded_sequential p shards' all Hall' Hmt' Hone)
    as (B1' & B2' & B3' & B4').
  unfold Run.same_results. repeat split; try assumption.
  subst one. destruct (sequential_spec all p) as (S1 & _). rewrite S1.
  apply fsum_value. unfold Exact.exact_accumulate in Hone.
  now apply andb_prop in Hone as [Ho1 _].
Qed.

Lemma merge_exact_agrees_with_single_accumulator_witness :
  let p := RunAction.start "." in
  let shards := [[1; 2.5]; []; [3]]%float in
  let shards' := [[3]; [1; 2.5]; []]%float in
  let all := [3; 1; 2.5]%float in
  Run.same_results (Run.multithreaded shards p) (Run.sequential all p)
  /\ Run.same_results (Run.multithreaded shards' p) (Run.sequential all p)
  /\ RunAction.fEdep (RunAction.master (Run.multithreaded shards p)) = 6.5%float.
Proof.
  intros p shards shards' all.
  assert (Hperm : Permutation shards' shards).
  { subst shards shards'.
    change [[1; 2.5]; []; [3]]%float with ([[1; 2.5]; []] ++ [[3]])%float.
    apply Permutation_cons_append. }
  assert (Hall : Permutation all (concat shards)).
  { subst all shards. cbn [concat app].
    change [1; 2.5; 3]%float with ([1; 2.5] ++ [3])%float.
    apply Permutation_cons_append. }
  destruct (merge_exact_agrees_with_single_accumulator p (-1) (-2) shards shards' all
              ltac:(lia) ltac:(lia) Hperm Hall eq_refl eq_refl eq_refl eq_refl)
    as (H1 & H2 & _).
  split; [exact H1|]. split; [exact H2|]. reflexivity.
Defined.

(** Rounding can change more than the last bits.  Six events of
    0.1 MeV leave a variance that is positive by rounding in one
    accumulator, and the report shows an rms above 0; three on each of
    two workers merge to sums whose variance is 0, and the report shows
    an rms of 0. *)
Example rms_depends_on_split :
  let p := RunAction.start "." in
  let d := (1 / 10)%float in
  let one := Run.sequential [d; d; d; d; d; d] p in
  let two := Run.multithreaded [[d; d; d]; [d; d; d]] p in
  map (fun r => (0 <? RunAction.rmsEdep r)%float) (RunAction.printed one) = [true]
  /\ map RunAction.rmsEdep (RunAction.printed two) = [0%float].
Proof. vm_compute. split; reflexivity. Qed.

(** ** The scenarios of the specification *)

(** One worker, three events that deposit 1, 0 and 2 MeV: the sum is
    3 MeV and the mean 1 MeV. *)
Example scenario_one_worker :
  let p := Run.sequential [1; 0; 2]%float (RunAction.start ".") in
  RunAction.fEdep (RunAction.master p) = 3%float
  /\ map RunAction.totalEdep (RunAction.printed p) = [3%float]
  /\ map RunAction.meanEdep (RunAction.printed p) = [1%float].
Proof. vm_compute. repeat split; reflexivity. Qed.

(** Two workers, two events of 1 MeV each: the merged sums are 4 and
    4, the mean is 1 and the rms 0. *)
Example scenario_two_workers :
  let p := Run.multithreaded [[1; 1]; [1; 1]]%float (RunAction.start ".") in
  RunAction.fEdep (RunAction.master p) = 4%float
  /\ RunAction.fEdep2 (RunAction.master p) = 4%float
  /\ RunAction.printed p
     = [{| RunAction.totalEdep := 4; RunAction.meanEdep := 1;
           RunAction.rmsEdep := 0 |}]%float.
Proof. vm_compute. repeat split; reflexivity. Qed.

(** * Further properties of the code *)

(** ** The analysis file over a session *)
Section SessionFacts.
Import G4AnalysisManager RunAction Run Session.

Lemma open_files_run (c : Analysis.command) (a : Analysis.t) :
  open_files (Analysis.manager a) 0 = (if Analysis.fBooked a then 1 else 0)%nat ->
  open_files (Analysis.manager (Analysis.run c a)) 0
  = (if Analysis.fBooked (Analysis.run c a) then 1 else 0)%nat.
Proof.
  intros H. destruct c; cbn [Analysis.run]; try exact H;
    try (unfold Analysis.FillH1, Analysis.FillH2, Analysis.FillNtupleIColumn,
           Analysis.FillNtupleDColumn, Analysis.AddNtupleRow, Analysis.send;
         cbn [Analysis.manager Analysis.fBooked];
         rewrite open_files_app, H; cbn [open_files]; reflexivity).
  - unfold Analysis.Book. destruct (Analysis.fBooked a) eqn:E.
    + now rewrite E.
    + cbn [Analysis.manager Analysis.fBooked]. rewrite open_files_app, H.
      reflexivity.
  - unfold Analysis.Save. cbn [Analysis.manager Analysis.fBooked].
    rewrite open_files_app, H. now destruct (Analysis.fBooked a).
Qed.

Lemma sequential_analysis (deposits : list float) (p : process) :
  Analysis.manager (analysis (sequential deposits p))
  = Analysis.manager (analysis p) ++ run_calls deposits p
  /\ Analysis.fBooked (analysis (sequential deposits p))
     = match deposits with [] => true | _ :: _ => false end
  /\ fOutputDir (master (sequential deposits p)) = fOutputDir (master p).
Proof.
  unfold sequential, BeginOfRunAction_master, run_calls.
  cbn [BeginOfRunAction master analysis printed].
  rewrite process_events_spec.
  destruct deposits as [|e l].
  - cbn [EndOfRunAction nofEvents length Z.of_nat Z.eqb event_calls
         accumulate fold_left analysis master].
    unfold Analysis.send, Analysis.Book, Analysis.SetOutputDirectory.
    cbn [Analysis.fBooked Analysis.manager Analysis.fOutputDir Reset fOutputDir].
    destruct (Analysis.fBooked (analysis p)) eqn:E;
      cbn [Analysis.fBooked Analysis.manager Analysis.fOutputDir];
      rewrite ?app_nil_r; repeat split; try reflexivity; assumption.
  - assert (HN : (nofEvents (e :: l) =? 0)%Z = false).
    { unfold nofEvents. cbn [length]. apply Z.eqb_neq. lia. }
    unfold EndOfRunAction. rewrite HN.
    cbn [Merge analysis master printed Analysis.Save Analysis.manager
         Analysis.fBooked].
    rewrite fOutputDir_accumulate.
    unfold Analysis.send, Analysis.Book, Analysis.SetOutputDirectory.
    cbn [Analysis.fBooked Analysis.manager Analysis.fOutputDir Reset fOutputDir].
    destruct (Analysis.fBooked (analysis p)) eqn:E;
      cbn [Analysis.fBooked Analysis.manager Analysis.fOutputDir];
      rewrite <- ?app_assoc; repeat split; reflexivity.
Qed.

Lemma open_files_run_calls (deposits : list float) (p : process) :
  open_files (Analysis.manager (analysis p)) 0
  = (if Analysis.fBooked (analysis p) then 1 else 0)%nat ->
  open_files (Analysis.manager (analysis (sequential deposits p))) 0
  = match deposits with [] => 1 | _ :: _ => 0 end%nat.
Proof.
  intros H. destruct (sequential_analysis deposits p) as (Hm & _ & _).
  rewrite Hm. unfold run_calls.
  rewrite !open_files_app, open_files_event_calls, H.
  destruct (Analysis.fBooked (analysis p)), deposits; reflexivity.
Qed.

Lemma runs_snoc (session : list (list float)) (deposits : list float) (p : process) :
  runs (session ++ [deposits]) p = sequential deposits (runs session p).
Proof. unfold runs. now rewrite fold_left_app. Qed.

Lemma runs_open_files (session : list (list float)) (outputDir : string) :
  let a := analysis (runs session (start outputDir)) in
  open_files (Analysis.manager a) 0 = (if Analysis.fBooked a then 1 else 0)%nat.
Proof.
  cbv zeta. induction session as [|deposits session IH] using rev_ind.
  - reflexivity.
  - rewrite runs_snoc, (open_files_run_calls _ _ IH).
    destruct (sequential_analysis deposits (runs session (start outputDir)))
      as (_ & Hb & _).
    rewrite Hb. now destruct deposits.
Qed.

Lemma runs_with_events_snoc (session : list (list float)) (deposits : list float) :
  length (runs_with_events (session ++ [deposits]))
  = (length (runs_with_events session)
     + match deposits with [] => 0 | _ :: _ => 1 end)%nat.
Proof.
  unfold runs_with_events. rewrite filter_app, length_app. f_equal.
  rewrite filter_cons, filter_nil.
  destruct deposits; destruct (decide _) as [H|H]; try reflexivity.
  - now contradiction H.
  - exfalso. apply H. discriminate.
Qed.

Lemma count_run_frame (f : call -> bool) (deposits : list float) (q : process) :
  count f (Analysis.booking (fOutputDir (master q) ++ "/output")%string) = 0%nat ->
  count f [Write; CloseFile] = 0%nat ->
  count f (run_calls deposits q) = count f (event_calls deposits 0).
Proof.
  intros Hb Hs. unfold run_calls. rewrite !count_app.
  destruct (Analysis.fBooked (analysis q)); rewrite ?Hb;
    destruct deposits; rewrite ?Hs; cbn; lia.
Qed.

Lemma count_fill_event_calls (deposits : list float) :
  forall eventID,
    count is_AddNtupleRow (event_calls deposits eventID) = length deposits
    /\ count is_FillH1_Edep (event_calls deposits eventID) = length deposits
    /\ count fills_position_or_time (event_calls deposits eventID) = 0%nat.
Proof.
  induction deposits as [|e l IH]; intros eventID; [repeat split|].
  cbn [event_calls]. rewrite !count_app.
  destruct (IH (eventID + 1)%Z) as (H1 & H2 & H3). rewrite H1, H2, H3.
  repeat split.
Qed.

End SessionFacts.

(** X1.  Whatever sequence of its methods is called on the [Analysis]
    singleton, starting from its construction, the number of files the
    analysis manager has open is 1 when [fBooked] is set and 0 when it
    is not: never two files at once, and no file once [Save] has run. *)
Theorem Analysis_file_open_iff_booked :
  forall cs : list Analysis.command,
    let a := Analysis.run_all cs Analysis.new in
    G4AnalysisManager.open_files (Analysis.manager a) 0
    = (if Analysis.fBooked a then 1 else 0)%nat.
Proof.
  intros cs. cbv zeta. unfold Analysis.run_all.
  assert (H : forall a,
             G4AnalysisManager.open_files (Analysis.manager a) 0
             = (if Analysis.fBooked a then 1 else 0)%nat ->
             G4AnalysisManager.open_files
               (Analysis.manager (fold_left (fun acc c => Analysis.run c acc) cs a)) 0
             = (if Analysis.fBooked (fold_left (fun acc c => Analysis.run c acc) cs a)
                then 1 else 0)%nat).
  { induction cs as [|c cs IH]; intros a Ha; cbn [fold_left]; [exact Ha|].
    apply IH. now apply open_files_run. }
  apply H. reflexivity.
Qed.

(** X2.  After any number of sequential runs in one process, the
    output file is open, and [fBooked] set, exactly when the last run
    had no event; a run with events leaves the file closed whatever the
    runs before it did. *)
Theorem session_file_follows_last_run :
  forall (outputDir : string) (session : list (list float)) (deposits : list float),
    let p := Session.runs (session ++ [deposits]) (RunAction.start outputDir) in
    let a := RunAction.analysis p in
    Analysis.fBooked a = match deposits with [] => true | _ :: _ => false end
    /\ G4AnalysisManager.open_files (Analysis.manager a) 0
       = match deposits with [] => 1 | _ :: _ => 0 end%nat.
Proof.
  intros outputDir session deposits. cbv zeta. rewrite runs_snoc. split.
  - now destruct (sequential_analysis deposits
                    (Session.runs session (RunAction.start outputDir)))
      as (_ & Hb & _).
  - apply open_files_run_calls. apply runs_open_files.
Qed.

(** X3.  Over a session of sequential runs the analysis manager is
    asked to write and to close once per run that had events, and one
    report is printed per such run; runs without events contribute
    neither. *)
Theorem session_saves_once_per_run_with_events :
  forall (outputDir : string) (session : list (list float)),
    let p := Session.runs session (RunAction.start outputDir) in
    let mgr := Analysis.manager (RunAction.analysis p) in
    let n := length (Session.runs_with_events session) in
    G4AnalysisManager.count G4AnalysisManager.is_Write mgr = n
    /\ G4AnalysisManager.count G4AnalysisManager.is_CloseFile mgr = n
    /\ length (RunAction.printed p) = n.
Proof.
  intros outputDir session. cbv zeta.
  induction session as [|deposits session IH] using rev_ind.
  - repeat split.
  - destruct IH as (IH1 & IH2 & IH3).
    rewrite runs_snoc, runs_with_events_snoc.
    set (q := Session.runs session (RunAction.start outputDir)) in *.
    destruct (sequential_analysis deposits q) as (Hm & _ & _).
    destruct (sequential_spec deposits q) as (_ & _ & Hp).
    rewrite Hm, Hp. unfold Session.run_calls.
    rewrite !count_app, IH1, IH2.
    rewrite !(count_event_calls _ deposits) by reflexivity.
    assert (Hbk : forall (f : G4AnalysisManager.call -> bool),
               f = G4AnalysisManager.is_Write \/ f = G4AnalysisManager.is_CloseFile ->
               G4AnalysisManager.count f
                 (if Analysis.fBooked (RunAction.analysis q) then []
                  else Analysis.booking
                         (RunAction.fOutputDir (RunAction.master q) ++ "/output")%string)
               = 0%nat).
    { intros f Hf. destruct (Analysis.fBooked (RunAction.analysis q)); [reflexivity|].
      destruct Hf as [-> | ->]; reflexivity. }
    rewrite !Hbk by auto.
    destruct deposits as [|e l].
    + cbn. rewrite !Nat.add_0_r. repeat split; assumption.
    + assert (HN : (Run.nofEvents (e :: l) =? 0)%Z = false).
      { unfold Run.nofEvents. cbn [length]. apply Z.eqb_neq. lia. }
      rewrite HN, length_app. cbn. rewrite IH3. repeat split; lia.
Qed.

(** X4.  Every run starts from zero: after a session of sequential
    runs the two sums of the run action are those of the events of the
    last run alone, summed in event order, whatever the earlier runs
    accumulated. *)
Theorem session_sums_are_those_of_last_run :
  forall (session : list (list float)) (deposits : list float)
         (p : RunAction.process),
    let q := Session.runs (session ++ [deposits]) p in
    RunAction.fEdep (RunAction.master q) = Exact.fsum deposits
    /\ RunAction.fEdep2 (RunAction.master q)
       = Exact.fsum (map Exact.square deposits).
Proof.
  intros session deposits p. cbv zeta. rewrite runs_snoc.
  destruct (sequential_spec deposits (Session.runs session p)) as (H1 & H2 & _).
  split; assumption.
Qed.

(** X5.  Over a session of sequential runs every event adds one row to
    the ntuple and one entry to histogram 0, and nothing else is ever
    filled: the histograms [PosZ] and [PosXY] and the ntuple columns
    [posX], [posY], [posZ] and [time] that [Book] creates stay empty. *)
Theorem session_fills_one_row_per_event :
  forall (outputDir : string) (session : list (list float)),
    let p := Session.runs session (RunAction.start outputDir) in
    let mgr := Analysis.manager (RunAction.analysis p) in
    G4AnalysisManager.count Session.is_AddNtupleRow mgr = length (concat session)
    /\ G4AnalysisManager.count Session.is_FillH1_Edep mgr = length (concat session)
    /\ G4AnalysisManager.count Session.fills_position_or_time mgr = 0%nat.
Proof.
  intros outputDir session. cbv zeta.
  induction session as [|deposits session IH] using rev_ind.
  - repeat split.
  - destruct IH as (IH1 & IH2 & IH3).
    rewrite runs_snoc, concat_app, length_app. cbn [concat]. rewrite app_nil_r.
    set (q := Session.runs session (RunAction.start outputDir)) in *.
    destruct (sequential_analysis deposits q) as (Hm & _ & _).
    rewrite Hm, !count_app, IH1, IH2, IH3.
    rewrite !count_run_frame by reflexivity.
    destruct (count_fill_event_calls deposits 0) as (H1 & H2 & H3).
    rewrite H1, H2, H3.
    repeat split; lia.
Qed.

(** ** The hits of an event *)
Section EventFacts.
Import Event.

Lemma SensitiveDetector_steps_spec (eventID : Z) (steps : list G4Step) :
  forall (sd : SensitiveDetector.t) (hc : SensitiveDetector.DetectorHitsCollection),
    SensitiveDetector.fHitsCollection sd = Some hc ->
    SensitiveDetector_steps eventID steps sd
    = Some {| SensitiveDetector.SensitiveDetectorName :=
                SensitiveDetector.SensitiveDetectorName sd;
              SensitiveDetector.collectionName := SensitiveDetector.collectionName sd;
              SensitiveDetector.fHitsCollection :=
                Some (hc ++ map (SensitiveDetector.make_hit eventID)
                              (List.filter kept_by_SensitiveDetector steps));
              SensitiveDetector.fHCID := SensitiveDetector.fHCID sd |}.
Proof.
  induction steps as [|step rest IH]; intros sd hc Hhc; cbn [SensitiveDetector_steps].
  - destruct sd; simpl in *. rewrite app_nil_r. now subst.
  - unfold SensitiveDetector.ProcessHits, kept_by_SensitiveDetector.
    cbn [List.filter]. unfold kept_by_SensitiveDetector.
    destruct (TotalEnergyDeposit step <=? 0)%float; cbn [negb].
    + now apply IH.
    + rewrite Hhc. erewrite IH by reflexivity.
      cbn [SensitiveDetector.SensitiveDetectorName SensitiveDetector.collectionName
           SensitiveDetector.fHCID map].
      now rewrite <- app_assoc.
Qed.

Lemma TrackerSD_steps_spec (steps : list G4Step) :
  forall (sd : TrackerSD.t) (hc : TrackerSD.TrackerHitsCollection),
    TrackerSD.fHitsCollection sd = Some hc ->
    TrackerSD_steps steps sd
    = Some {| TrackerSD.SensitiveDetectorName := TrackerSD.SensitiveDetectorName sd;
              TrackerSD.collectionName := TrackerSD.collectionName sd;
              TrackerSD.fHitsCollection :=
                Some (hc ++ map TrackerSD.make_hit
                              (List.filter kept_by_TrackerSD steps)) |}.
Proof.
  induction steps as [|step rest IH]; intros sd hc Hhc; cbn [TrackerSD_steps].
  - destruct sd; simpl in *. rewrite app_nil_r. now subst.
  - unfold TrackerSD.ProcessHits, kept_by_TrackerSD.
    cbn [List.filter]. unfold kept_by_TrackerSD.
    destruct (TotalEnergyDeposit step =? 0)%float; cbn [negb].
    + now apply IH.
    + rewrite Hhc. erewrite IH by reflexivity.
      cbn [TrackerSD.SensitiveDetectorName TrackerSD.collectionName map].
      now rewrite <- app_assoc.
Qed.

Lemma fold_left_map {A B C} (f : C -> B -> C) (g : A -> B) (l : list A) (c : C) :
  fold_left f (map g l) c = fold_left (fun acc a => f acc (g a)) l c.
Proof. revert c. induction l as [|a l IH]; intros c; [reflexivity|apply IH]. Qed.

Lemma SensitiveDetector_event_spec (collectionID eventID : Z) (steps : list G4Step)
  (sd : SensitiveDetector.t) :
  SensitiveDetector_event collectionID eventID steps sd
  = Some {| SensitiveDetector.SensitiveDetectorName :=
              SensitiveDetector.SensitiveDetectorName sd;
            SensitiveDetector.collectionName := SensitiveDetector.collectionName sd;
            SensitiveDetector.fHitsCollection :=
              Some (map (SensitiveDetector.make_hit eventID)
                      (List.filter kept_by_SensitiveDetector steps));
            SensitiveDetector.fHCID :=
              if (SensitiveDetector.fHCID sd <? 0)%Z then collectionID
              else SensitiveDetector.fHCID sd |}.
Proof.
  unfold SensitiveDetector_event.
  now rewrite (SensitiveDetector_steps_spec eventID steps
                 (SensitiveDetector.Initialize collectionID sd) [] eq_refl).
Qed.

End EventFacts.

(** X6.  One event of the generic sensitive detector: after
    [Initialize], whatever steps arrive, no call of [ProcessHits]
    fails, and the collection ends as the hits of exactly the steps
    whose deposit fails the test [edep <= 0], a NaN deposit included,
    in the order of the steps and each stamped with the event number. *)
Theorem SensitiveDetector_event_hits :
  forall (collectionID eventID : Z) (steps : list G4Step) (sd : SensitiveDetector.t),
  exists sd' : SensitiveDetector.t,
    Event.SensitiveDetector_event collectionID eventID steps sd = Some sd'
    /\ SensitiveDetector.fHitsCollection sd'
       = Some (map (SensitiveDetector.make_hit eventID)
                 (List.filter Event.kept_by_SensitiveDetector steps))
    /\ SensitiveDetector.entries sd'
       = length (List.filter Event.kept_by_SensitiveDetector steps).
Proof.
  intros collectionID eventID steps sd. eexists.
  split; [apply SensitiveDetector_event_spec|].
  split; [reflexivity|].
  unfold SensitiveDetector.entries. cbn [SensitiveDetector.fHitsCollection].
  apply length_map.
Qed.

(** X7.  One event of the tracker of the B2a example: after
    [Initialize] no call of [ProcessHits] fails, and the collection ends
    as the hits of exactly the steps whose deposit is not equal to 0, in
    step order.  The total [EndOfEvent] then prints is the sum of those
    deposits, taken from 0 in that order, divided by [keV]. *)
Theorem TrackerSD_event_hits :
  forall (steps : list G4Step) (sd : TrackerSD.t),
  exists sd' : TrackerSD.t,
    Event.TrackerSD_event steps sd = Some sd'
    /\ TrackerSD.fHitsCollection sd'
       = Some (map TrackerSD.make_hit (List.filter Event.kept_by_TrackerSD steps))
    /\ TrackerSD.printed_totalEdep sd'
       = (Exact.fsum (map TotalEnergyDeposit
                        (List.filter Event.kept_by_TrackerSD steps))
          / Units.keV)%float.
Proof.
  intros steps sd. eexists.
  split.
  { unfold Event.TrackerSD_event.
    now rewrite (TrackerSD_steps_spec steps (TrackerSD.Initialize sd) [] eq_refl). }
  split; [reflexivity|].
  unfold TrackerSD.printed_totalEdep, TrackerSD.totalEdep, Exact.fsum.
  cbn [TrackerSD.fHitsCollection app].
  now rewrite !fold_left_map.
Qed.

(** X8.  Before the first [Initialize] the hits collection is the null
    pointer of the constructor.  Either detector then gets through a
    sequence of steps unchanged when it keeps none of them, and
    dereferences the null pointer at the first step it would keep. *)
Theorem ProcessHits_before_Initialize :
  forall (name hcName : string) (eventID : Z) (steps : list G4Step),
    Event.SensitiveDetector_steps eventID steps (SensitiveDetector.new name hcName)
    = (if existsb Event.kept_by_SensitiveDetector steps then None
       else Some (SensitiveDetector.new name hcName))
    /\ Event.TrackerSD_steps steps (TrackerSD.new name hcName)
       = (if existsb Event.kept_by_TrackerSD steps then None
          else Some (TrackerSD.new name hcName)).
Proof.
  intros name hcName eventID steps. split.
  - induction steps as [|step rest IH]; [reflexivity|].
    cbn [Event.SensitiveDetector_steps existsb].
    unfold SensitiveDetector.ProcessHits, Event.kept_by_SensitiveDetector at 1.
    destruct (TotalEnergyDeposit step <=? 0)%float; [exact IH|reflexivity].
  - induction steps as [|step rest IH]; [reflexivity|].
    cbn [Event.TrackerSD_steps existsb].
    unfold TrackerSD.ProcessHits, Event.kept_by_TrackerSD at 1.
    destruct (TotalEnergyDeposit step =? 0)%float; [exact IH|reflexivity].
Qed.

(** X9.  Over successive events the generic detector starts a new
    collection at each [Initialize], so after the last event the
    collection holds the hits of that event only; and the collection id
    the detector manager gave at the first event, when it is not
    negative, is kept for all later events whatever the manager answers
    then. *)
Theorem SensitiveDetector_events_keep_first_id :
  forall (name hcName : string) (c0 e0 : Z) (steps0 : list G4Step)
         (events : list (Z * Z * list G4Step)) (c e : Z) (steps : list G4Step),
    0 <= c0 ->
    exists sd' : SensitiveDetector.t,
      Event.SensitiveDetector_events
        ((c0, e0, steps0) :: events ++ [(c, e, steps)])
        (SensitiveDetector.new name hcName) = Some sd'
      /\ SensitiveDetector.fHCID sd' = c0
      /\ SensitiveDetector.fHitsCollection sd'
         = Some (map (SensitiveDetector.make_hit e)
                   (List.filter Event.kept_by_SensitiveDetector steps)).
Proof.
  intros name hcName c0 e0 steps0 events c e steps Hc0.
  cbn [Event.SensitiveDetector_events].
  rewrite SensitiveDetector_event_spec.
  cbn [SensitiveDetector.new SensitiveDetector.fHCID
       SensitiveDetector.SensitiveDetectorName SensitiveDetector.collectionName Z.ltb
       Z.compare].
  set (sd1 := SensitiveDetector.mk _ _ _ _).
  assert (H1 : SensitiveDetector.fHCID sd1 = c0) by reflexivity.
  clearbody sd1. revert sd1 H1.
  induction events as [|[[c1 e1] steps1] events IH]; intros sd1 H1.
  - cbn [app Event.SensitiveDetector_events]. rewrite SensitiveDetector_event_spec.
    eexists. split; [reflexivity|].
    cbn [SensitiveDetector.fHCID SensitiveDetector.fHitsCollection].
    rewrite H1. split; [|reflexivity].
    destruct (c0 <? 0) eqn:E; [apply Z.ltb_lt in E; lia|reflexivity].
  - cbn [app Event.SensitiveDetector_events]. rewrite SensitiveDetector_event_spec.
    apply IH. cbn [SensitiveDetector.fHCID]. rewrite H1.
    destruct (c0 <? 0) eqn:E; [apply Z.ltb_lt in E; lia|reflexivity].
Qed.

Lemma SensitiveDetector_events_keep_first_id_witness :
  exists sd' : SensitiveDetector.t,
    Event.SensitiveDetector_events
      ((3, 0, [electron_step 1]) :: [] ++ [(-1, 1, [electron_step 0; electron_step 2])])
      (SensitiveDetector.new "Phantom_SD" "Phantom_HC") = Some sd'
    /\ SensitiveDetector.fHCID sd' = 3
    /\ SensitiveDetector.fHitsCollection sd'
       = Some (map (SensitiveDetector.make_hit 1)
                 (List.filter Event.kept_by_SensitiveDetector
                    [electron_step 0; electron_step 2])).
Proof.
  apply (SensitiveDetector_events_keep_first_id
           "Phantom_SD" "Phantom_HC" 3 0 [electron_step 1] [] (-1) 1
           [electron_step 0; electron_step 2]).
  lia.
Defined.

(** ** Sensitive volumes of a GDML geometry *)
Section ConstructFacts.
Import DetectorConstruction.

Lemma marks_at_volume_marks (parser : G4GDMLParser) (lv : G4LogicalVolume) :
  marks_at (Some parser) lv = volume_marks parser lv.
Proof.
  unfold marks_at, volume_marks, SensDet_entries.
  destruct (GetVolumeAuxiliaryInformation parser lv) as [auxList|]; [|reflexivity].
  induction auxList as [|aux rest IH]; [reflexivity|].
  cbn [flat_map List.filter].
  destruct (String.eqb (aux_type aux) "SensDet"); cbn [length repeat app];
    now rewrite IH.
Qed.

Lemma flat_map_flat_map {A B C} (f : A -> list B) (g : B -> list C) (l : list A) :
  flat_map g (flat_map f l) = flat_map (fun a => flat_map g (f a)) l.
Proof.
  induction l as [|a l IH]; [reflexivity|].
  cbn [flat_map]. now rewrite flat_map_app, IH.
Qed.

(** The traversal visits the tree in the order of [subvolumes]. *)
Lemma marks_subvolumes (parser : G4GDMLParser) (lv : G4LogicalVolume) :
  marks (Some parser) lv = flat_map (volume_marks parser) (subvolumes lv).
Proof.
  induction lv as [a n ds IH] using G4LogicalVolume_daughters_ind.
  cbn [marks subvolumes flat_map]. rewrite marks_at_volume_marks. f_equal.
  rewrite flat_map_flat_map.
  induction IH as [|pv rest Hpv _ IHrest]; [reflexivity|].
  cbn [flat_map]. now rewrite Hpv, IHrest.
Qed.

Lemma LoadGDML_mark_all (parsed : G4GDMLParser) (d : t) :
  LoadGDML parsed d
  = mark_all (flat_map (volume_marks parsed) (subvolumes (WorldVolume parsed)))
      {| fGdmlFile := fGdmlFile d; fParser := Some parsed;
         fWorldLogical := Some (WorldVolume parsed);
         fSensitiveVolumes := fSensitiveVolumes d;
         fLogicalVolumes := fLogicalVolumes d |}.
Proof.
  unfold LoadGDML. rewrite FindSensitiveVolumes_mark_all.
  cbn [fParser]. now rewrite marks_subvolumes.
Qed.

Lemma fold_insert_snoc (ms : list (string * positive)) (kv : string * positive)
  (m : gmap string positive) :
  fold_left (fun m kv => <[fst kv := snd kv]> m) (ms ++ [kv]) m
  = <[fst kv := snd kv]> (fold_left (fun m kv => <[fst kv := snd kv]> m) ms m).
Proof. now rewrite fold_left_app. Qed.

(** The keys of the map after marking: those it had and those marked. *)
Lemma fold_insert_is_Some (ms : list (string * positive)) (m : gmap string positive)
  (k : string) :
  is_Some (fold_left (fun m kv => <[fst kv := snd kv]> m) ms m !! k)
  <-> is_Some (m !! k) \/ In k (map fst ms).
Proof.
  induction ms as [|kv ms IH] using rev_ind.
  - cbn. tauto.
  - rewrite fold_insert_snoc, map_app, in_app_iff. cbn [map In].
    destruct (decide (fst kv = k)) as [E|E].
    + subst k. rewrite lookup_insert_eq. split; [intros _|intros _; eauto].
      right. right. now left.
    + rewrite lookup_insert_ne by exact E. rewrite IH. tauto.
Qed.

Lemma repeat_snoc {A} (x : A) (n : nat) : repeat x (S n) = repeat x n ++ [x].
Proof. induction n as [|n IH]; [reflexivity|]. cbn [repeat app] in *. now rewrite <- IH. Qed.

Lemma fold_insert_repeat (k : string) (a : positive) (n : nat)
  (m : gmap string positive) :
  fold_left (fun m kv => <[fst kv := snd kv]> m) (repeat (k, a) n) m
  = if Nat.eqb n 0 then m else <[k := a]> m.
Proof.
  induction n as [|n IH]; [reflexivity|].
  rewrite repeat_snoc, fold_insert_snoc, IH. cbn [fst snd Nat.eqb].
  destruct (Nat.eqb n 0); [reflexivity|]. apply insert_insert_eq.
Qed.

(** A name is bound to the last volume marked under it. *)
Lemma fold_insert_last (parser : G4GDMLParser) (name : string)
  (vols : list G4LogicalVolume) (m : gmap string positive) :
  fold_left (fun m kv => <[fst kv := snd kv]> m)
    (flat_map (volume_marks parser) vols) m !! name
  = match last (tagged_as parser name vols) with
    | Some lv => Some (GetAddress lv)
    | None => m !! name
    end.
Proof.
  induction vols as [|lv vols IH] using rev_ind; [reflexivity|].
  rewrite flat_map_app, fold_left_app. cbn [flat_map]. rewrite app_nil_r.
  unfold volume_marks at 1. rewrite fold_insert_repeat.
  unfold tagged_as in *. rewrite List.filter_app. cbn [List.filter].
  destruct (Nat.eqb (SensDet_entries parser lv) 0) eqn:E; cbn [negb].
  - rewrite andb_false_r, app_nil_r. exact IH.
  - rewrite andb_true_r.
    destruct (String.eqb (GetName lv) name) eqn:En.
    + apply String.eqb_eq in En. subst name.
      now rewrite last_snoc, lookup_insert_eq.
    + apply String.eqb_neq in En.
      rewrite app_nil_r, lookup_insert_ne by exact En. exact IH.
Qed.

End ConstructFacts.

(** X10.  Loading a GDML geometry into a new detector construction
    lists the sensitive volumes in the order of the traversal, parent
    before daughters and daughters in their order: each volume of the
    tree gives its name once per auxiliary entry of type [SensDet] it
    carries, so a volume with two such entries is listed twice and one
    with none is not listed. *)
Theorem LoadGDML_lists_tagged_volumes :
  forall (gdmlFile : string) (parsed : DetectorConstruction.G4GDMLParser),
    DetectorConstruction.fSensitiveVolumes
      (DetectorConstruction.LoadGDML parsed (DetectorConstruction.new gdmlFile))
    = flat_map
        (fun lv =>
           repeat (DetectorConstruction.GetName lv)
             (DetectorConstruction.SensDet_entries parsed lv))
        (DetectorConstruction.subvolumes (DetectorConstruction.WorldVolume parsed)).
Proof.
  intros gdmlFile parsed. rewrite LoadGDML_mark_all.
  cbn [DetectorConstruction.mark_all DetectorConstruction.fSensitiveVolumes
       DetectorConstruction.new app].
  induction (DetectorConstruction.subvolumes (DetectorConstruction.WorldVolume parsed))
    as [|lv vols IH]; [reflexivity|].
  cbn [flat_map]. rewrite map_app, IH. f_equal.
  unfold DetectorConstruction.volume_marks.
  induction (DetectorConstruction.SensDet_entries parsed lv) as [|n IHn];
    [reflexivity|].
  cbn [repeat map fst]. now rewrite IHn.
Qed.

(** X11.  After [Construct] on a new detector construction, with a
    GDML file or without, every name in the list of sensitive volumes
    is a key of the map of logical volumes.  [ConstructSDandField]
    therefore attaches every detector it registers: its test
    [fLogicalVolumes.count(name)] never fails. *)
Theorem ConstructSDandField_attaches_every_detector :
  forall (gdmlFile : string) (parsed : DetectorConstruction.G4GDMLParser)
         (world phantom : positive),
    let d :=
      DetectorConstruction.Construct parsed world phantom
        (DetectorConstruction.new gdmlFile) in
    length (DetectorConstruction.ConstructSDandField d)
    = length (DetectorConstruction.fSensitiveVolumes d)
    /\ forall (sdName : string) (lv : option positive),
         In (sdName, lv) (DetectorConstruction.ConstructSDandField d) ->
         lv <> None.
Proof.
  intros gdmlFile parsed world phantom d.
  split; [apply length_map|].
  intros sdName lv Hin.
  unfold DetectorConstruction.ConstructSDandField in Hin.
  apply in_map_iff in Hin. destruct Hin as (name & Heq & Hin).
  injection Heq as _ <-.
  assert (H : is_Some (DetectorConstruction.fLogicalVolumes d !! name)).
  { subst d. unfold DetectorConstruction.Construct in *.
    cbn [DetectorConstruction.new DetectorConstruction.fGdmlFile] in *.
    destruct (negb (String.eqb gdmlFile "")).
    - rewrite LoadGDML_mark_all in *.
      cbn [DetectorConstruction.mark_all DetectorConstruction.fSensitiveVolumes
           DetectorConstruction.fLogicalVolumes DetectorConstruction.new app] in *.
      apply fold_insert_is_Some. now right.
    - cbn in Hin. destruct Hin as [<- | []].
      cbn [DetectorConstruction.ConstructDefaultGeometry
           DetectorConstruction.fLogicalVolumes DetectorConstruction.new].
      rewrite lookup_insert_eq. eauto. }
  destruct H as [a Ha]. rewrite Ha. discriminate.
Qed.

(** X12.  When several volumes of a GDML geometry with a [SensDet]
    entry share a name, the map keeps the last of them in traversal
    order: every detector registered under that name is attached to
    that one volume, and the earlier volumes of the name get none.  A
    name no tagged volume has is not in the map. *)
Theorem LoadGDML_binds_last_volume_of_a_name :
  forall (gdmlFile : string) (parsed : DetectorConstruction.G4GDMLParser)
         (name : string),
    let d := DetectorConstruction.LoadGDML parsed (DetectorConstruction.new gdmlFile) in
    DetectorConstruction.fLogicalVolumes d !! name
    = DetectorConstruction.GetAddress
        <$> last (DetectorConstruction.tagged_as parsed name
                    (DetectorConstruction.subvolumes
                       (DetectorConstruction.WorldVolume parsed))).
Proof.
  intros gdmlFile parsed name d. subst d. rewrite LoadGDML_mark_all.
  cbn [DetectorConstruction.mark_all DetectorConstruction.fLogicalVolumes
       DetectorConstruction.new].
  rewrite fold_insert_last.
  now destruct (last _).
Qed.

(** ** The command line *)
Section MainFacts.
Import Main.
Local Open Scope string_scope.

Lemma parse_without_help_or_threads (n : nat) :
  forall (args : list string) (o : options),
    (length args <= n)%nat ->
    forallb (fun arg => negb (help_or_threads arg)) args = true ->
    exists o', parse args o = Parsed o' /\ nThreads o' = nThreads o.
Proof.
  induction n as [|n IH]; intros args o Hlen Hargs.
  - destruct args; [|cbn in Hlen; lia]. now exists o.
  - destruct args as [|arg rest]; [now exists o|].
    cbn [forallb] in Hargs. apply andb_prop in Hargs. destruct Hargs as [Harg Hrest].
    unfold help_or_threads in Harg. apply negb_true_iff, orb_false_elim in Harg.
    destruct Harg as [Hh Ht].
    assert (Hr : (length rest <= n)%nat) by (cbn in Hlen; lia).
    assert (Hskip : forall o1, nThreads o1 = nThreads o ->
              exists o', parse rest o1 = Parsed o' /\ nThreads o' = nThreads o).
    { intros o1 H1. destruct (IH rest o1 Hr Hrest) as (o' & Hp & Hn).
      exists o'. split; [exact Hp|congruence]. }
    assert (Hvalue : forall (f : string -> options -> options),
              (forall v o1, nThreads (f v o1) = nThreads o1) ->
              exists o',
                match rest with
                | value :: rest' => parse rest' (f value o)
                | [] => parse rest o
                end = Parsed o' /\ nThreads o' = nThreads o).
    { intros f Hf. destruct rest as [|value rest']; [now exists o|].
      cbn [forallb] in Hrest. apply andb_prop in Hrest.
      destruct (IH rest' (f value o)) as (o' & Hp & Hn);
        [cbn in Hr; lia|tauto|].
      exists o'. split; [exact Hp|]. now rewrite Hn, Hf. }
    cbn [parse]. rewrite Hh.
    destruct (is_option arg "-g" "--gdml"); [now apply Hvalue|].
    destruct (is_option arg "-p" "--physics"); [now apply Hvalue|].
    rewrite Ht.
    destruct (is_option arg "-o" "--output"); [now apply Hvalue|].
    destruct (is_option arg "-v" "--vis"); [now apply Hskip|].
    destruct (is_option arg "-i" "--interactive"); [now apply Hskip|].
    destruct (not_dashed arg); now apply Hskip.
Qed.

Lemma not_dashed_not_option (arg short long : string) :
  not_dashed arg = true -> not_dashed short = false -> not_dashed long = false ->
  is_option arg short long = false.
Proof.
  intros Ha Hs Hl. unfold is_option. apply orb_false_intro; apply String.eqb_neq;
    intros ->; congruence.
Qed.

Lemma parse_value (rest : list string) (o : options) (gdml physics output : string) :
  parse ("-g" :: gdml :: rest) o = parse rest (set_gdmlFile gdml o)
  /\ parse ("-p" :: physics :: rest) o = parse rest (set_physicsName physics o)
  /\ parse ("-o" :: output :: rest) o = parse rest (set_outputDir output o).
Proof. repeat split. Qed.

Lemma parse_threads (rest : list string) (o : options) (threads : string) (n : Z) :
  stoi threads = Converted n ->
  parse ("-t" :: threads :: rest) o = parse rest (set_nThreads n o).
Proof. intros H. cbn [parse]. now rewrite H. Qed.

Lemma parse_flag (rest : list string) (o : options) :
  parse ("-v" :: rest) o = parse rest (set_useVis o)
  /\ parse ("-i" :: rest) o = parse rest (set_interactive o).
Proof. split; reflexivity. Qed.

Lemma parse_macro (macro : string) (o : options) :
  not_dashed macro = true -> parse [macro] o = Parsed (set_macroFile macro o).
Proof.
  intros H. cbn [parse].
  rewrite !(not_dashed_not_option macro) by (exact H || reflexivity).
  now rewrite H.
Qed.

End MainFacts.

(** X13.  A command line in which no argument is [-h], [--help], [-t]
    or [--threads] is always read to its end: the usage text is not
    printed, nothing is thrown, and the thread count stays at its
    initial value, whatever else the arguments are: options [main]
    does not know and an option left without its value at the end of the
    line are passed over in silence. *)
Theorem parse_completes_without_help_or_threads :
  forall (args : list string) (o : Main.options),
    forallb (fun arg => negb (Main.help_or_threads arg)) args = true ->
    exists o' : Main.options,
      Main.parse args o = Main.Parsed o' /\ Main.nThreads o' = Main.nThreads o.
Proof.
  intros args o H. now apply (parse_without_help_or_threads (length args)).
Qed.

Lemma parse_completes_without_help_or_threads_witness :
  exists o' : Main.options,
    Main.parse ["--verbose"; "run.mac"; "-o"; "out"; "-g"]%string Main.defaults
    = Main.Parsed o'
    /\ Main.nThreads o' = Main.nThreads Main.defaults.
Proof.
  apply (parse_completes_without_help_or_threads
           ["--verbose"; "run.mac"; "-o"; "out"; "-g"]%string Main.defaults).
  reflexivity.
Defined.

(** X14.  Every setting of the options can be given on the command
    line: naming each option once with its value, the flags when they
    are set and the macro last is read back as exactly those options.
    The values of [-g], [-p] and [-o] may be any text, one that looks
    like an option included; the macro must not begin with a dash and
    the thread count must be a text [std::stoi] converts. *)
Theorem parse_command_line :
  forall (o : Main.options) (threads : string),
    Main.stoi threads = Main.Converted (Main.nThreads o) ->
    Main.not_dashed (Main.macroFile o) = true ->
    Main.parse (Main.command_line o threads) Main.defaults = Main.Parsed o.
Proof.
  intros [macro gdml physics output n vis inter] threads Hn Hmacro.
  cbn [Main.nThreads Main.macroFile] in Hn, Hmacro.
  unfold Main.command_line.
  cbn [Main.gdmlFile Main.physicsName Main.outputDir Main.useVis Main.interactive
       Main.macroFile app].
  rewrite (proj1 (parse_value _ _ gdml physics output)).
  rewrite (proj1 (proj2 (parse_value _ _ gdml physics output))).
  rewrite (parse_threads _ _ threads n Hn).
  rewrite (proj2 (proj2 (parse_value _ _ gdml physics output))).
  destruct vis, inter; cbn [app];
    rewrite ?(proj1 (parse_flag _ _)), ?(proj2 (parse_flag _ _)),
      (parse_macro macro _ Hmacro);
    reflexivity.
Qed.

Lemma parse_command_line_witness :
  Main.parse
    (Main.command_line
       {| Main.macroFile := "run.mac"; Main.gdmlFile := "-h";
          Main.physicsName := "QGSP_BIC"; Main.outputDir := "out";
          Main.nThreads := 4; Main.useVis := true; Main.interactive := false |}
       " +4 threads")
    Main.defaults
  = Main.Parsed
      {| Main.macroFile := "run.mac"; Main.gdmlFile := "-h";
         Main.physicsName := "QGSP_BIC"; Main.outputDir := "out";
         Main.nThreads := 4; Main.useVis := true; Main.interactive := false |}.
Proof.
  apply (parse_command_line
           {| Main.macroFile := "run.mac"; Main.gdmlFile := "-h";
              Main.physicsName := "QGSP_BIC"; Main.outputDir := "out";
              Main.nThreads := 4; Main.useVis := true; Main.interactive := false |}
           " +4 threads"); reflexivity.
Defined.

(** ** Addition of doubles commutes *)
Section Commutation.
Local Open Scope float_scope.

Lemma SFadd_comm (X Y : spec_float) : SF64add X Y = SF64add Y X.
Proof.
  unfold SF64add, SFadd.
  destruct X as [sx|sx| |sx mx ex], Y as [sy|sy| |sy my ey];
    try reflexivity; try (destruct sx, sy; reflexivity).
  now rewrite (Z.min_comm ex ey), Z.add_comm.
Qed.

Lemma add_comm (x y : float) : x + y = y + x.
Proof. apply Prim2SF_inj. rewrite !add_spec. apply SFadd_comm. Qed.

(** From zero, two doubles add up to the same in either order. *)
Lemma add_from_zero_swap (a b : float) : 0 + a + b = 0 + b + a.
Proof.
  apply Prim2SF_inj. rewrite !add_spec, Prim2SF_zero.
  destruct (Prim2SF a) as [sa|sa| |sa ma ea], (Prim2SF b) as [sb|sb| |sb mb eb];
    try reflexivity; try (destruct sa; reflexivity); try (destruct sb; reflexivity);
    try (destruct sa, sb; reflexivity).
  change (SF64add (S754_zero false) (S754_finite sa ma ea)) with (S754_finite sa ma ea).
  change (SF64add (S754_zero false) (S754_finite sb mb eb)) with (S754_finite sb mb eb).
  apply SFadd_comm.
Qed.

End Commutation.

(** X15.  A run of two events gives the same two sums and the same
    report whichever of the two events ends first, for any two
    deposits, rounding, infinities and NaN included: addition of doubles
    commutes, and from zero two additions are not enough for the order
    to show. *)
Theorem two_events_in_either_order :
  forall (e1 e2 : float) (p : RunAction.process),
    Run.same_results (Run.sequential [e1; e2] p) (Run.sequential [e2; e1] p).
Proof.
  intros e1 e2 p.
  destruct (sequential_spec [e1; e2] p) as (H1 & H2 & H3).
  destruct (sequential_spec [e2; e1] p) as (K1 & K2 & K3).
  assert (S1 : Exact.fsum [e1; e2] = Exact.fsum [e2; e1])
    by apply add_from_zero_swap.
  assert (S2 : Exact.fsum (map Exact.square [e1; e2])
               = Exact.fsum (map Exact.square [e2; e1]))
    by apply add_from_zero_swap.
  unfold Run.same_results.
  rewrite H3, K3, H1, H2, K1, K2, S1, S2. repeat split.
Qed.

(** X16.  A run shared by two workers gives the same merged sums and
    the same report whichever worker merges first, for any events of
    the two, a worker without events included. *)
Theorem two_workers_in_either_order :
  forall (shard1 shard2 : list float) (p : RunAction.process),
    Run.same_results (Run.multithreaded [shard1; shard2] p)
                     (Run.multithreaded [shard2; shard1] p).
Proof.
  intros shard1 shard2 p.
  destruct (multithreaded_spec [shard1; shard2] p) as (H1 & H2 & H3).
  destruct (multithreaded_spec [shard2; shard1] p) as (K1 & K2 & K3).
  assert (S : forall f : list float -> float,
             Exact.fsum (Exact.merged_sums f [shard1; shard2])
             = Exact.fsum (Exact.merged_sums f [shard2; shard1])).
  { intros f. rewrite !merged_sums_cons.
    destruct shard1, shard2; try reflexivity. apply add_from_zero_swap. }
  assert (N : Run.nofEvents (concat [shard1; shard2])
              = Run.nofEvents (concat [shard2; shard1])).
  { unfold Run.nofEvents. cbn [concat]. rewrite !app_nil_r, !length_app. lia. }
  unfold Run.same_results.
  rewrite H3, K3, H1, H2, K1, K2, N, !S. repeat split.
Qed.

(** ** The sign of the reported rms *)
Section SignFacts.
Import Sign.

Lemma shr_1_nonneg (mrs : shr_record) : 0 <= shr_m mrs -> 0 <= shr_m (shr_1 mrs).
Proof.
  destruct mrs as [m r s]. cbn [shr_m]. intros H. unfold shr_1.
  destruct m as [|[q|q|]|q]; cbn [shr_m]; lia.
Qed.

Lemma iter_pos_invariant {A} (P : A -> Prop) (f : A -> A) :
  (forall a, P a -> P (f a)) ->
  forall (n : positive) (a : A), P a -> P (SpecFloat.iter_pos f n a).
Proof.
  intros Hf. induction n as [n IH|n IH|]; intros a Ha; cbn [SpecFloat.iter_pos].
  - apply IH, IH, Hf, Ha.
  - apply IH, IH, Ha.
  - apply Hf, Ha.
Qed.

Lemma shr_fexp_nonneg (m e : Z) (l : location) :
  0 <= m -> 0 <= shr_m (fst (shr_fexp prec emax m e l)).
Proof.
  intros Hm. unfold shr_fexp, shr.
  assert (H0 : 0 <= shr_m (shr_record_of_loc m l)).
  { destruct l as [|[]]; exact Hm. }
  destruct (fexp prec emax (Zdigits2 m + e) - e) as [|n|n]; cbn [fst]; try exact H0.
  apply (iter_pos_invariant (fun mrs => 0 <= shr_m mrs)); [apply shr_1_nonneg|exact H0].
Qed.

Lemma round_nearest_even_nonneg (m : Z) (l : location) :
  0 <= m -> 0 <= round_nearest_even m l.
Proof.
  intros Hm. unfold round_nearest_even.
  destruct l as [|[]]; try destruct (Z.even m); lia.
Qed.

(** Rounding a non-negative mantissa gives a zero, a finite number or
    an infinity of the sign asked for. *)
Lemma binary_round_aux_sign (m e : Z) (l : location) :
  0 <= m -> positive_or_zero (binary_round_aux prec emax false m e l) = true.
Proof.
  intros Hm. unfold binary_round_aux.
  pose proof (shr_fexp_nonneg m e l Hm) as H1.
  destruct (shr_fexp prec emax m e l) as [mrs' e']. cbn [fst] in H1.
  pose proof (shr_fexp_nonneg _ e' loc_Exact
                (round_nearest_even_nonneg _ (loc_of_shr_record mrs') H1)) as H2.
  destruct (shr_fexp prec emax _ e' loc_Exact) as [mrs'' e'']. cbn [fst] in H2.
  destruct (shr_m mrs'') as [|q|q]; [reflexivity| |lia].
  now destruct (e'' <=? emax - prec).
Qed.

Lemma SFsqrt_sign (X : spec_float) :
  positive_or_zero X = true -> positive_or_zero (SF64sqrt X) = true.
Proof.
  destruct X as [[]|[]| |[] m e]; try discriminate; try reflexivity.
  intros _. unfold SF64sqrt, SFsqrt, SFsqrt_core_binary.
  match goal with |- context [Z.sqrtrem ?a] => set (m' := a) end.
  pose proof (Z.sqrtrem_sqrt m') as Hs.
  destruct (Z.sqrtrem m') as [q r]. cbn [fst] in Hs. subst q.
  apply binary_round_aux_sign, Z.sqrt_nonneg.
Qed.

Lemma SFdiv_sign (X Y : spec_float) :
  positive_or_zero X = true -> positive_finite Y = true ->
  positive_or_zero (SF64div X Y) = true.
Proof.
  destruct X as [[]|[]| |[] mx ex]; try discriminate;
    destruct Y as [sy|sy| |[] my ey]; try discriminate; try reflexivity.
  intros _ _. unfold SF64div, SFdiv, SFdiv_core_binary.
  match goal with |- context [Z.div_eucl ?a ?b] => set (m' := a) end.
  assert (Hm : 0 <= m').
  { subst m'. destruct (_ - _) as [|s|s]; try lia. apply Z.shiftl_nonneg. lia. }
  pose proof (Z.div_eucl_eq m' (Zpos my) ltac:(lia)) as Hq.
  pose proof (Z.mod_pos_bound m' (Zpos my) ltac:(lia)) as Hr.
  unfold Z.modulo in Hr.
  destruct (Z.div_eucl m' (Zpos my)) as [q r].
  cbn [xorb]. apply binary_round_aux_sign. nia.
Qed.

(** The number of events of a run, as a double. *)
Lemma nofEvents_positive_finite (N : Z) :
  0 < N < 2 ^ 31 -> positive_finite (Prim2SF (G4double_of_G4int N)) = true.
Proof.
  intros HN. unfold G4double_of_G4int.
  destruct (Z.ltb_spec N 0); [lia|].
  rewrite of_uint63_spec.
  assert (HZ : Uint63.to_Z (Uint63.of_Z N) = N).
  { rewrite Uint63.of_Z_spec. apply Z.mod_small.
    change Uint63.wB with (2 ^ 63).
    assert (2 ^ 31 < 2 ^ 63) by (apply Z.pow_lt_mono_r; lia). lia. }
  rewrite HZ. destruct N as [|n|n]; try lia.
  unfold binary_normalize.
  pose proof (binary_round_exact false n 0 (Zpos n) 0) as He.
  assert (H53 : 2 ^ 31 < 2 ^ 53) by (apply Z.pow_lt_mono_r; lia).
  specialize (He ltac:(lia) ltac:(lia) ltac:(lia) eq_refl).
  assert (Hp : positive_or_zero (binary_round prec emax false n 0) = true).
  { unfold binary_round. destruct (shl_align _ _ _) as [mz ez].
    apply binary_round_aux_sign. lia. }
  destruct (binary_round prec emax false n 0) as [[]|[]| |[] m e];
    try discriminate; reflexivity.
Qed.

Lemma leb_zero_positive_or_zero (x : float) :
  positive_or_zero (Prim2SF x) = true -> (0 <=? x)%float = true.
Proof.
  intros H. rewrite leb_spec, Prim2SF_zero.
  destruct (Prim2SF x) as [[]|[]| |[] m e]; try discriminate; reflexivity.
Qed.

End SignFacts.

(** X17.  For a run of at least one event, the rms [EndOfRunAction]
    prints is never negative and never NaN, whatever the two sums are:
    sums that overflowed or are NaN make the variance fail the test
    [rms > 0.], and the printed value is then 0. *)
Theorem rmsEdep_never_negative :
  forall (edep edep2 : float) (nofEvents : Z),
    0 < nofEvents < 2 ^ 31 ->
    (0 <=? RunAction.rmsEdep (RunAction.statistics edep edep2 nofEvents))%float = true
    /\ ((0 <? edep2 - edep * edep / G4double_of_G4int nofEvents)%float = false ->
        Prim2SF (RunAction.rmsEdep (RunAction.statistics edep edep2 nofEvents))
        = S754_zero false).
Proof.
  intros edep edep2 N HN.
  pose proof (nofEvents_positive_finite N HN) as Hn.
  unfold RunAction.statistics. cbn [RunAction.rmsEdep].
  set (n := G4double_of_G4int N) in *.
  set (rms := (edep2 - edep * edep / n)%float).
  split.
  - apply leb_zero_positive_or_zero. rewrite div_spec.
    apply SFdiv_sign; [|exact Hn].
    destruct (0 <? rms)%float eqn:E; [|now rewrite Prim2SF_zero].
    rewrite sqrt_spec. apply SFsqrt_sign.
    rewrite ltb_spec, Prim2SF_zero in E.
    destruct (Prim2SF rms) as [[]|[]| |[] m e]; try discriminate; reflexivity.
  - intros E. rewrite E, div_spec, Prim2SF_zero.
    destruct (Prim2SF n) as [sy|sy| |[] my ey]; try discriminate. reflexivity.
Qed.

Lemma rmsEdep_never_negative_witness :
  (0 <=? RunAction.rmsEdep (RunAction.statistics infinity infinity 3))%float = true
  /\ ((0 <? infinity - infinity * infinity / G4double_of_G4int 3)%float = false ->
      Prim2SF (RunAction.rmsEdep (RunAction.statistics infinity infinity 3))
      = S754_zero false).
Proof.
  apply (rmsEdep_never_negative infinity infinity 3). lia.
Defined.

(** ** The volumes of the tracker example *)
Section ChamberFacts.
Import B2a.
Local Open Scope float_scope.

Lemma place_chamber_spec
  (trackerLV : nat) (firstPosition chamberSpacing rmaxFirst rmaxIncr halfWidth : float)
  (copyNo : Z) (d : t) (sol : list G4VSolid) (lvs : list G4LogicalVolume)
  (pvs : list G4PVPlacement) (ul : list float) (wme : option float) :
  place_chamber trackerLV firstPosition chamberSpacing rmaxFirst rmaxIncr halfWidth
    copyNo (mk_state d (mk_store sol lvs pvs ul wme))
  = (Returned tt,
     mk_state (set_chamber (length lvs) (length pvs) d)
       (mk_store
          (sol ++ [chamber_solid rmaxFirst rmaxIncr halfWidth copyNo])
          (lvs ++ [chamber_lv (fChamberMaterial d) (length sol)])
          (pvs ++ [chamber_pv trackerLV firstPosition chamberSpacing
                     (fCheckOverlaps d) (length lvs) copyNo])
          ul wme)).
Proof. reflexivity. Qed.

Lemma chamber_loop_spec
  (trackerLV : nat) (firstPosition chamberSpacing rmaxFirst rmaxIncr halfWidth : float)
  (ul : list float) (wme : option float) (count : nat) :
  forall (copyNo : Z) (d : t) (sol : list G4VSolid) (lvs : list G4LogicalVolume)
         (pvs : list G4PVPlacement),
    chamber_loop
      (place_chamber trackerLV firstPosition chamberSpacing rmaxFirst rmaxIncr halfWidth)
      count copyNo (mk_state d (mk_store sol lvs pvs ul wme))
    = (Returned tt,
       mk_state
         match count with
         | O => d
         | S k => set_chamber (length lvs + k) (length pvs + k) d
         end
         (mk_store
            (sol ++ map (fun i => chamber_solid rmaxFirst rmaxIncr halfWidth
                                    (copyNo + Z.of_nat i)%Z)
                      (seq 0 count))
            (lvs ++ map (fun i => chamber_lv (fChamberMaterial d) (length sol + i))
                      (seq 0 count))
            (pvs ++ map (fun i => chamber_pv trackerLV firstPosition chamberSpacing
                                    (fCheckOverlaps d) (length lvs + i)
                                    (copyNo + Z.of_nat i)%Z)
                      (seq 0 count))
            ul wme)).
Proof.
  induction count as [|k IH]; intros copyNo d sol lvs pvs.
  - cbn [chamber_loop seq map]. now rewrite !app_nil_r.
  - cbn [chamber_loop]. unfold bind at 1. rewrite place_chamber_spec, IH.
    f_equal. f_equal.
    + destruct k as [|k'].
      * now rewrite !Nat.add_0_r.
      * rewrite !length_app. cbn [length].
        replace (length lvs + 1 + k')%nat with (length lvs + S k')%nat by lia.
        replace (length pvs + 1 + k')%nat with (length pvs + S k')%nat by lia.
        reflexivity.
    + cbn [fChamberMaterial fCheckOverlaps set_chamber].
      rewrite <- !app_assoc. cbn [app seq map].
      rewrite <- !seq_shift, !map_map, !length_app. cbn [length].
      rewrite Z.add_0_r, !Nat.add_0_r.
      f_equal; do 2 f_equal; apply map_ext; intros i.
      * now replace (copyNo + 1 + Z.of_nat i)%Z with (copyNo + Z.of_nat (S i))%Z by lia.
      * now replace (length sol + 1 + i)%nat with (length sol + S i)%nat by lia.
      * replace (copyNo + 1 + Z.of_nat i)%Z with (copyNo + Z.of_nat (S i))%Z by lia.
        now replace (length lvs + 1 + i)%nat with (length lvs + S i)%nat by lia.
Qed.


Lemma alter_after {A} (f : A -> A) (l1 l2 : list A) (i j : nat) :
  i = (length l1 + j)%nat -> alter f i (l1 ++ l2) = l1 ++ alter f j l2.
Proof. intros ->. apply alter_app_r. Qed.

(** What the five calls after the chamber loop do to the list of
    logical volumes. *)
Lemma decorate_volumes (lvs : list G4LogicalVolume) (w0 t0 tr0 : G4LogicalVolume)
  (g : nat -> G4LogicalVolume) (k : nat)
  (f0 f1 f2 f3 f4 : G4LogicalVolume -> G4LogicalVolume) :
  alter f4 (length lvs + 1 + 1 + 1 + k)%nat
    (alter f3 (length lvs + 1 + 1 + 1 + k)%nat
       (alter f2 (length lvs + 1 + 1)%nat
          (alter f1 (length lvs + 1)%nat
             (alter f0 (length lvs)
                ((((lvs ++ [w0]) ++ [t0]) ++ [tr0]) ++ map g (seq 0 (S k)))))))
  = lvs ++ [f0 w0; f1 t0; f2 tr0] ++ map g (seq 0 k) ++ [f4 (f3 (g k))].
Proof.
  rewrite seq_S, map_app, <- !app_assoc. cbn [app map Nat.add].
  rewrite (alter_after f0 lvs _ _ 0) by lia.
  rewrite (alter_after f1 lvs _ _ 1) by lia.
  rewrite (alter_after f2 lvs _ _ 2) by lia.
  rewrite (alter_after f3 lvs _ _ (S (S (S k)))) by lia.
  rewrite (alter_after f4 lvs _ _ (S (S (S k)))) by lia.
  f_equal. cbn [alter list_alter]. do 3 f_equal.
  assert (Hk : k = (length (map g (seq 0 k)) + 0)%nat)
    by (rewrite length_map, length_seq; lia).
  rewrite (alter_after f3 _ _ _ 0 Hk). cbn [alter list_alter].
  now rewrite (alter_after f4 _ _ _ 0 Hk).
Qed.

Lemma DefineVolumes_sized_returns (chamberSpacing chamberWidth : float)
  (d : t) (sol : list G4VSolid) (lvs : list G4LogicalVolume)
  (pvs : list G4PVPlacement) (ul : list float) (wme : option float) (k : nat) :
  fNbOfChambers d = Z.of_nat (S k) ->
  (chamberSpacing <? chamberWidth) = false ->
  exists (s' : state) (p0 p1 p2 : G4PVPlacement) (firstPosition : float),
    DefineVolumes_sized chamberSpacing chamberWidth
      (mk_state d (mk_store sol lvs pvs ul wme)) = (Returned (length pvs), s')
    /\ self s'
       = {| fNbOfChambers := fNbOfChambers d;
            fLogicTarget := Some (length lvs + 1)%nat;
            fLogicChamber := Some (length lvs + 3 + k)%nat;
            fTargetPV := Some (length pvs + 1)%nat;
            fChamberPV := Some (length pvs + 3 + k)%nat;
            fTargetMaterial := fTargetMaterial d;
            fChamberMaterial := fChamberMaterial d;
            fStepLimit := Some (length ul);
            fCheckOverlaps := fCheckOverlaps d |}
    /\ logicals (heap s')
       = lvs
         ++ [ {| lv_solid := length sol; lv_material := Some "G4_AIR"%string;
                 lv_name := "World"; lv_vis := Some Invisible; lv_limits := None |};
              {| lv_solid := (length sol + 1)%nat; lv_material := fTargetMaterial d;
                 lv_name := "Target"; lv_vis := Some (Colour 1 1 1);
                 lv_limits := None |};
              {| lv_solid := (length sol + 2)%nat; lv_material := Some "G4_AIR"%string;
                 lv_name := "Tracker"; lv_vis := Some (Colour 1 1 1);
                 lv_limits := None |} ]
         ++ map (fun i => chamber_lv (fChamberMaterial d) (length sol + 3 + i))
              (seq 0 k)
         ++ [ {| lv_solid := (length sol + 3 + k)%nat;
                 lv_material := fChamberMaterial d; lv_name := "Chamber_LV";
                 lv_vis := Some (Colour 1 1 0); lv_limits := Some (length ul) |} ]
    /\ placements (heap s')
       = pvs ++ [p0; p1; p2]
         ++ map (fun i => chamber_pv (length lvs + 2) firstPosition chamberSpacing
                            (fCheckOverlaps d) (length lvs + 3 + i) (Z.of_nat i))
              (seq 0 (S k))
    /\ (pv_name p0, pv_name p1, pv_name p2) = ("World", "Target", "Tracker")%string
    /\ userLimits (heap s') = ul ++ [0.5 * chamberWidth].
Proof.
  intros Hn Hcmp.
  unfold DefineVolumes_sized.
  cbv [bind get_self SetWorldMaximumExtent modify_heap new_solid
       new_G4LogicalVolume new_G4PVPlacement modify_self ret heap self solids
       logicals placements userLimits worldMaximumExtent].
  rewrite Hn, Hcmp.
  replace (0 <? Z.of_nat (S k))%Z with true by (symmetry; apply Z.ltb_lt; lia).
  rewrite Nat2Z.id.
  rewrite chamber_loop_spec.
  rewrite !length_app. cbn [length].
  cbv [SetVisAttributes update_lv modify_heap set_chamber set_target fLogicTarget
       fLogicChamber new_G4UserLimits set_fStepLimit SetUserLimits heap self
       solids logicals placements userLimits worldMaximumExtent modify_self
       fNbOfChambers fTargetPV fChamberPV fTargetMaterial fChamberMaterial
       fStepLimit fCheckOverlaps].
  eexists. eexists. eexists. eexists. eexists.
  split; [reflexivity|].
  cbn [self heap logicals placements userLimits].
  split.
  { rewrite <- Hn. cbv [fNbOfChambers]. f_equal; f_equal; lia. }
  split.
  { rewrite decorate_volumes.
    cbn [lv_solid lv_material lv_name lv_vis lv_limits chamber_lv].
    replace (length sol + 1 + 1 + 1 + k)%nat with (length sol + 3 + k)%nat by lia.
    replace (length sol + 1 + 1)%nat with (length sol + 2)%nat by lia.
    do 3 f_equal. apply map_ext. intros i. f_equal. lia. }
  split.
  { rewrite <- !app_assoc. cbn [app]. do 4 f_equal.
    apply map_ext. intros i. unfold chamber_pv.
    f_equal; try lia; try (f_equal; lia); reflexivity. }
  split; reflexivity.
Qed.

Lemma map_const_seq {A} (x : A) (a n : nat) :
  map (fun _ => x) (seq a n) = repeat x n.
Proof. revert a. induction n as [|n IH]; intros a; cbn; [reflexivity|now rewrite IH]. Qed.

Lemma map_add_seq (c a n : nat) :
  map (fun x => c + x)%nat (seq a n) = seq (c + a) n.
Proof.
  revert a. induction n as [|n IH]; intros a; cbn [seq map]; [reflexivity|].
  f_equal. rewrite IH. f_equal. lia.
Qed.

Lemma repeat_snoc_pred {A} (x : A) (n : nat) :
  (0 < n)%nat -> repeat x (n - 1) ++ [x] = repeat x n.
Proof.
  intros Hn. destruct n as [|k]; [lia|].
  replace (S k - 1)%nat with k by lia. symmetry. apply repeat_snoc.
Qed.

(** The construction with the sizes of the source, on any state that
    asks for at least one chamber. *)
Lemma DefineVolumes_returns (s : state) :
  (0 < fNbOfChambers (self s))%Z ->
  let d := self s in
  let k := (Z.to_nat (fNbOfChambers d) - 1)%nat in
  let lvs := logicals (heap s) in
  let sol := solids (heap s) in
  let ul := userLimits (heap s) in
  exists (s' : state) (p0 p1 p2 : G4PVPlacement) (firstPosition : float),
    DefineVolumes s = (Returned (length (placements (heap s))), s')
    /\ self s'
       = {| fNbOfChambers := fNbOfChambers d;
            fLogicTarget := Some (length lvs + 1)%nat;
            fLogicChamber := Some (length lvs + 3 + k)%nat;
            fTargetPV := Some (length (placements (heap s)) + 1)%nat;
            fChamberPV := Some (length (placements (heap s)) + 3 + k)%nat;
            fTargetMaterial := fTargetMaterial d;
            fChamberMaterial := fChamberMaterial d;
            fStepLimit := Some (length ul);
            fCheckOverlaps := fCheckOverlaps d |}
    /\ logicals (heap s')
       = lvs
         ++ [ {| lv_solid := length sol; lv_material := Some "G4_AIR"%string;
                 lv_name := "World"; lv_vis := Some Invisible; lv_limits := None |};
              {| lv_solid := (length sol + 1)%nat; lv_material := fTargetMaterial d;
                 lv_name := "Target"; lv_vis := Some (Colour 1 1 1);
                 lv_limits := None |};
              {| lv_solid := (length sol + 2)%nat; lv_material := Some "G4_AIR"%string;
                 lv_name := "Tracker"; lv_vis := Some (Colour 1 1 1);
                 lv_limits := None |} ]
         ++ map (fun i => chamber_lv (fChamberMaterial d) (length sol + 3 + i))
              (seq 0 k)
         ++ [ {| lv_solid := (length sol + 3 + k)%nat;
                 lv_material := fChamberMaterial d; lv_name := "Chamber_LV";
                 lv_vis := Some (Colour 1 1 0); lv_limits := Some (length ul) |} ]
    /\ placements (heap s')
       = placements (heap s) ++ [p0; p1; p2]
         ++ map (fun i => chamber_pv (length lvs + 2) firstPosition (80 * Units.cm)
                            (fCheckOverlaps d) (length lvs + 3 + i) (Z.of_nat i))
              (seq 0 (S k))
    /\ (pv_name p0, pv_name p1, pv_name p2) = ("World", "Target", "Tracker")%string
    /\ userLimits (heap s') = ul ++ [0.5 * (20 * Units.cm)].
Proof.
  destruct s as [d [sol lvs pvs ul wme]]. cbn [self heap logicals solids userLimits
                                                placements].
  intros Hn. cbv zeta. rewrite DefineVolumes_unfold.
  apply DefineVolumes_sized_returns; [lia|apply source_sizes_valid].
Qed.

Lemma step_in_force_positive (maxSteps : list float) :
  forall current, (0 <? current) = true ->
                  (0 <? step_in_force maxSteps current) = true.
Proof.
  induction maxSteps as [|maxStep rest IH]; intros current H; [exact H|].
  cbn [step_in_force fold_left]. apply IH.
  now destruct (0 <? maxStep) eqn:E.
Qed.

Lemma SetMaxSteps_spec (d : t) (sol : list G4VSolid) (lvs : list G4LogicalVolume)
  (pvs : list G4PVPlacement) (ul : list float) (wme : option float)
  (maxSteps : list float) :
  fStepLimit d = Some (length ul) ->
  forall current,
    SetMaxSteps maxSteps (mk_state d (mk_store sol lvs pvs (ul ++ [current]) wme))
    = (Returned tt,
       mk_state d
         (mk_store sol lvs pvs (ul ++ [step_in_force maxSteps current]) wme)).
Proof.
  intros Hd. induction maxSteps as [|maxStep rest IH]; intros current;
    [reflexivity|].
  cbn [SetMaxSteps step_in_force fold_left]. unfold bind at 1.
  unfold SetMaxStep, bind, get_self. cbn [self]. rewrite Hd.
  destruct (0 <? maxStep).
  - unfold SetMaxAllowedStep, modify_heap.
    cbn [self heap solids logicals placements userLimits worldMaximumExtent].
    replace (<[length ul := maxStep]> (ul ++ [current])) with (ul ++ [maxStep]).
    + apply IH.
    + replace (length ul) with (length ul + 0)%nat at 1 by lia.
      now rewrite insert_app_r.
  - cbn [ret]. apply IH.
Qed.

End ChamberFacts.

(** X18.  On any state that asks for at least one chamber
    [DefineVolumes] returns, and what it returns is the placement of
    the world, the first it creates.  It adds the logical volumes
    World, Target and Tracker and one [Chamber_LV] per chamber, and as
    many placements; the chambers are placed in the tracker, each with
    its own logical volume, with the copy numbers 0, 1, 2, ... in
    order. *)
Theorem DefineVolumes_builds_chambers :
  forall s : B2a.state,
    0 < B2a.fNbOfChambers (B2a.self s) ->
    let n := Z.to_nat (B2a.fNbOfChambers (B2a.self s)) in
    let tracker := (length (B2a.logicals (B2a.heap s)) + 2)%nat in
    exists s' : B2a.state,
      B2a.DefineVolumes s
      = (Returned (length (B2a.placements (B2a.heap s))), s')
      /\ B2a.logical_names (B2a.heap s')
         = B2a.logical_names (B2a.heap s)
           ++ ["World"; "Target"; "Tracker"]%string ++ repeat "Chamber_LV"%string n
      /\ map B2a.pv_name (B2a.placements (B2a.heap s'))
         = map B2a.pv_name (B2a.placements (B2a.heap s))
           ++ ["World"; "Target"; "Tracker"]%string ++ repeat "Chamber_PV"%string n
      /\ map B2a.pv_copyNo (B2a.chamber_placements (B2a.heap s) (B2a.heap s'))
         = map Z.of_nat (seq 0 n)
      /\ map B2a.pv_logical (B2a.chamber_placements (B2a.heap s) (B2a.heap s'))
         = seq (tracker + 1) n
      /\ map B2a.pv_mother (B2a.chamber_placements (B2a.heap s) (B2a.heap s'))
         = repeat (Some tracker) n.
Proof.
  intros s Hn n tracker.
  destruct (DefineVolumes_returns s Hn)
    as (s' & p0 & p1 & p2 & fp & Hrun & _ & Hlv & Hpv & Hnames & _).
  cbv zeta in Hlv, Hpv.
  assert (Hk : S (Z.to_nat (B2a.fNbOfChambers (B2a.self s)) - 1) = n)
    by (subst n; lia).
  rewrite Hk in Hpv.
  injection Hnames as H0 H1 H2.
  exists s'. split; [exact Hrun|].
  unfold B2a.logical_names, B2a.chamber_placements. rewrite Hlv, Hpv.
  rewrite drop_app_add. cbn [drop app]. rewrite drop_0.
  rewrite !map_app. cbn [map]. rewrite !map_app, !map_map.
  cbn [map B2a.lv_name B2a.pv_name B2a.chamber_lv B2a.chamber_pv B2a.pv_copyNo
       B2a.pv_logical B2a.pv_mother].
  rewrite H0, H1, H2, !map_const_seq.
  rewrite (repeat_snoc_pred "Chamber_LV"%string
             (Z.to_nat (B2a.fNbOfChambers (B2a.self s)))) by lia.
  split; [reflexivity|]. split; [reflexivity|]. split; [reflexivity|].
  split; [|reflexivity].
  subst tracker. rewrite map_add_seq. f_equal. lia.
Qed.

Lemma DefineVolumes_builds_chambers_witness :
  exists s' : B2a.state,
    B2a.DefineVolumes {| B2a.self := B2a.new; B2a.heap := B2a.empty_store |}
    = (Returned 0%nat, s')
    /\ B2a.logical_names (B2a.heap s')
       = ["World"; "Target"; "Tracker"; "Chamber_LV"; "Chamber_LV"; "Chamber_LV";
          "Chamber_LV"; "Chamber_LV"]%string.
Proof.
  destruct (DefineVolumes_builds_chambers
              {| B2a.self := B2a.new; B2a.heap := B2a.empty_store |} eq_refl)
    as (s' & H1 & H2 & _).
  exists s'. split; [exact H1 | exact H2].
Defined.

(** X19.  The colour of the chambers and the step limit go to the
    last chamber only.  [fLogicChamber] is overwritten at every turn of
    the chamber loop, so the two calls made through it after the loop
    reach the logical volume of the last chamber: the chambers before
    it keep no visualisation attributes and no user limits. *)
Theorem only_last_chamber_is_decorated :
  forall s : B2a.state,
    0 < B2a.fNbOfChambers (B2a.self s) ->
    let n := Z.to_nat (B2a.fNbOfChambers (B2a.self s)) in
    let limits := length (B2a.userLimits (B2a.heap s)) in
    exists (world : nat) (s' : B2a.state),
      B2a.DefineVolumes s = (Returned world, s')
      /\ map B2a.lv_vis (B2a.chamber_volumes (B2a.heap s) (B2a.heap s'))
         = repeat None (n - 1) ++ [Some (B2a.Colour 1 1 0)]
      /\ map B2a.lv_limits (B2a.chamber_volumes (B2a.heap s) (B2a.heap s'))
         = repeat None (n - 1) ++ [Some limits]
      /\ B2a.fStepLimit (B2a.self s') = Some limits
      /\ B2a.userLimits (B2a.heap s')
         = B2a.userLimits (B2a.heap s) ++ [(0.5 * (20 * Units.cm))%float].
Proof.
  intros s Hn n limits.
  destruct (DefineVolumes_returns s Hn)
    as (s' & p0 & p1 & p2 & fp & Hrun & Hself & Hlv & _ & _ & Hul).
  cbv zeta in Hself, Hlv, Hul.
  exists (length (B2a.placements (B2a.heap s))), s'.
  split; [exact Hrun|].
  unfold B2a.chamber_volumes. rewrite Hlv, Hself, Hul.
  rewrite drop_app_add. cbn [drop app]. rewrite drop_0.
  rewrite !map_app, !map_map.
  cbn [map B2a.lv_vis B2a.lv_limits B2a.chamber_lv B2a.fStepLimit].
  rewrite !map_const_seq. repeat split.
Qed.

Lemma only_last_chamber_is_decorated_witness :
  exists (world : nat) (s' : B2a.state),
    B2a.DefineVolumes {| B2a.self := B2a.new; B2a.heap := B2a.empty_store |}
    = (Returned world, s')
    /\ map B2a.lv_limits
         (B2a.chamber_volumes B2a.empty_store (B2a.heap s'))
       = [None; None; None; None; Some 0%nat].
Proof.
  destruct (only_last_chamber_is_decorated
              {| B2a.self := B2a.new; B2a.heap := B2a.empty_store |} eq_refl)
    as (world & s' & H1 & _ & H3 & _).
  exists world, s'. split; [exact H1 | exact H3].
Defined.

(** X20.  After the construction the step limit of the last chamber
    is 0.5 times the chamber width, and [SetMaxStep] replaces it only
    by a value above 0: a call with 0, a negative value or NaN changes
    nothing.  Whatever calls are made, the limit in force is above 0,
    and nothing else of the geometry changes. *)
Theorem SetMaxStep_keeps_the_limit_positive :
  forall (s : B2a.state) (maxSteps : list float),
    0 < B2a.fNbOfChambers (B2a.self s) ->
    let initial := (0.5 * (20 * Units.cm))%float in
    exists (world : nat) (s' s'' : B2a.state),
      B2a.DefineVolumes s = (Returned world, s')
      /\ B2a.SetMaxSteps maxSteps s' = (Returned tt, s'')
      /\ B2a.userLimits (B2a.heap s'')
         = B2a.userLimits (B2a.heap s) ++ [B2a.step_in_force maxSteps initial]
      /\ (0 <? B2a.step_in_force maxSteps initial)%float = true
      /\ B2a.self s'' = B2a.self s'
      /\ B2a.logicals (B2a.heap s'') = B2a.logicals (B2a.heap s')
      /\ B2a.placements (B2a.heap s'') = B2a.placements (B2a.heap s').
Proof.
  intros s maxSteps Hn initial.
  destruct (DefineVolumes_returns s Hn)
    as (s' & p0 & p1 & p2 & fp & Hrun & Hself & _ & _ & _ & Hul).
  cbv zeta in Hself, Hul.
  destruct s' as [d' [sol' lvs' pvs' ul' wme']].
  cbn [B2a.self B2a.heap B2a.userLimits] in Hself, Hul. subst ul'.
  assert (Hd : B2a.fStepLimit d' = Some (length (B2a.userLimits (B2a.heap s))))
    by now rewrite Hself.
  eexists. eexists. eexists.
  split; [exact Hrun|].
  split; [apply (SetMaxSteps_spec _ _ _ _ _ _ _ Hd)|].
  cbn [B2a.self B2a.heap B2a.userLimits B2a.logicals B2a.placements].
  split; [reflexivity|].
  split; [|repeat split].
  apply step_in_force_positive. reflexivity.
Qed.

Lemma SetMaxStep_keeps_the_limit_positive_witness :
  exists (world : nat) (s' s'' : B2a.state),
    B2a.DefineVolumes {| B2a.self := B2a.new; B2a.heap := B2a.empty_store |}
    = (Returned world, s')
    /\ B2a.SetMaxSteps [2; 0; -1; nan]%float s' = (Returned tt, s'')
    /\ B2a.userLimits (B2a.heap s'') = [2%float].
Proof.
  destruct (SetMaxStep_keeps_the_limit_positive
              {| B2a.self := B2a.new; B2a.heap := B2a.empty_store |}
              [2; 0; -1; nan]%float eq_refl)
    as (world & s' & s'' & H1 & H2 & H3 & _).
  exists world, s', s''. split; [exact H1|]. split; [exact H2 | exact H3].
Defined.

(** X21.  Before the construction there is no step limit object, and
    [SetMaxStep] then does nothing at all: the value is not kept for
    the construction to use. *)
Theorem SetMaxStep_before_construction_is_lost :
  forall (s : B2a.state) (maxSteps : list float),
    B2a.fStepLimit (B2a.self s) = None ->
    B2a.SetMaxSteps maxSteps s = (Returned tt, s).
Proof.
  intros [d h] maxSteps Hd. cbn [B2a.self] in Hd.
  induction maxSteps as [|maxStep rest IH]; [reflexivity|].
  cbn [B2a.SetMaxSteps]. unfold B2a.bind at 1.
  unfold B2a.SetMaxStep, B2a.bind, B2a.get_self. cbn [B2a.self]. rewrite Hd.
  cbn [B2a.ret]. exact IH.
Qed.

Lemma SetMaxStep_before_construction_is_lost_witness :
  B2a.SetMaxSteps [2; 3]%float {| B2a.self := B2a.new; B2a.heap := B2a.empty_store |}
  = (Returned tt, {| B2a.self := B2a.new; B2a.heap := B2a.empty_store |}).
Proof.
  apply (SetMaxStep_before_construction_is_lost
           {| B2a.self := B2a.new; B2a.heap := B2a.empty_store |} [2; 3]%float).
  reflexivity.
Defined.

(** X22.  After the construction [SetChamberMaterial] with another
    material the manager knows changes the material of the last chamber
    only: the chambers before it keep the material they were built
    with, although [fChamberMaterial] now names the new one. *)
Theorem SetChamberMaterial_reaches_last_chamber_only :
  forall (s : B2a.state) (material : string),
    0 < B2a.fNbOfChambers (B2a.self s) ->
    B2a.same_material (B2a.fChamberMaterial (B2a.self s)) (Some material) = false ->
    let n := Z.to_nat (B2a.fNbOfChambers (B2a.self s)) in
    exists (world : nat) (s' s'' : B2a.state),
      B2a.DefineVolumes s = (Returned world, s')
      /\ B2a.SetChamberMaterial (Some material) s' = (Returned tt, s'')
      /\ B2a.fChamberMaterial (B2a.self s'') = Some material
      /\ map B2a.lv_material (B2a.chamber_volumes (B2a.heap s) (B2a.heap s''))
         = repeat (B2a.fChamberMaterial (B2a.self s)) (n - 1) ++ [Some material].
Proof.
  intros s material Hn Hm n.
  destruct (DefineVolumes_returns s Hn)
    as (s' & p0 & p1 & p2 & fp & Hrun & Hself & Hlv & _ & _ & _).
  cbv zeta in Hself, Hlv.
  destruct s' as [d' [sol' lvs' pvs' ul' wme']].
  cbn [B2a.self B2a.heap B2a.logicals] in Hself, Hlv. subst d' lvs'.
  eexists. eexists. eexists.
  split; [exact Hrun|].
  unfold B2a.SetChamberMaterial, B2a.bind at 1, B2a.get_self.
  cbn [B2a.self B2a.fChamberMaterial B2a.fLogicChamber]. rewrite Hm. cbn [negb].
  unfold B2a.bind, B2a.modify_self, B2a.SetMaterial, B2a.update_lv,
    B2a.modify_heap, B2a.set_fChamberMaterial.
  cbn [B2a.heap B2a.logicals B2a.self].
  split; [reflexivity|].
  cbn [B2a.self B2a.heap B2a.logicals B2a.fChamberMaterial].
  split; [reflexivity|].
  unfold B2a.chamber_volumes. cbn [B2a.heap B2a.logicals].
  rewrite (alter_after _ (B2a.logicals (B2a.heap s)) _ _
             (3 + (Z.to_nat (B2a.fNbOfChambers (B2a.self s)) - 1))) by lia.
  rewrite drop_app_add. cbn [app Nat.add alter list_alter drop]. rewrite drop_0.
  match goal with
  | |- context [alter ?f ?i (?l ++ [?x])] =>
      rewrite (alter_after f l [x] i 0)
        by (rewrite length_map, length_seq; lia)
  end.
  cbn [alter list_alter]. rewrite map_app, map_map.
  cbn [map B2a.lv_material B2a.chamber_lv]. now rewrite map_const_seq.
Qed.

Lemma SetChamberMaterial_reaches_last_chamber_only_witness :
  exists (world : nat) (s' s'' : B2a.state),
    B2a.DefineVolumes {| B2a.self := B2a.new; B2a.heap := B2a.empty_store |}
    = (Returned world, s')
    /\ B2a.SetChamberMaterial (Some "G4_Ar"%string) s' = (Returned tt, s'')
    /\ map B2a.lv_material (B2a.chamber_volumes B2a.empty_store (B2a.heap s''))
       = [Some "G4_Xe"; Some "G4_Xe"; Some "G4_Xe"; Some "G4_Xe"; Some "G4_Ar"]%string.
Proof.
  destruct (SetChamberMaterial_reaches_last_chamber_only
              {| B2a.self := B2a.new; B2a.heap := B2a.empty_store |} "G4_Ar"%string
              eq_refl eq_refl)
    as (world & s' & s'' & H1 & H2 & _ & H4).
  exists world, s', s''. split; [exact H1|]. split; [exact H2 | exact H4].
Defined.

(** ** A deposit that is not a number *)
Section NaNFacts.
Import Sign.
Local Open Scope float_scope.

Lemma is_NaN_spec (x : float) : is_NaN x = true <-> Prim2SF x = S754_nan.
Proof. unfold is_NaN. destruct (Prim2SF x); split; congruence. Qed.

Lemma add_NaN (x y : float) :
  is_NaN x = true \/ is_NaN y = true -> is_NaN (x + y) = true.
Proof.
  rewrite !is_NaN_spec, add_spec. intros [H|H]; rewrite H.
  - reflexivity.
  - now destruct (Prim2SF x).
Qed.

Lemma square_NaN (x : float) : is_NaN x = true -> is_NaN (Exact.square x) = true.
Proof.
  unfold Exact.square. rewrite !is_NaN_spec, mul_spec. now intros ->.
Qed.

Lemma fold_add_NaN (l : list float) :
  forall acc, is_NaN acc = true \/ existsb is_NaN l = true ->
              is_NaN (fold_left PrimFloat.add l acc) = true.
Proof.
  induction l as [|x l IH]; intros acc H; cbn [fold_left existsb] in *.
  - destruct H as [H|H]; [exact H|discriminate].
  - apply IH. destruct H as [H|H].
    + left. apply add_NaN. now left.
    + apply orb_prop in H. destruct H as [H|H]; [|now right].
      left. apply add_NaN. now right.
Qed.

Lemma existsb_square_NaN (l : list float) :
  existsb is_NaN l = true -> existsb is_NaN (map Exact.square l) = true.
Proof.
  induction l as [|x l IH]; [discriminate|]. cbn [existsb map]. intros H.
  apply orb_prop in H. apply orb_true_intro.
  destruct H as [H|H]; [left; now apply square_NaN | right; now apply IH].
Qed.

End NaNFacts.

(** X23.  One event whose deposit is NaN makes both sums of the run
    NaN, whatever the other events deposit and wherever it comes in the
    run.  The report of that run then shows a NaN total and a NaN mean
    next to an rms of 0. *)
Theorem NaN_deposit_poisons_the_run :
  forall (deposits : list float) (p : RunAction.process),
    existsb Sign.is_NaN deposits = true ->
    Run.nofEvents deposits < 2 ^ 31 ->
    let q := Run.sequential deposits p in
    Sign.is_NaN (RunAction.fEdep (RunAction.master q)) = true
    /\ Sign.is_NaN (RunAction.fEdep2 (RunAction.master q)) = true
    /\ exists r : RunAction.report,
         RunAction.printed q = RunAction.printed p ++ [r]
         /\ Sign.is_NaN (RunAction.totalEdep r) = true
         /\ Sign.is_NaN (RunAction.meanEdep r) = true
         /\ Prim2SF (RunAction.rmsEdep r) = S754_zero false.
Proof.
  intros deposits p Hnan HN q.
  destruct (sequential_spec deposits p) as (H1 & H2 & H3). fold q in H1, H2, H3.
  assert (N1 : Sign.is_NaN (RunAction.fEdep (RunAction.master q)) = true).
  { rewrite H1. apply fold_add_NaN. now right. }
  assert (N2 : Sign.is_NaN (RunAction.fEdep2 (RunAction.master q)) = true).
  { rewrite H2. apply fold_add_NaN. right. now apply existsb_square_NaN. }
  split; [exact N1|]. split; [exact N2|].
  assert (Hpos : 0 < Run.nofEvents deposits).
  { unfold Run.nofEvents. destruct deposits; [discriminate|]. cbn [length]. lia. }
  destruct (Z.eqb_spec (Run.nofEvents deposits) 0) as [E|_]; [lia|].
  eexists. split; [exact H3|].
  pose proof (nofEvents_positive_finite (Run.nofEvents deposits)
                (conj Hpos HN)) as Hn.
  unfold RunAction.statistics.
  cbn [RunAction.totalEdep RunAction.meanEdep RunAction.rmsEdep].
  set (n := G4double_of_G4int (Run.nofEvents deposits)) in *.
  apply is_NaN_spec in N1, N2.
  split; [now apply is_NaN_spec|].
  split.
  - apply is_NaN_spec. now rewrite div_spec, N1.
  - assert (E : (0 <? RunAction.fEdep2 (RunAction.master q)
                      - RunAction.fEdep (RunAction.master q)
                        * RunAction.fEdep (RunAction.master q) / n)%float = false).
    { rewrite ltb_spec, sub_spec, N2. reflexivity. }
    rewrite E, div_spec, Prim2SF_zero.
    destruct (Prim2SF n) as [sy|sy| |[] my ey]; try discriminate. reflexivity.
Qed.

Lemma NaN_deposit_poisons_the_run_witness :
  let q := Run.sequential [1; nan; 2]%float (RunAction.start ".") in
  Sign.is_NaN (RunAction.fEdep (RunAction.master q)) = true
  /\ Sign.is_NaN (RunAction.fEdep2 (RunAction.master q)) = true
  /\ exists r : RunAction.report,
       RunAction.printed q = RunAction.printed (RunAction.start ".") ++ [r]
       /\ Sign.is_NaN (RunAction.totalEdep r) = true
       /\ Sign.is_NaN (RunAction.meanEdep r) = true
       /\ Prim2SF (RunAction.rmsEdep r) = S754_zero false.
Proof.
  apply (NaN_deposit_poisons_the_run [1; nan; 2]%float (RunAction.start "."));
    reflexivity.
Defined.

(** ** Reports and files over several runs *)
Section OutputFacts.
Import G4AnalysisManager RunAction Run Session.

Lemma forallb_event_calls (fileName : string) (deposits : list float) :
  forall eventID,
    forallb (names_no_other_file fileName) (event_calls deposits eventID) = true.
Proof.
  induction deposits as [|e l IH]; intros eventID; [reflexivity|].
  cbn [event_calls app forallb names_no_other_file andb]. apply IH.
Qed.

Lemma run_calls_files (deposits : list float) (q : process) :
  let fileName := (fOutputDir (master q) ++ "/output")%string in
  forallb (names_no_other_file fileName) (run_calls deposits q) = true
  /\ count is_OpenFile (run_calls deposits q)
     = (if Analysis.fBooked (analysis q) then 0 else 1)%nat.
Proof.
  cbv zeta. unfold run_calls. rewrite !forallb_app, !count_app.
  rewrite forallb_event_calls, (count_event_calls is_OpenFile) by reflexivity.
  split.
  - apply andb_true_intro. split.
    + destruct (Analysis.fBooked (analysis q)); [reflexivity|].
      cbn [Analysis.booking forallb names_no_other_file andb].
      now rewrite String.eqb_refl.
    + now destruct deposits.
  - destruct (Analysis.fBooked (analysis q)), deposits; reflexivity.
Qed.

Lemma runs_fOutputDir (session : list (list float)) (p : process) :
  fOutputDir (master (runs session p)) = fOutputDir (master p).
Proof.
  induction session as [|deposits session IH] using rev_ind; [reflexivity|].
  rewrite runs_snoc.
  destruct (sequential_analysis deposits (runs session p)) as (_ & _ & Hd).
  now rewrite Hd.
Qed.

End OutputFacts.

(** X24.  In a multi-threaded run the workers print nothing.  The
    master prints one report, computed from the merged sums and the
    number of events of all workers together, and prints none when no
    worker had an event. *)
Theorem multithreaded_run_prints_one_report :
  forall (shards : list (list float)) (p : RunAction.process),
    let q := Run.multithreaded shards p in
    let total := Run.nofEvents (concat shards) in
    RunAction.printed q
    = if (total =? 0)%Z then RunAction.printed p
      else RunAction.printed p
           ++ [RunAction.statistics
                 (Exact.fsum (Exact.merged_sums Exact.fsum shards))
                 (Exact.fsum
                    (Exact.merged_sums
                       (fun shard => Exact.fsum (map Exact.square shard)) shards))
                 total].
Proof.
  intros shards p. cbv zeta.
  destruct (multithreaded_spec shards p) as (H1 & H2 & H3).
  now rewrite H3, H1, H2.
Qed.

(** X25.  Over a session of sequential runs in one process every
    file name given to the analysis manager is the same one,
    [outputDir/output]: a later run writes to the file of the earlier
    ones.  The file has been opened once for each run with events, and
    once more when it is open now. *)
Theorem session_reopens_the_same_file :
  forall (outputDir : string) (session : list (list float)),
    let p := Session.runs session (RunAction.start outputDir) in
    let a := RunAction.analysis p in
    forallb (Session.names_no_other_file (outputDir ++ "/output")%string)
      (Analysis.manager a) = true
    /\ G4AnalysisManager.count G4AnalysisManager.is_OpenFile (Analysis.manager a)
       = (length (Session.runs_with_events session)
          + if Analysis.fBooked a then 1 else 0)%nat.
Proof.
  intros outputDir session. cbv zeta.
  induction session as [|deposits session IH] using rev_ind.
  - split; reflexivity.
  - destruct IH as (IH1 & IH2).
    rewrite runs_snoc, runs_with_events_snoc.
    set (q := Session.runs session (RunAction.start outputDir)) in *.
    destruct (sequential_analysis deposits q) as (Hm & Hb & _).
    destruct (run_calls_files deposits q) as (Hf & Ho).
    assert (Hdir : RunAction.fOutputDir (RunAction.master q) = outputDir)
      by (subst q; now rewrite runs_fOutputDir).
    rewrite Hdir in Hf.
    rewrite Hm, Hb, forallb_app, count_app, IH1, IH2, Hf, Ho.
    split; [reflexivity|].
    destruct (Analysis.fBooked (RunAction.analysis q)), deposits; cbn; lia.
Qed.

(** ** Saving at the end of a run *)
Section SaveFacts.
Import G4AnalysisManager RunAction Run Session.

(** A worker leaves in the analysis what a sequential run of its
    events would. *)
Lemma worker_analysis (shard : list float) (q : process) :
  Analysis.manager (analysis (worker shard q))
  = Analysis.manager (analysis q) ++ run_calls shard q
  /\ Analysis.fBooked (analysis (worker shard q))
     = match shard with [] => true | _ :: _ => false end
  /\ fOutputDir (master (worker shard q)) = fOutputDir (master q).
Proof.
  unfold worker, run_calls. cbn [BeginOfRunAction].
  rewrite process_events_spec.
  destruct shard as [|e l].
  - cbn [EndOfRunAction nofEvents length Z.of_nat Z.eqb event_calls
         accumulate fold_left analysis master].
    unfold Analysis.send, Analysis.Book, Analysis.SetOutputDirectory.
    cbn [Analysis.fBooked Analysis.manager Analysis.fOutputDir Reset new fOutputDir].
    destruct (Analysis.fBooked (analysis q)) eqn:E;
      cbn [Analysis.fBooked Analysis.manager Analysis.fOutputDir];
      rewrite ?app_nil_r; repeat split; try reflexivity; assumption.
  - assert (HN : (nofEvents (e :: l) =? 0)%Z = false).
    { unfold nofEvents. cbn [length]. apply Z.eqb_neq. lia. }
    unfold EndOfRunAction. rewrite HN.
    cbn [Merge analysis master printed Analysis.Save Analysis.manager
         Analysis.fBooked mergeFrom fOutputDir].
    unfold Analysis.send, Analysis.Book, Analysis.SetOutputDirectory.
    cbn [Analysis.fBooked Analysis.manager Analysis.fOutputDir Reset new fOutputDir].
    destruct (Analysis.fBooked (analysis q)) eqn:E;
      cbn [Analysis.fBooked Analysis.manager Analysis.fOutputDir];
      rewrite <- ?app_assoc; repeat split; reflexivity.
Qed.

Lemma count_saves_run_calls (deposits : list float) (q : process) :
  count is_Write (run_calls deposits q)
  = match deposits with [] => 0 | _ :: _ => 1 end%nat
  /\ count is_CloseFile (run_calls deposits q)
     = match deposits with [] => 0 | _ :: _ => 1 end%nat.
Proof.
  unfold run_calls. rewrite !count_app.
  rewrite !(count_event_calls _ deposits) by reflexivity.
  destruct (Analysis.fBooked (analysis q)), deposits; split; reflexivity.
Qed.

Lemma workers_saves (shards : list (list float)) :
  forall q : process,
    let q' := fold_left (fun acc shard => worker shard acc) shards q in
    count is_Write (Analysis.manager (analysis q'))
    = (count is_Write (Analysis.manager (analysis q))
       + length (runs_with_events shards))%nat
    /\ count is_CloseFile (Analysis.manager (analysis q'))
       = (count is_CloseFile (Analysis.manager (analysis q))
          + length (runs_with_events shards))%nat.
Proof.
  cbv zeta. induction shards as [|shard shards IH] using rev_ind; intros q.
  - cbn. split; lia.
  - rewrite fold_left_app, runs_with_events_snoc. cbn [fold_left].
    destruct (IH q) as (IH1 & IH2).
    set (q1 := fold_left _ shards q) in *.
    destruct (worker_analysis shard q1) as (Hm & _ & _).
    destruct (count_saves_run_calls shard q1) as (Hw & Hc).
    rewrite Hm, !count_app, Hw, Hc, IH1, IH2. split; lia.
Qed.

End SaveFacts.

(** C9, as claimed, fails.  A run without events ends with no [Write]
    and no [CloseFile], and with the file [Book] opened still open.  A
    run of four events shared by two workers ends with three of each:
    one from each worker and one from the master. *)
Lemma Save_not_once_per_run :
  let p := RunAction.start "." in
  let writes (q : RunAction.process) :=
    G4AnalysisManager.count G4AnalysisManager.is_Write
      (Analysis.manager (RunAction.analysis q)) in
  let closes (q : RunAction.process) :=
    G4AnalysisManager.count G4AnalysisManager.is_CloseFile
      (Analysis.manager (RunAction.analysis q)) in
  (writes (Run.sequential [] p) = 0%nat
   /\ closes (Run.sequential [] p) = 0%nat
   /\ G4AnalysisManager.open_files
        (Analysis.manager (RunAction.analysis (Run.sequential [] p))) 0 = 1%nat
   /\ writes (Run.sequential [] p) <> 1%nat)
  /\ (writes (Run.multithreaded [[1; 1]; [1; 1]]%float p) = 3%nat
      /\ closes (Run.multithreaded [[1; 1]; [1; 1]]%float p) = 3%nat
      /\ writes (Run.multithreaded [[1; 1]; [1; 1]]%float p) <> 1%nat).
Proof.
  cbv zeta. split.
  - repeat split; try reflexivity. vm_compute. discriminate.
  - split; [vm_compute; reflexivity|]. split; [vm_compute; reflexivity|].
    vm_compute. discriminate.
Qed.

(** C9, amended.  [EndOfRunAction] executes [Save] once on every
    thread whose run has events, and not at all on a thread whose run
    has none.  For a sequential run on a fresh process the analysis
    manager receives the calls of [Book], then those of the events,
    then, when there is an event, [Write] and [CloseFile], once each, in
    that order and nothing after: the file is then closed and [fBooked]
    cleared.  Without events neither is sent, and the file [Book]
    opened stays open.  In a multi-threaded run [Write] and [CloseFile]
    are each sent once per worker that had events and once more by the
    master when the run had events. *)
Theorem Save_once_per_thread_with_events :
  forall outputDir : string,
    (forall deposits : list float,
        let p := Run.sequential deposits (RunAction.start outputDir) in
        let a := RunAction.analysis p in
        let saves := match deposits with [] => 0%nat | _ :: _ => 1%nat end in
        Analysis.manager a
        = Analysis.booking (outputDir ++ "/output")%string
          ++ Run.event_calls deposits 0
          ++ match deposits with
             | [] => []
             | _ :: _ => [G4AnalysisManager.Write; G4AnalysisManager.CloseFile]
             end
        /\ G4AnalysisManager.count G4AnalysisManager.is_Write (Analysis.manager a)
           = saves
        /\ G4AnalysisManager.count G4AnalysisManager.is_CloseFile (Analysis.manager a)
           = saves
        /\ G4AnalysisManager.open_files (Analysis.manager a) 0 = (1 - saves)%nat
        /\ Analysis.fBooked a = negb (Nat.eqb saves 1))
    /\ (forall shards : list (list float),
          let p := Run.multithreaded shards (RunAction.start outputDir) in
          let mgr := Analysis.manager (RunAction.analysis p) in
          let saves :=
            (length (filter (fun shard => shard <> []) shards)
             + if (Run.nofEvents (concat shards) =? 0)%Z then 0 else 1)%nat in
          G4AnalysisManager.count G4AnalysisManager.is_Write mgr = saves
          /\ G4AnalysisManager.count G4AnalysisManager.is_CloseFile mgr = saves).
Proof.
  intros outputDir. split.
  - intros deposits. cbv zeta.
    destruct (sequential_analysis deposits (RunAction.start outputDir))
      as (Hm & Hb & _).
    destruct (count_saves_run_calls deposits (RunAction.start outputDir))
      as (Hw & Hc).
    rewrite Hm, Hb. unfold Session.run_calls in *.
    cbn [RunAction.start RunAction.analysis RunAction.master RunAction.new
         RunAction.fOutputDir Analysis.new Analysis.fBooked Analysis.manager app]
      in *.
    split; [reflexivity|]. split; [exact Hw|]. split; [exact Hc|].
    rewrite !open_files_app, open_files_event_calls.
    destruct deposits; split; reflexivity.
  - intros shards. cbv zeta. unfold Run.multithreaded.
    set (q0 := RunAction.BeginOfRunAction_master (RunAction.start outputDir)).
    destruct (workers_saves shards q0) as (Hw & Hc). cbv zeta in Hw, Hc.
    set (q1 := fold_left _ shards q0) in *.
    change (filter (fun shard : list float => shard <> []) shards)
      with (Session.runs_with_events shards).
    assert (H0w : G4AnalysisManager.count G4AnalysisManager.is_Write
                    (Analysis.manager (RunAction.analysis q0)) = 0%nat)
      by reflexivity.
    assert (H0c : G4AnalysisManager.count G4AnalysisManager.is_CloseFile
                    (Analysis.manager (RunAction.analysis q0)) = 0%nat)
      by reflexivity.
    rewrite H0w in Hw. rewrite H0c in Hc.
    unfold RunAction.EndOfRunAction.
    destruct (Run.nofEvents (concat shards) =? 0)%Z.
    + rewrite Hw, Hc. split; lia.
    + cbn [RunAction.Merge RunAction.analysis Analysis.Save Analysis.manager].
      rewrite !count_app, Hw, Hc. cbn. split; lia.
Qed.
